(** * SonosCast: the Cast v2 virtual receiver, embedded in Rocq

    A shallow embedding of [sonoscast/app/lib/cast-protocol.js]
    (framing, [PacketReader], [CastProtocolServer.send]),
    [sonoscast/app/lib/cast-device.js] (the per-receiver session engine),
    [sonoscast/app/lib/device-registry.js] (the identity store), the XML
    escaping of [sonoscast/app/lib/bridge.js] and the grouping of the
    signature bytes in the two extraction scripts, followed by the
    properties of the specification that were checked against them and by
    further properties of the same code. *)

From Stdlib Require Import ZArith NArith List String Ascii Strings.Byte Lia Bool.
From Stdlib Require QArith.
From stdpp Require Import base option list gmap strings pretty.

Local Open Scope string_scope.
Local Open Scope list_scope.

(** ** Node.js [Buffer] fragments used by the framing layer *)

Module Buf.

Local Open Scope N_scope.

Abbreviation bytes := (list byte).

(** One octet of a number: [Byte.of_N] is partial on [N]; the callers only
    pass values below 256. *)
Definition octet (n : N) : byte :=
  match Byte.of_N n with Some b => b | None => x00 end.

(** [buf.readUInt32BE(0)]; Node raises a RangeError when fewer than four
    bytes are available, rendered as [None]. *)
Definition readUInt32BE (b : bytes) : option N :=
  match b with
  | b0 :: b1 :: b2 :: b3 :: _ =>
      Some (Byte.to_N b0 * 16777216 + Byte.to_N b1 * 65536
            + Byte.to_N b2 * 256 + Byte.to_N b3)
  | _ => None
  end.

(** [Buffer.alloc(4)] followed by [header.writeUInt32BE(v, 0)]; Node raises
    a RangeError unless [0 <= v <= 2^32 - 1], rendered as [None]. *)
Definition writeUInt32BE (v : N) : option bytes :=
  if v <? 4294967296
  then Some [octet (v / 16777216); octet ((v / 65536) mod 256);
             octet ((v / 256) mod 256); octet (v mod 256)]
  else None.

(** [buf.length] as an unsigned number. *)
Definition blength (b : bytes) : N := N.of_nat (length b).

(** [buf.slice(0, n)] and [buf.slice(n)]. *)
Definition slice_to (n : N) (b : bytes) : bytes := take (N.to_nat n) b.
Definition slice_from (n : N) (b : bytes) : bytes := drop (N.to_nat n) b.

End Buf.

Import Buf.

(** ** JavaScript values, exceptions and completions *)

Module JS.

(** The values a parsed JSON payload is made of, with [undefined] for the
    result of reading an absent property. A number is the rational it
    denotes; no arithmetic is done on payload numbers. *)
#[warnings="-register-all"]
Inductive value :=
| undefined
| null
| JBool (b : bool)
| JNum (q : QArith_base.Q)
| JStr (s : string)
| JArr (items : list value)
| JObj (props : list (string * value)).

Inductive exn :=
| TypeError (message : string)
| SyntaxError (message : string)
| RangeError (message : string)
| Error (message : string).

(** [err.message] *)
Definition message_of (e : exn) : string :=
  match e with
  | TypeError m | SyntaxError m | RangeError m | Error m => m
  end.

(** How a statement ends: normally with a value, or by throwing. *)
Inductive completion (A : Type) :=
| Normal (a : A)
| Throw (e : exn).
Arguments Normal {A} a.
Arguments Throw {A} e.

Definition JInt (z : Z) : value := JNum (QArith_base.inject_Z z).

(** ToBoolean *)
Definition truthy (v : value) : bool :=
  match v with
  | undefined | null => false
  | JBool b => b
  | JNum q => negb (Z.eqb (QArith_base.Qnum q) 0)
  | JStr s => negb (String.eqb s "")
  | JArr _ | JObj _ => true
  end.

(** [a || b] *)
Definition or_else (a b : value) : value := if truthy a then a else b.

(** [v === 'literal'] *)
Definition is_string (v : value) (lit : string) : bool :=
  match v with JStr s => String.eqb s lit | _ => false end.

(** [v !== false] *)
Definition is_not_false (v : value) : bool :=
  match v with JBool false => false | _ => true end.

Fixpoint lookup_prop (k : string) (props : list (string * value)) : value :=
  match props with
  | [] => undefined
  | (k', v) :: rest => if String.eqb k' k then v else lookup_prop k rest
  end.

(** [v.k] for the property names the handlers read ([type], [requestId],
    [media], [contentId], ...): a TypeError on [undefined] and [null], the
    own property of an object, and [undefined] on the other values, none of
    which carries a property of these names. *)
Definition get (v : value) (k : string) : completion value :=
  match v with
  | undefined =>
      Throw (TypeError ("Cannot read properties of undefined (reading '" +:+ k +:+ "')"))
  | null =>
      Throw (TypeError ("Cannot read properties of null (reading '" +:+ k +:+ "')"))
  | JObj props => Normal (lookup_prop k props)
  | _ => Normal undefined
  end.

(** Whether an object has an own property of this name. *)
Definition has_own (k : string) (props : list (string * value)) : bool :=
  existsb (fun kv => String.eqb kv.1 k) props.

(** Whether ToString succeeds on a payload value. It does on the
    primitives. On an object without an own [toString] it calls
    [Object.prototype.toString]; an own [toString] of a parsed payload is
    not callable, and then neither an own [valueOf] (not callable) nor the
    inherited one (it returns the object) gives a primitive: ToString
    throws. On an array it joins the ToString of the elements. *)
Fixpoint printable (v : value) : bool :=
  match v with
  | JArr items =>
      (fix all (l : list value) : bool :=
         match l with
         | [] => true
         | x :: rest => printable x && all rest
         end) items
  | JObj props => negb (has_own "toString" props)
  | _ => true
  end.

(** [`${v}`] in a template literal: the text is not kept, the TypeError
    of ToString is. *)
Definition interpolate (v : value) : completion unit :=
  if printable v then Normal tt
  else Throw (TypeError "Cannot convert object to primitive value").

(** [++n] on the values a counter started at 0 can take: below 2^53 the
    sum is exact; at 2^53 the sum [2^53 + 1] is not representable and rounds
    back to 2^53, where the counter stays. *)
Definition js_increment (n : Z) : Z :=
  if (n <? 9007199254740992)%Z then (n + 1)%Z else n.

End JS.

Import JS.

(** ** The logger (logger.js) *)

Module Log.

(** The functions [logger.js] exports. *)
Inductive Level := trace | debug | info | notice | warning | error | fatal.

(** One call of a logger function: the level, the component, and the
    message (interpolated payload values are left out of the text). *)
Record Line := { level : Level; component : string; text : string }.

(** [log.warn] is not among the exports of [logger.js]: calling it raises
    this TypeError. *)
Definition warn_is_not_a_function : exn :=
  TypeError "log.warn is not a function".

End Log.

(** ** State with exceptions

    Handlers mutate the receiver before and after calls that may throw; the
    state reached at the throw is what a [catch] block sees. *)

Module Eff.

Section Monad.
Context {S : Type}.

Definition M (A : Type) : Type := S -> completion A * S.

Definition ret {A} (a : A) : M A := fun s => (Normal a, s).

Definition throw {A} (e : exn) : M A := fun s => (Throw e, s).

Definition bind {A B} (m : M A) (k : A -> M B) : M B :=
  fun s =>
    match m s with
    | (Normal a, s') => k a s'
    | (Throw e, s') => (Throw e, s')
    end.

(** [try { body } catch (err) { handler }] *)
Definition try_catch {A} (body : M A) (handler : exn -> M A) : M A :=
  fun s =>
    match body s with
    | (Normal a, s') => (Normal a, s')
    | (Throw e, s') => handler e s'
    end.

Definition gets {A} (f : S -> A) : M A := fun s => (Normal (f s), s).

Definition modify (f : S -> S) : M unit := fun s => (Normal tt, f s).

(** Lift a completion computed without the state. *)
Definition lift {A} (c : completion A) : M A := fun s => (c, s).

(** A computation keeps a relation between the state it starts from and
    the state it ends in, however it ends. *)
Definition keeps {A} (R : S -> S -> Prop) (m : M A) : Prop :=
  forall s, R s (m s).2.

(** A computation does not look at what [f] changes: running it after [f]
    is running it and then applying [f]. *)
Definition commutes {A} (f : S -> S) (m : M A) : Prop :=
  forall s, m (f s) = ((m s).1, f (m s).2).

End Monad.

Arguments M : clear implicits.

End Eff.

Import Eff.

Notation "'do' x <- m ; k" := (bind m (fun x => k))
  (at level 10, x name, m at level 100, k at level 200,
   format "'[v' 'do'  x  <-  m ; '/' k ']'").
Notation "m >> k" := (bind m (fun _ => k))
  (at level 190, right associativity).

(** ** The envelope message and the framing layer (cast-protocol.js) *)

Module CastProtocol.

Local Open Scope N_scope.

Inductive ProtocolVersion := CASTV2_1_0.
Inductive PayloadType := STRING | BINARY.

(** The [CastMessage] protobuf record. protobufjs leaves a field that is
    not on the wire unset, hence the optional payload fields. *)
Record CastMessage := {
  protocolVersion : ProtocolVersion;
  sourceId : string;
  destinationId : string;
  namespace_ : string;
  payloadType : PayloadType;
  payloadUtf8 : option string;
  payloadBinary : option bytes
}.

(** State of one [PacketReader]. *)
Record PacketReader := {
  _buffer : bytes;
  _expectedLength : option N
}.

(** [new PacketReader(socket, onMessage)] *)
Definition new_PacketReader : PacketReader :=
  {| _buffer := []; _expectedLength := None |}.

(** What one turn of the reader does towards the outside: hand a decoded
    message to the [onMessage] callback, or log a decode failure. *)
Inductive ReaderEvent :=
| OnMessage (m : CastMessage)
| DecodeWarning.

(** Outcome of one pass through the body of [while (true)]. *)
Inductive Iteration :=
| Break (st : PacketReader)
| Continue (ev : ReaderEvent) (st : PacketReader).

Section Reader.

(** [castMessageType.encode(..).finish()] and [castMessageType.decode],
    the protobufjs codec of the envelope; [None] is a thrown decode
    error. *)
Variable encode : CastMessage -> bytes.
Variable decode : bytes -> option CastMessage.

(** The second half of the loop body, entered with the length known. *)
Definition read_body (n : N) (buf : bytes) : Iteration :=
  if blength buf <? n
  then Break {| _buffer := buf; _expectedLength := Some n |}
  else
    let messageData := slice_to n buf in
    let st := {| _buffer := slice_from n buf; _expectedLength := None |} in
    match decode messageData with
    | Some message => Continue (OnMessage message) st
    | None => Continue DecodeWarning st
    end.

(** One pass through the loop body of [_onData]. *)
Definition iteration (st : PacketReader) : Iteration :=
  match _expectedLength st with
  | None =>
      if blength (_buffer st) <? 4 then Break st
      else
        match readUInt32BE (_buffer st) with
        | Some n => read_body n (slice_from 4 (_buffer st))
        | None => Break st
        end
  | Some n => read_body n (_buffer st)
  end.

(** The [while (true)] loop, with an explicit bound on the passes. *)
Fixpoint loop (fuel : nat) (st : PacketReader)
  : list ReaderEvent * PacketReader :=
  match fuel with
  | O => ([], st)
  | S fuel' =>
      match iteration st with
      | Break st' => ([], st')
      | Continue ev st' =>
          let '(evs, st'') := loop fuel' st' in (ev :: evs, st'')
      end
  end.

(** Every pass that continues lowers this measure, so it bounds the
    number of passes. *)
Definition measure (st : PacketReader) : nat :=
  2 * length (_buffer st)
  + match _expectedLength st with Some _ => 1 | None => 0 end.

(** [this._buffer = Buffer.concat([this._buffer, chunk])] *)
Definition append_chunk (chunk : bytes) (st : PacketReader) : PacketReader :=
  {| _buffer := _buffer st ++ chunk; _expectedLength := _expectedLength st |}.

(** The loop run to its [break]: fuel above the measure is never used up. *)
Definition run (st : PacketReader) : list ReaderEvent * PacketReader :=
  loop (S (measure st)) st.

(** A reader on which the loop breaks at once, without a change. *)
Definition settled (st : PacketReader) : Prop := iteration st = Break st.

(** [_onData(chunk)] *)
Definition _onData (chunk : bytes) (st : PacketReader)
  : list ReaderEvent * PacketReader :=
  run (append_chunk chunk st).

(** The socket delivering a sequence of chunks, one [data] event each. *)
Fixpoint feed (chunks : list bytes) (st : PacketReader)
  : list ReaderEvent * PacketReader :=
  match chunks with
  | [] => ([], st)
  | chunk :: rest =>
      let '(evs1, st1) := _onData chunk st in
      let '(evs2, st2) := feed rest st1 in
      (evs1 ++ evs2, st2)
  end.

(** The bytes [send] writes for one envelope: the four byte header with
    the encoded length, then the encoding. [None] is the RangeError of
    [writeUInt32BE]. *)
Definition frame (m : CastMessage) : option bytes :=
  let encoded := encode m in
  match writeUInt32BE (blength encoded) with
  | Some header => Some (header ++ encoded)
  | None => None
  end.

(** What the loop hands over for a complete body: the decoded message, or
    the warning of the [catch] block. *)
Definition deliver (body : bytes) : ReaderEvent :=
  match decode body with
  | Some message => OnMessage message
  | None => DecodeWarning
  end.

End Reader.

(** A body behind the header that carries its length: the wire format the
    reader expects, whoever wrote it. [None] when the length does not fit
    the header. *)
Definition framed (body : bytes) : option bytes :=
  match writeUInt32BE (blength body) with
  | Some header => Some (header ++ body)
  | None => None
  end.

(** What [send] accepts as [data]: a string, or a Buffer. *)
Inductive Data :=
| DString (s : string)
| DBuffer (b : bytes).

(** A TLS socket, seen from the server: the buffers passed to
    [socket.write], oldest first, and whether [destroy] was called. *)
Record Socket := {
  written : list bytes;
  destroyed : bool
}.

(** An entry of [_clients]: [{ socket, reader }]. *)
Record Client := {
  socket : Socket;
  reader : PacketReader
}.

Record CastProtocolServer := {
  _server : bool;   (* the TLS server object: [true] once created, [false] for [null] *)
  _clients : gmap string Client;
  _clientCounter : Z   (* a JavaScript number that starts at 0 *)
}.

Definition with_clients (m : gmap string Client) (srv : CastProtocolServer)
  : CastProtocolServer :=
  {| _server := _server srv; _clients := m; _clientCounter := _clientCounter srv |}.

(** [new CastProtocolServer(tlsOptions)] followed by [listen(port)]. *)
Definition listening_server : CastProtocolServer :=
  {| _server := true; _clients := ∅; _clientCounter := 0%Z |}.

(** The payload of the ['message'] event. *)
Record MessageEvent := {
  clientId : string;
  msg_sourceId : string;
  msg_destinationId : string;
  namespace : string;
  data : Data
}.

(** The callback handed to the reader in [_onConnection]: it picks the
    payload by [payloadType] (an unset field reads as its protobuf default)
    and emits ['message']. *)
Definition message_event (clientId : string) (message : CastMessage)
  : MessageEvent :=
  {| clientId := clientId;
     msg_sourceId := sourceId message;
     msg_destinationId := destinationId message;
     namespace := namespace_ message;
     data := match payloadType message with
             | BINARY => DBuffer (default [] (payloadBinary message))
             | STRING => DString (default "" (payloadUtf8 message))
             end |}.

(** The envelope [send] builds from its arguments. [castMessageType.verify]
    accepts every envelope built here: the fields have their declared types
    by construction. *)
Definition envelope (sourceId destinationId namespace : string) (data : Data)
  : CastMessage :=
  {| protocolVersion := CASTV2_1_0;
     sourceId := sourceId;
     destinationId := destinationId;
     namespace_ := namespace;
     payloadType := match data with DBuffer _ => BINARY | DString _ => STRING end;
     payloadUtf8 := match data with DString s => Some s | DBuffer _ => None end;
     payloadBinary := match data with DBuffer b => Some b | DString _ => None end |}.

(** [socket.write(buf)]; the source guards it with a [try], and a write of
    a Buffer does not throw. *)
Definition socket_write (buf : bytes) (c : Client) : Client :=
  {| socket := {| written := written (socket c) ++ [buf];
                  destroyed := destroyed (socket c) |};
     reader := reader c |}.

(** How a call of [send] ends. *)
Inductive SendOutcome :=
| Written (srv : CastProtocolServer)
| UnknownClient          (* logged as a warning, nothing sent *)
| SendThrew (e : exn).   (* [writeUInt32BE] outside the [try] *)

(** [send(clientId, sourceId, destinationId, namespace, data)] *)
Definition send (encode : CastMessage -> bytes)
    (clientId sourceId destinationId namespace : string) (data : Data)
    (srv : CastProtocolServer) : SendOutcome :=
  match _clients srv !! clientId with
  | None => UnknownClient
  | Some client =>
      match frame encode (envelope sourceId destinationId namespace data) with
      | None =>
          SendThrew (RangeError "The value of value is out of range")
      | Some buf =>
          Written (with_clients (<[clientId := socket_write buf client]> (_clients srv)) srv)
      end
  end.

(** [close()] *)
Definition close (srv : CastProtocolServer) : CastProtocolServer :=
  {| _server := false; _clients := ∅; _clientCounter := _clientCounter srv |}.

(** [_onConnection(socket)]: registers the client under the id made from
    [++this._clientCounter] and returns the id carried by the ['connect']
    event. *)
Definition _onConnection (srv : CastProtocolServer)
  : string * CastProtocolServer :=
  let counter := js_increment (_clientCounter srv) in
  let clientId := "client-" +:+ pretty counter in
  (clientId,
   {| _server := _server srv;
      _clients := <[clientId := {| socket := {| written := []; destroyed := false |};
                                   reader := new_PacketReader |}]> (_clients srv);
      _clientCounter := counter |}).

(** The socket's ['close'] event. *)
Definition on_socket_close (clientId : string) (srv : CastProtocolServer)
  : CastProtocolServer :=
  with_clients (delete clientId (_clients srv)) srv.

(** The arguments of one call of [send], the client apart. *)
Record Outgoing := {
  out_sourceId : string;
  out_destinationId : string;
  out_namespace : string;
  out_data : Data
}.

Definition envelope_of (o : Outgoing) : CastMessage :=
  envelope (out_sourceId o) (out_destinationId o) (out_namespace o) (out_data o).

(** Calls of [send] to one client, one after the other; [None] as soon as
    one of them writes nothing. *)
Fixpoint send_all (encode : CastMessage -> bytes) (clientId : string)
    (outs : list Outgoing) (srv : CastProtocolServer)
  : option CastProtocolServer :=
  match outs with
  | [] => Some srv
  | o :: rest =>
      match send encode clientId (out_sourceId o) (out_destinationId o)
              (out_namespace o) (out_data o) srv with
      | Written srv' => send_all encode clientId rest srv'
      | UnknownClient | SendThrew _ => None
      end
  end.

(** What the listeners of ['message'] get for an event of the reader of
    the connection [peer]: the callback of [_onConnection] runs for a decoded
    message only. *)
Definition emitted_message (peer : string) (ev : ReaderEvent)
  : option MessageEvent :=
  match ev with
  | OnMessage message => Some (message_event peer message)
  | DecodeWarning => None
  end.

(** The ['message'] event that corresponds to a call of [send]. *)
Definition received_as (peer : string) (o : Outgoing) : MessageEvent :=
  {| clientId := peer;
     msg_sourceId := out_sourceId o;
     msg_destinationId := out_destinationId o;
     namespace := out_namespace o;
     data := out_data o |}.

(** The counter is not negative, and every registered client id was made
    by [_onConnection] from a counter value that has been used. *)
Definition ids_bounded (srv : CastProtocolServer) : Prop :=
  (0 <= _clientCounter srv)%Z
  /\ forall id, is_Some (_clients srv !! id) ->
       exists k : Z, id = "client-" +:+ pretty k /\ (1 <= k <= _clientCounter srv)%Z.

End CastProtocol.

Import CastProtocol.

(** ** The device-authentication sub-message and the platform *)

Module Platform.

Inductive ErrorType := INTERNAL_ERROR | NO_TLS.

Record AuthResponse := {
  signature : bytes;
  clientAuthCertificate : bytes;
  intermediateCertificate : list bytes
}.

(** The [DeviceAuthMessage] protobuf record; [AuthChallenge] has no fields
    in the schema of the source. *)
Record DeviceAuthMessage := {
  challenge : option unit;
  response : option AuthResponse;
  error : option ErrorType
}.

(** What the receiver code calls but does not define: the JSON functions of
    the language, the protobufjs codecs of the two schemas, and the data of
    [cast-auth.js]. *)
Class Platform := {
  (** [JSON.parse(data)]; the argument is converted to a string first. *)
  JSON_parse : Data -> completion value;
  (** [JSON.stringify(v)] *)
  JSON_stringify : value -> string;
  (** [castMessageType.encode(castMessageType.create(m)).finish()] *)
  cast_encode : CastMessage -> bytes;
  (** [castMessageType.decode(buf)]; [None] when it throws. *)
  cast_decode : bytes -> option CastMessage;
  (** [deviceAuthType.decode(data)] *)
  auth_decode : Data -> completion DeviceAuthMessage;
  (** [deviceAuthType.encode(m).finish()] *)
  auth_encode : DeviceAuthMessage -> completion bytes;
  (** The signature table of [cast-auth.js], keyed by date. *)
  SIGNATURES : gmap string bytes;
  (** The key of the 48 hour bucket the current date falls into. *)
  current_date_key : string;
  (** The fixed device certificate and intermediate certificate. *)
  AUTH_CRT : bytes;
  ICA : bytes
}.

End Platform.

Import Platform.

(** ** cast-auth.js *)

Module CastAuth.

Section CastAuth.
Context `{Platform}.

(** The response sub-message for a signature blob. *)
Definition auth_response (sig : bytes) : DeviceAuthMessage :=
  {| challenge := None;
     response := Some {| signature := sig;
                         clientAuthCertificate := AUTH_CRT;
                         intermediateCertificate := [ICA] |};
     error := None |}.

(** Modelled from the spec: [cast-auth.js] is not among the sources, only
    its caller [_handleDeviceAuth] is. Following section 4.4 of the
    specification, [handleAuthChallenge] looks up the key of the current date
    in the signature table; when an entry is present it builds the response
    sub-message from that blob, the fixed device certificate and the fixed
    intermediate certificate, and returns its encoding; when none is present
    it returns [null] (here [None]), the value the caller tests for. *)
Definition handleAuthChallenge (challenge : DeviceAuthMessage)
  : completion (option bytes) :=
  match SIGNATURES !! current_date_key with
  | Some sig =>
      match auth_encode (auth_response sig) with
      | Normal buf => Normal (Some buf)
      | Throw e => Throw e
      end
  | None => Normal None
  end.

End CastAuth.

End CastAuth.

(** ** The session engine (cast-device.js) *)

Module CastDevice.

Definition COMPONENT : string := "CastDevice".
Definition DEFAULT_MEDIA_RECEIVER : string := "CC1AD845".
Definition CASTV2_NS_CONNECTION : string := "urn:x-cast:com.google.cast.tp.connection".
Definition CASTV2_NS_HEARTBEAT : string := "urn:x-cast:com.google.cast.tp.heartbeat".
Definition CASTV2_NS_RECEIVER : string := "urn:x-cast:com.google.cast.receiver".
Definition CASTV2_NS_MEDIA : string := "urn:x-cast:com.google.cast.media".
Definition CASTV2_NS_DEVICEAUTH : string := "urn:x-cast:com.google.cast.tp.deviceauth".

Inductive PlayerState := IDLE | BUFFERING | PLAYING | PAUSED.

Definition PlayerState_name (s : PlayerState) : string :=
  match s with
  | IDLE => "IDLE" | BUFFERING => "BUFFERING"
  | PLAYING => "PLAYING" | PAUSED => "PAUSED"
  end.

(** The [media] object of a media-status record. *)
Record Media := {
  contentId : value;
  contentType : value;
  streamType : value;
  metadata : value
}.

(** The object [_handleMediaLoad] stores in [_mediaStatus]. *)
Record MediaStatus := {
  mediaSessionId : Z;
  playerState : PlayerState;
  media : Media;
  currentTime : value;
  supportedMediaCommands : Z;
  volume : value
}.

(** An entry of [_sessions]. *)
Record Session := {
  connected : bool;
  senderId : option string
}.

(** The fields set once by the constructor. *)
Record Props := {
  speakerName : string;
  speakerIp : string;
  port : Z;
  deviceId : string;
  friendlyName : string;
  _transportId : string
}.

(** The mutable fields of a [CastDevice]. *)
Record CastDevice := {
  props : Props;
  _server : option CastProtocolServer;
  _mdnsService : bool;
  _sessions : gmap string Session;
  _mediaRequestId : Z;
  _sessionId : string;
  _appRunning : bool;
  _mediaStatus : option MediaStatus
}.

(** The payload of the ['load'] event. *)
Record LoadEvent := {
  load_speakerIp : string;
  load_contentId : value;
  load_contentType : value;
  load_streamType : value;
  load_metadata : value;
  load_autoplay : bool;
  load_currentTime : value
}.

(** The events a [CastDevice] emits, with their payloads. The listeners the
    bridge registers are [async] functions, so [emit] returns normally. *)
Inductive Event :=
| load (e : LoadEvent)
| play (speakerIp : string)
| pause (speakerIp : string)
| stop (speakerIp : string)
| seek (speakerIp : string) (currentTime : value)
| volume_event (speakerIp : string) (level muted : value).

(** A callback handed to [setTimeout] with its delay in milliseconds; the
    only one in the source is
    [() => this._sendMediaStatus(clientId, sourceId, 0, 'PLAYING')]. *)
Record Timer := {
  delay : Z;
  timer_clientId : string;
  timer_sourceId : string
}.

(** The receiver together with what surrounds it: the events delivered to
    its listeners, the logger calls, the pending timers, and the source of
    [uuidv4()]. *)
Record World := {
  device : CastDevice;
  emitted : list Event;
  console : list Log.Line;
  timers : list Timer;
  uuid_source : nat -> string;
  uuid_used : nat
}.

Definition with_device (f : CastDevice -> CastDevice) (w : World) : World :=
  {| device := f (device w); emitted := emitted w; console := console w;
     timers := timers w; uuid_source := uuid_source w; uuid_used := uuid_used w |}.

Definition set_server (srv : option CastProtocolServer) (d : CastDevice) : CastDevice :=
  {| props := props d; _server := srv; _mdnsService := _mdnsService d;
     _sessions := _sessions d; _mediaRequestId := _mediaRequestId d;
     _sessionId := _sessionId d; _appRunning := _appRunning d;
     _mediaStatus := _mediaStatus d |}.

Definition set_mdnsService (b : bool) (d : CastDevice) : CastDevice :=
  {| props := props d; _server := _server d; _mdnsService := b;
     _sessions := _sessions d; _mediaRequestId := _mediaRequestId d;
     _sessionId := _sessionId d; _appRunning := _appRunning d;
     _mediaStatus := _mediaStatus d |}.

Definition set_sessions (m : gmap string Session) (d : CastDevice) : CastDevice :=
  {| props := props d; _server := _server d; _mdnsService := _mdnsService d;
     _sessions := m; _mediaRequestId := _mediaRequestId d;
     _sessionId := _sessionId d; _appRunning := _appRunning d;
     _mediaStatus := _mediaStatus d |}.

Definition set_mediaRequestId (n : Z) (d : CastDevice) : CastDevice :=
  {| props := props d; _server := _server d; _mdnsService := _mdnsService d;
     _sessions := _sessions d; _mediaRequestId := n;
     _sessionId := _sessionId d; _appRunning := _appRunning d;
     _mediaStatus := _mediaStatus d |}.

Definition set_sessionId (s : string) (d : CastDevice) : CastDevice :=
  {| props := props d; _server := _server d; _mdnsService := _mdnsService d;
     _sessions := _sessions d; _mediaRequestId := _mediaRequestId d;
     _sessionId := s; _appRunning := _appRunning d;
     _mediaStatus := _mediaStatus d |}.

Definition set_appRunning (b : bool) (d : CastDevice) : CastDevice :=
  {| props := props d; _server := _server d; _mdnsService := _mdnsService d;
     _sessions := _sessions d; _mediaRequestId := _mediaRequestId d;
     _sessionId := _sessionId d; _appRunning := b;
     _mediaStatus := _mediaStatus d |}.

Definition set_mediaStatus (ms : option MediaStatus) (d : CastDevice) : CastDevice :=
  {| props := props d; _server := _server d; _mdnsService := _mdnsService d;
     _sessions := _sessions d; _mediaRequestId := _mediaRequestId d;
     _sessionId := _sessionId d; _appRunning := _appRunning d;
     _mediaStatus := ms |}.

(** [this._mediaStatus.playerState = playerState] *)
Definition set_playerState (s : PlayerState) (ms : MediaStatus) : MediaStatus :=
  {| mediaSessionId := mediaSessionId ms; playerState := s; media := media ms;
     currentTime := currentTime ms;
     supportedMediaCommands := supportedMediaCommands ms; volume := volume ms |}.

(** A logger call of this component. *)
Definition log (lvl : Log.Level) (text : string) : M World unit :=
  modify (fun w =>
    {| device := device w; emitted := emitted w;
       console := console w ++ [{| Log.level := lvl; Log.component := COMPONENT;
                                   Log.text := text |}];
       timers := timers w; uuid_source := uuid_source w; uuid_used := uuid_used w |}).

(** [this.emit(name, payload)] *)
Definition emit (ev : Event) : M World unit :=
  modify (fun w =>
    {| device := device w; emitted := emitted w ++ [ev]; console := console w;
       timers := timers w; uuid_source := uuid_source w; uuid_used := uuid_used w |}).

(** [setTimeout(callback, delay)] *)
Definition setTimeout (t : Timer) : M World unit :=
  modify (fun w =>
    {| device := device w; emitted := emitted w; console := console w;
       timers := timers w ++ [t]; uuid_source := uuid_source w;
       uuid_used := uuid_used w |}).

(** [uuidv4()] *)
Definition uuidv4 : M World string :=
  fun w =>
    (Normal (uuid_source w (uuid_used w)),
     {| device := device w; emitted := emitted w; console := console w;
        timers := timers w; uuid_source := uuid_source w;
        uuid_used := S (uuid_used w) |}).

Section Handlers.
Context `{Platform}.

(** [this._server.send(...)]: a TypeError when [_server] is [null],
    otherwise the outcome of the protocol server's [send]. *)
Definition server_send (clientId sourceId destinationId namespace : string)
    (data : Data) : M World unit :=
  do srv <- gets (fun w => _server (device w));
  match srv with
  | None => throw (TypeError "Cannot read properties of null (reading 'send')")
  | Some srv =>
      match send cast_encode clientId sourceId destinationId namespace data srv with
      | Written srv' => modify (with_device (set_server (Some srv')))
      | UnknownClient =>
          modify (fun w =>
            {| device := device w; emitted := emitted w;
               console := console w
                 ++ [{| Log.level := Log.warning; Log.component := "CastProtocol";
                        Log.text := "Cannot send to unknown client: " +:+ clientId |}];
               timers := timers w; uuid_source := uuid_source w;
               uuid_used := uuid_used w |})
      | SendThrew e => throw e
      end
  end.

(** [_onConnect(clientId)] *)
Definition _onConnect (clientId : string) : M World unit :=
  log Log.debug ("Client connected: " +:+ clientId) >>
  modify (with_device (fun d =>
    set_sessions (<[clientId := {| connected := true; senderId := None |}]> (_sessions d)) d)).

(** [_onDisconnect(clientId)] *)
Definition _onDisconnect (clientId : string) : M World unit :=
  log Log.debug ("Client disconnected: " +:+ clientId) >>
  modify (with_device (fun d => set_sessions (delete clientId (_sessions d)) d)).

(** [_handleConnection(clientId, sourceId, data)] *)
Definition _handleConnection (clientId sourceId : string) (data : Data)
  : M World unit :=
  try_catch
    (do payload <- lift (JSON_parse data);
     do type <- lift (get payload "type");
     lift (interpolate type) >>
     log Log.debug ("Connection from " +:+ sourceId) >>
     if is_string type "CONNECT" then
       do session <- gets (fun w => _sessions (device w) !! clientId);
       match session with
       | Some session =>
           modify (with_device (fun d =>
             set_sessions
               (<[clientId := {| connected := connected session;
                                 senderId := Some sourceId |}]> (_sessions d)) d))
       | None => ret tt
       end
     else ret tt)
    (fun err =>
       log Log.warning ("Failed to parse connection message: " +:+ message_of err)).

(** [_handleHeartbeat(clientId, sourceId, data)] *)
Definition _handleHeartbeat (clientId sourceId : string) (data : Data)
  : M World unit :=
  try_catch
    (do payload <- lift (JSON_parse data);
     do type <- lift (get payload "type");
     if is_string type "PING" then
       server_send clientId "receiver-0" sourceId CASTV2_NS_HEARTBEAT
         (DString (JSON_stringify (JObj [("type", JStr "PONG")])))
     else ret tt)
    (fun err =>
       log Log.warning ("Failed to parse heartbeat message: " +:+ message_of err)).

(** [deviceAuthType.create({ error: { errorType: 0 } })] *)
Definition authError : DeviceAuthMessage :=
  {| challenge := None; response := None; error := Some INTERNAL_ERROR |}.

(** [log.warn(...)]: [logger.js] exports no [warn], the call throws. *)
Definition log_warn (text : string) : M World unit :=
  throw Log.warn_is_not_a_function.

(** Encode the error sub-message and send it: the three statements that
    appear both in the [else] branch and in the [catch] block. *)
Definition send_auth_error (clientId sourceId : string) : M World unit :=
  do encoded <- lift (auth_encode authError);
  server_send clientId "receiver-0" sourceId CASTV2_NS_DEVICEAUTH (DBuffer encoded).

(** [_handleDeviceAuth(clientId, sourceId, data)] *)
Definition _handleDeviceAuth (clientId sourceId : string) (data : Data)
  : M World unit :=
  log Log.info ("Device auth challenge received from " +:+ sourceId) >>
  try_catch
    (do challenge <- lift (auth_decode data);
     log Log.debug "AuthChallenge received" >>
     do authResponseBuffer <- lift (CastAuth.handleAuthChallenge challenge);
     match authResponseBuffer with
     | Some authResponseBuffer =>
         server_send clientId "receiver-0" sourceId CASTV2_NS_DEVICEAUTH
           (DBuffer authResponseBuffer) >>
         log Log.info "Auth response sent (Shanocast bypass)"
     | None =>
         log_warn "No valid signature, sending auth error" >>
         send_auth_error clientId sourceId
     end)
    (fun err =>
       log Log.error ("Auth handler failed: " +:+ message_of err) >>
       try_catch
         (send_auth_error clientId sourceId)
         (fun fallbackErr =>
            log Log.error ("Failed to send auth error: " +:+ message_of fallbackErr))).

(** The object [_sendReceiverStatus] serialises. *)
Definition receiver_status (d : CastDevice) (requestId : value) : value :=
  JObj [
    ("type", JStr "RECEIVER_STATUS");
    ("requestId", or_else requestId (JInt 0));
    ("status", JObj [
       ("volume", JObj [
          ("level", JInt 1);
          ("muted", JBool false);
          ("controlType", JStr "attenuation");
          ("stepInterval", JNum (QArith_base.Qmake 1 20))]);
       ("applications",
        if _appRunning d then
          JArr [JObj [
            ("appId", JStr DEFAULT_MEDIA_RECEIVER);
            ("displayName", JStr "Default Media Receiver");
            ("isIdleScreen", JBool false);
            ("launchedFromCloud", JBool false);
            ("namespaces", JArr [JObj [("name", JStr CASTV2_NS_MEDIA)]]);
            ("sessionId", JStr (_sessionId d));
            ("statusText", JStr "Ready To Cast");
            ("transportId", JStr (_transportId (props d)))]]
        else JArr []);
       ("isActiveInput", JBool true);
       ("isStandBy", JBool false)])].

(** [_sendReceiverStatus(clientId, sourceId, requestId)] *)
Definition _sendReceiverStatus (clientId sourceId : string) (requestId : value)
  : M World unit :=
  do d <- gets device;
  server_send clientId "receiver-0" sourceId CASTV2_NS_RECEIVER
    (DString (JSON_stringify (receiver_status d requestId))).

(** [_handleLaunch(clientId, sourceId, payload)] *)
Definition _handleLaunch (clientId sourceId : string) (payload : value)
  : M World unit :=
  do appId <- lift (get payload "appId");
  lift (interpolate appId) >>
  log Log.info ("Launch requested from " +:+ sourceId) >>
  modify (with_device (set_appRunning true)) >>
  do fresh <- uuidv4;
  modify (with_device (set_sessionId fresh)) >>
  modify (with_device (set_mediaStatus None)) >>
  do requestId <- lift (get payload "requestId");
  _sendReceiverStatus clientId sourceId requestId.

(** [_handleStop(clientId, sourceId, payload)] *)
Definition _handleStop (clientId sourceId : string) (payload : value)
  : M World unit :=
  log Log.info ("Stop requested from " +:+ sourceId) >>
  modify (with_device (set_appRunning false)) >>
  modify (with_device (set_mediaStatus None)) >>
  do ip <- gets (fun w => speakerIp (props (device w)));
  emit (stop ip) >>
  do requestId <- lift (get payload "requestId");
  _sendReceiverStatus clientId sourceId requestId.

(** [if (payload.volume) { ...; this.emit('volume', {...}) }], shared by
    the receiver and the media [SET_VOLUME] cases. *)
Definition emit_volume (payload : value) : M World unit :=
  do vol <- lift (get payload "volume");
  if truthy vol then
    do level <- lift (get vol "level");
    do muted <- lift (get vol "muted");
    do ip <- gets (fun w => speakerIp (props (device w)));
    emit (volume_event ip level muted)
  else ret tt.

(** [_handleSetVolume(clientId, sourceId, payload)] *)
Definition _handleSetVolume (clientId sourceId : string) (payload : value)
  : M World unit :=
  do vol <- lift (get payload "volume");
  (if truthy vol then log Log.debug "Volume set" else ret tt) >>
  emit_volume payload >>
  do requestId <- lift (get payload "requestId");
  _sendReceiverStatus clientId sourceId requestId.

(** [_handleReceiver(clientId, sourceId, data)] *)
Definition _handleReceiver (clientId sourceId : string) (data : Data)
  : M World unit :=
  try_catch
    (do payload <- lift (JSON_parse data);
     do type <- lift (get payload "type");
     lift (interpolate type) >>
     log Log.debug ("Receiver message from " +:+ sourceId) >>
     if is_string type "GET_STATUS" then
       do requestId <- lift (get payload "requestId");
       _sendReceiverStatus clientId sourceId requestId
     else if is_string type "LAUNCH" then _handleLaunch clientId sourceId payload
     else if is_string type "STOP" then _handleStop clientId sourceId payload
     else if is_string type "SET_VOLUME" then _handleSetVolume clientId sourceId payload
     else log Log.debug "Unhandled receiver message")
    (fun err =>
       log Log.warning ("Failed to parse receiver message: " +:+ message_of err)).

(** A media-status record as the object it is when serialised. *)
Definition media_status_value (ms : MediaStatus) : value :=
  JObj [
    ("mediaSessionId", JInt (mediaSessionId ms));
    ("playerState", JStr (PlayerState_name (playerState ms)));
    ("media", JObj [
       ("contentId", contentId (media ms));
       ("contentType", contentType (media ms));
       ("streamType", streamType (media ms));
       ("metadata", metadata (media ms))]);
    ("currentTime", currentTime ms);
    ("supportedMediaCommands", JInt (supportedMediaCommands ms));
    ("volume", volume ms)].

(** The [MEDIA_STATUS] object [_sendMediaStatus] serialises. *)
Definition media_status_message (requestId : value) (ms : option MediaStatus)
  : value :=
  JObj [
    ("type", JStr "MEDIA_STATUS");
    ("requestId", or_else requestId (JInt 0));
    ("status", JArr match ms with
                    | Some ms => [media_status_value ms]
                    | None => []
                    end)].

(** [_sendMediaStatus(clientId, sourceId, requestId, playerState)]; an
    omitted [playerState] is [None]. *)
Definition _sendMediaStatus (clientId sourceId : string) (requestId : value)
    (playerState : option PlayerState) : M World unit :=
  do current <- gets (fun w => _mediaStatus (device w));
  (match current, playerState with
   | Some ms, Some playerState =>
       modify (with_device (set_mediaStatus (Some (set_playerState playerState ms))))
   | _, _ => ret tt
   end) >>
  do status <- gets (fun w => _mediaStatus (device w));
  do transportId <- gets (fun w => _transportId (props (device w)));
  server_send clientId transportId sourceId CASTV2_NS_MEDIA
    (DString (JSON_stringify (media_status_message requestId status))).

(** The delay of the status push that follows a [LOAD], in milliseconds. *)
Definition LOAD_PUSH_DELAY : Z := 500.

(** [_handleMediaLoad(clientId, sourceId, payload)] *)
Definition _handleMediaLoad (clientId sourceId : string) (payload : value)
  : M World unit :=
  do media <- lift (get payload "media");
  if negb (truthy media) then log Log.warning "LOAD missing media.contentId"
  else
    do contentId <- lift (get media "contentId");
    if negb (truthy contentId) then log Log.warning "LOAD missing media.contentId"
    else
      do contentType <- lift (get media "contentType");
      lift (interpolate contentId) >>
      lift (interpolate (or_else contentType (JStr "unknown"))) >>
      log Log.info "Loading" >>
      modify (with_device (fun d =>
        set_mediaRequestId (js_increment (_mediaRequestId d)) d)) >>
      do mediaSessionId <- gets (fun w => _mediaRequestId (device w));
      do streamType <- lift (get media "streamType");
      do metadata <- lift (get media "metadata");
      do currentTime <- lift (get payload "currentTime");
      modify (with_device (set_mediaStatus (Some
        {| mediaSessionId := mediaSessionId;
           playerState := BUFFERING;
           media := {| contentId := contentId;
                       contentType := or_else contentType (JStr "");
                       streamType := or_else streamType (JStr "BUFFERED");
                       metadata := or_else metadata (JObj []) |};
           currentTime := or_else currentTime (JInt 0);
           supportedMediaCommands := 274447;
           volume := JObj [("level", JInt 1); ("muted", JBool false)] |}))) >>
      do ip <- gets (fun w => speakerIp (props (device w)));
      do autoplay <- lift (get payload "autoplay");
      emit (load {| load_speakerIp := ip;
                    load_contentId := contentId;
                    load_contentType := or_else contentType (JStr "");
                    load_streamType := or_else streamType (JStr "BUFFERED");
                    load_metadata := or_else metadata (JObj []);
                    load_autoplay := is_not_false autoplay;
                    load_currentTime := or_else currentTime (JInt 0) |}) >>
      do requestId <- lift (get payload "requestId");
      _sendMediaStatus clientId sourceId requestId (Some BUFFERING) >>
      setTimeout {| delay := LOAD_PUSH_DELAY; timer_clientId := clientId;
                    timer_sourceId := sourceId |}.

(** [_handleMedia(clientId, sourceId, destinationId, data)] *)
Definition _handleMedia (clientId sourceId destinationId : string) (data : Data)
  : M World unit :=
  try_catch
    (do payload <- lift (JSON_parse data);
     do type <- lift (get payload "type");
     lift (interpolate type) >>
     log Log.debug ("Media message from " +:+ sourceId) >>
     do ip <- gets (fun w => speakerIp (props (device w)));
     if is_string type "LOAD" then _handleMediaLoad clientId sourceId payload
     else if is_string type "PLAY" then
       emit (play ip) >>
       do requestId <- lift (get payload "requestId");
       _sendMediaStatus clientId sourceId requestId (Some PLAYING)
     else if is_string type "PAUSE" then
       emit (pause ip) >>
       do requestId <- lift (get payload "requestId");
       _sendMediaStatus clientId sourceId requestId (Some PAUSED)
     else if is_string type "STOP" then
       emit (stop ip) >>
       do requestId <- lift (get payload "requestId");
       _sendMediaStatus clientId sourceId requestId (Some IDLE)
     else if is_string type "SEEK" then
       do currentTime <- lift (get payload "currentTime");
       emit (seek ip currentTime) >>
       do requestId <- lift (get payload "requestId");
       _sendMediaStatus clientId sourceId requestId (Some PLAYING)
     else if is_string type "GET_STATUS" then
       do requestId <- lift (get payload "requestId");
       do ms <- gets (fun w => _mediaStatus (device w));
       _sendMediaStatus clientId sourceId requestId
         (Some match ms with Some ms => playerState ms | None => IDLE end)
     else if is_string type "SET_VOLUME" then
       emit_volume payload >>
       do requestId <- lift (get payload "requestId");
       _sendMediaStatus clientId sourceId requestId None
     else log Log.debug "Unhandled media message")
    (fun err =>
       log Log.warning ("Failed to parse media message: " +:+ message_of err)).

(** [_onMessage(msg)]: dispatch on the namespace. *)
Definition _onMessage (msg : MessageEvent) : M World unit :=
  let ns := namespace msg in
  if String.eqb ns CASTV2_NS_CONNECTION then
    _handleConnection (clientId msg) (msg_sourceId msg) (data msg)
  else if String.eqb ns CASTV2_NS_HEARTBEAT then
    _handleHeartbeat (clientId msg) (msg_sourceId msg) (data msg)
  else if String.eqb ns CASTV2_NS_DEVICEAUTH then
    _handleDeviceAuth (clientId msg) (msg_sourceId msg) (data msg)
  else if String.eqb ns CASTV2_NS_RECEIVER then
    _handleReceiver (clientId msg) (msg_sourceId msg) (data msg)
  else if String.eqb ns CASTV2_NS_MEDIA then
    _handleMedia (clientId msg) (msg_sourceId msg) (msg_destinationId msg) (data msg)
  else log Log.debug ("Unknown namespace: " +:+ ns).

(** [stop()] of the device: the mDNS service is stopped, the protocol
    server closed, and both fields are set to [null]. Pending timers are
    left as they are: the source keeps no handle on them. *)
Definition stop_device : M World unit :=
  do mdns <- gets (fun w => _mdnsService (device w));
  (if mdns then modify (with_device (set_mdnsService false)) else ret tt) >>
  do srv <- gets (fun w => _server (device w));
  (match srv with
   | Some srv =>
       modify (with_device (set_server (Some (close srv)))) >>
       modify (with_device (set_server None))
   | None => ret tt
   end) >>
  log Log.info "Virtual Cast device stopped".

(** The callback of a timer, run when the timer fires. A completion
    [Throw e] is an exception leaving the callback: nothing catches it
    there. *)
Definition run_timer (t : Timer) : M World unit :=
  _sendMediaStatus (timer_clientId t) (timer_sourceId t) (JInt 0) (Some PLAYING).

(** The [i]-th pending timer fires: it leaves the pending list and its
    callback runs. *)
Definition fire_timer (i : nat) : M World unit :=
  do pending <- gets timers;
  match pending !! i with
  | None => ret tt
  | Some t =>
      modify (fun w =>
        {| device := device w; emitted := emitted w; console := console w;
           timers := take i (timers w) ++ drop (S i) (timers w);
           uuid_source := uuid_source w; uuid_used := uuid_used w |}) >>
      run_timer t
  end.

(** What reaches a started receiver from outside, one event-loop turn
    each. *)
Inductive Input :=
| Connect                          (* a TLS connection is accepted *)
| Disconnect (clientId : string)   (* the socket of a client closes *)
| Message (msg : MessageEvent)     (* a reader hands over a decoded message *)
| TimerFires (i : nat)             (* the [i]-th pending timer fires *)
| Stop.                            (* the bridge calls [stop()] *)

(** One turn. A message is handled inside the [try] of the reader's loop,
    which logs whatever the callback throws; a timer callback and [stop()]
    run with nothing around them. After [stop()] the receiver no longer
    refers to the protocol server, but the ['close'] handler of a socket
    that [close()] destroyed still emits ['disconnect'] to the receiver's
    listener: the session is deleted then as well. *)
Definition step (i : Input) : M World unit :=
  match i with
  | Connect =>
      do srv <- gets (fun w => _server (device w));
      match srv with
      | Some srv =>
          let '(clientId, srv') := _onConnection srv in
          modify (with_device (set_server (Some srv'))) >>
          _onConnect clientId
      | None => ret tt
      end
  | Disconnect clientId =>
      do srv <- gets (fun w => _server (device w));
      match srv with
      | Some srv =>
          modify (with_device (set_server (Some (on_socket_close clientId srv)))) >>
          _onDisconnect clientId
      | None => _onDisconnect clientId
      end
  | Message msg =>
      try_catch (_onMessage msg)
        (fun err =>
           modify (fun w =>
             {| device := device w; emitted := emitted w;
                console := console w
                  ++ [{| Log.level := Log.warning; Log.component := "CastProtocol";
                         Log.text := "Failed to decode message: " +:+ message_of err |}];
                timers := timers w; uuid_source := uuid_source w;
                uuid_used := uuid_used w |}))
  | TimerFires i => fire_timer i
  | Stop => stop_device
  end.

(** A sequence of turns; an exception that nothing catches ends the
    process, so the turns after it do not run. *)
Fixpoint process (inputs : list Input) : M World unit :=
  match inputs with
  | [] => ret tt
  | i :: rest => step i >> process rest
  end.

(** The guard of [_handleMediaLoad], [!media || !media.contentId], negated:
    the payload carries a usable [media.contentId]. *)
Definition load_guard (payload : value) : bool :=
  match get payload "media" with
  | Normal media =>
      truthy media &&
      match get media "contentId" with
      | Normal contentId => truthy contentId
      | Throw _ => false
      end
  | Throw _ => false
  end.

(** The [LOAD] goes through: the payload passes the guard, and the log
    line that follows can be built from [media.contentId] and
    [media.contentType || 'unknown']. *)
Definition load_accepted (payload : value) : bool :=
  load_guard payload &&
  match get payload "media" with
  | Normal media =>
      match get media "contentId", get media "contentType" with
      | Normal contentId, Normal contentType =>
          printable contentId && printable (or_else contentType (JStr "unknown"))
      | _, _ => false
      end
  | Throw _ => false
  end.

End Handlers.

(** The frames written so far on the socket of a client. *)
Definition written_to (clientId : string) (w : World) : list bytes :=
  match _server (device w) with
  | Some srv =>
      match _clients srv !! clientId with
      | Some client => written (socket client)
      | None => []
      end
  | None => []
  end.

(** The record [_handleMediaLoad] stores for a payload with the properties
    [fields] whose [media] has the properties [mfields], and the payload of
    the event it emits. *)
Definition loaded_status (id : Z) (fields mfields : list (string * value))
  : MediaStatus :=
  {| mediaSessionId := id;
     playerState := BUFFERING;
     media := {| contentId := lookup_prop "contentId" mfields;
                 contentType := or_else (lookup_prop "contentType" mfields) (JStr "");
                 streamType := or_else (lookup_prop "streamType" mfields) (JStr "BUFFERED");
                 metadata := or_else (lookup_prop "metadata" mfields) (JObj []) |};
     currentTime := or_else (lookup_prop "currentTime" fields) (JInt 0);
     supportedMediaCommands := 274447;
     volume := JObj [("level", JInt 1); ("muted", JBool false)] |}.

Definition load_event (ip : string) (fields mfields : list (string * value))
  : LoadEvent :=
  {| load_speakerIp := ip;
     load_contentId := lookup_prop "contentId" mfields;
     load_contentType := or_else (lookup_prop "contentType" mfields) (JStr "");
     load_streamType := or_else (lookup_prop "streamType" mfields) (JStr "BUFFERED");
     load_metadata := or_else (lookup_prop "metadata" mfields) (JObj []);
     load_autoplay := is_not_false (lookup_prop "autoplay" fields);
     load_currentTime := or_else (lookup_prop "currentTime" fields) (JInt 0) |}.

(** The media status after [_sendMediaStatus] ran with a player state (or
    without one): a record that is there takes the state passed, and none is
    created. *)
Definition status_after (playerState : option PlayerState)
    (current : option MediaStatus) : option MediaStatus :=
  match current, playerState with
  | Some ms, Some playerState => Some (set_playerState playerState ms)
  | _, _ => current
  end.

(** The four cases of the switch in [_handleMedia] that emit an event and
    report a player state: the event and the state, by message type. *)
Definition command_effect (ip : string) (fields : list (string * value))
    (type : string) : option (Event * PlayerState) :=
  if String.eqb type "PLAY" then Some (play ip, PLAYING)
  else if String.eqb type "PAUSE" then Some (pause ip, PAUSED)
  else if String.eqb type "STOP" then Some (stop ip, IDLE)
  else if String.eqb type "SEEK"
       then Some (seek ip (lookup_prop "currentTime" fields), PLAYING)
  else None.

(** The frame of a [MEDIA_STATUS] message to a sender. *)
Definition media_status_frame `{Platform} (transportId sourceId : string)
    (requestId : value) (status : option MediaStatus) : option bytes :=
  frame cast_encode
    (envelope transportId sourceId CASTV2_NS_MEDIA
       (DString (JSON_stringify (media_status_message requestId status)))).

(** The world after a frame was written on the socket of a client. *)
Definition after_write (clientId : string) (buf : bytes) (d : CastDevice)
  : CastDevice :=
  match _server d with
  | Some srv =>
      match _clients srv !! clientId with
      | Some client =>
          set_server
            (Some (with_clients (<[clientId := socket_write buf client]> (_clients srv)) srv)) d
      | None => d
      end
  | None => d
  end.

(** Two properties of a receiver that relate its fields. The media-status
    record, when there is one, carries the media session id handed out
    last; and while the protocol server is attached, the clients that have
    a session are the clients the server has registered. *)
Definition id_is_counter (d : CastDevice) : Prop :=
  forall ms, _mediaStatus d = Some ms -> mediaSessionId ms = _mediaRequestId d.

Definition sessions_match_clients (d : CastDevice) : Prop :=
  forall srv, _server d = Some srv -> dom (_sessions d) = dom (_clients srv).

Definition consistent (d : CastDevice) : Prop :=
  id_is_counter d /\ sessions_match_clients d.

(** The second world is consistent if the first one is. *)
Definition stays_consistent (w w' : World) : Prop :=
  consistent (device w) -> consistent (device w').

(** A relation between receivers, as a relation between worlds. *)
Definition on_device (Rd : CastDevice -> CastDevice -> Prop) (w w' : World)
  : Prop :=
  Rd (device w) (device w').

(** [new CastDevice(options)]; [_sessionId] is the first value of
    [uuidv4()]. *)
Definition new_CastDevice (p : Props) (sessionId : string) : CastDevice :=
  {| props := p; _server := None; _mdnsService := false; _sessions := ∅;
     _mediaRequestId := 0; _sessionId := sessionId; _appRunning := false;
     _mediaStatus := None |}.

(** The receiver after [start()]: the protocol server is listening and the
    service is advertised. *)
Definition started (d : CastDevice) : CastDevice :=
  set_mdnsService true (set_server (Some listening_server) d).

End CastDevice.

(** ** The identity store (device-registry.js) *)

Module DeviceRegistry.

Definition COMPONENT : string := "DeviceRegistry".

Record Certificate := {
  key : string;
  cert : string
}.

(** A value of the registry object; speaker keys are the speakers' IP
    addresses. *)
Record Entry := {
  deviceId : string;
  certificate : Certificate;
  createdAt : string;
  lastSeen : string
}.

(** What [getOrCreateDevice] returns; [certificate] is the stored
    certificate object itself, not a copy. *)
Record Identity := {
  identity_deviceId : string;
  identity_certificate : Certificate
}.

(** The registry file: missing, unreadable as a registry, or holding one. *)
Inductive File :=
| Missing
| Corrupt
| Stored (registry : gmap string Entry).

Record DeviceRegistry := {
  _registry : gmap string Entry;
  file : File;
  (** whether [fs.writeFileSync] succeeds *)
  writable : bool;
  console : list Log.Line
}.

(** What one call draws from outside the program: [uuidv4()], the result of
    [selfsigned.generate] ([private] and [cert]), and the successive values
    of [new Date().toISOString()]. *)
Record Entropy := {
  uuid : string;
  pems_private : string;
  pems_cert : string;
  now : nat -> string
}.

(** [s.replace(/-/g, '')] *)
Fixpoint remove_dashes (s : string) : string :=
  match s with
  | EmptyString => EmptyString
  | String c rest =>
      if Ascii.eqb c "-"%char then remove_dashes rest
      else String c (remove_dashes rest)
  end.

Definition log (lvl : Log.Level) (text : string) (r : DeviceRegistry)
  : DeviceRegistry :=
  {| _registry := _registry r; file := file r; writable := writable r;
     console := console r ++ [{| Log.level := lvl; Log.component := COMPONENT;
                                 Log.text := text |}] |}.

Definition set_registry (m : gmap string Entry) (r : DeviceRegistry)
  : DeviceRegistry :=
  {| _registry := m; file := file r; writable := writable r;
     console := console r |}.

(** [_load()] *)
Definition _load (f : File) : gmap string Entry :=
  match f with
  | Stored registry => registry
  | Missing | Corrupt => ∅
  end.

(** [new DeviceRegistry()] *)
Definition new_DeviceRegistry (f : File) (writable : bool) : DeviceRegistry :=
  {| _registry := _load f; file := f; writable := writable;
     console := match f with
                | Stored _ => [{| Log.level := Log.info; Log.component := COMPONENT;
                                  Log.text := "Loaded device(s) from registry" |}]
                | Corrupt => [{| Log.level := Log.warning; Log.component := COMPONENT;
                                 Log.text := "Failed to load device registry" |}]
                | Missing => []
                end |}.

(** [_save()] *)
Definition _save (r : DeviceRegistry) : DeviceRegistry :=
  if writable r then
    log Log.debug "Saved device(s) to registry"
      {| _registry := _registry r; file := Stored (_registry r);
         writable := writable r; console := console r |}
  else log Log.error "Failed to save device registry" r.

(** [getOrCreateDevice(speakerIp, friendlyName)] *)
Definition getOrCreateDevice (speakerIp friendlyName : string) (e : Entropy)
    (r : DeviceRegistry) : option Identity * DeviceRegistry :=
  let r' :=
    match _registry r !! speakerIp with
    | None =>
        let r1 := log Log.info ("Creating new device identity for " +:+ speakerIp) r in
        let deviceId := remove_dashes (uuid e) in
        _save (set_registry
                 (<[speakerIp := {| deviceId := deviceId;
                                    certificate := {| key := pems_private e;
                                                      cert := pems_cert e |};
                                    createdAt := now e 0;
                                    lastSeen := now e 1 |}]> (_registry r1)) r1)
    | Some entry =>
        _save (set_registry
                 (<[speakerIp := {| deviceId := deviceId entry;
                                    certificate := certificate entry;
                                    createdAt := createdAt entry;
                                    lastSeen := now e 0 |}]> (_registry r)) r)
    end in
  (match _registry r' !! speakerIp with
   | Some entry => Some {| identity_deviceId := deviceId entry;
                           identity_certificate := certificate entry |}
   | None => None
   end, r').

(** [removeDevice(speakerIp)] *)
Definition removeDevice (speakerIp : string) (r : DeviceRegistry)
  : DeviceRegistry :=
  match _registry r !! speakerIp with
  | Some _ =>
      log Log.info ("Removed device identity for " +:+ speakerIp)
        (_save (set_registry (delete speakerIp (_registry r)) r))
  | None => r
  end.

(** [getAllDevices()]: the keys of the registry, as a set (the order of
    [Object.keys] is not modelled). *)
Definition getAllDevices (r : DeviceRegistry) : gset string :=
  dom (_registry r).

(** [clear()] *)
Definition clear (r : DeviceRegistry) : DeviceRegistry :=
  log Log.warning "Device registry cleared" (_save (set_registry ∅ r)).

(** The identity of an entry made from what one call draws: the device id
    is the UUID without its dashes, the certificate the generated pair. *)
Definition created (e : Entropy) : Identity :=
  {| identity_deviceId := remove_dashes (uuid e);
     identity_certificate := {| key := pems_private e; cert := pems_cert e |} |}.

End DeviceRegistry.

(** ** XML escaping of the bridge (bridge.js) *)

Module Bridge.

(** The double quote character. *)
Definition quot : ascii := ascii_of_nat 34.

(** [s.replace(/c/g, by)] for a pattern of one character [c]: every
    occurrence is replaced, the replacement text is not searched again. *)
Fixpoint replace_all (c : ascii) (by_ : string) (s : string) : string :=
  match s with
  | EmptyString => EmptyString
  | String x rest =>
      if Ascii.eqb x c then by_ +:+ replace_all c by_ rest
      else String x (replace_all c by_ rest)
  end.

(** [_escapeXml(str)] on a string, for which [String(str)] is [str]: the
    five replacements, the ampersand first. *)
Definition _escapeXml (str : string) : string :=
  replace_all "'" "&apos;"
    (replace_all quot "&quot;"
       (replace_all ">" "&gt;"
          (replace_all "<" "&lt;"
             (replace_all "&" "&amp;" str)))).

(** The characters that delimit tags and attribute values. *)
Definition markup : list ascii := ["<"; ">"; quot; "'"]%char.

End Bridge.

(** ** Grouping the signature bytes (parse-signatures.js, extract-signatures.js) *)

Module Signatures.

Definition SIGNATURE_SIZE : nat := 256.

(** [array.slice(i, j)] for [0 <= i <= j]: the elements from index [i] up
    to, not including, index [j], as far as the array goes. *)
Definition slice {A} (i j : nat) (l : list A) : list A :=
  take (j - i) (drop i l).

(** The loop of parse-signatures.js,
    [for (let i = 0; i < allBytes.length; i += SIGNATURE_SIZE)], from index
    [i] on: a chunk of full size is pushed, a shorter one is skipped with a
    warning. [fuel] bounds the number of iterations. *)
Fixpoint group_from (fuel i : nat) (allBytes : list Byte.byte)
  : list (list Byte.byte) :=
  match fuel with
  | O => []
  | S fuel' =>
      if (i <? length allBytes)%nat then
        let chunk := slice i (i + SIGNATURE_SIZE) allBytes in
        if (length chunk =? SIGNATURE_SIZE)%nat
        then chunk :: group_from fuel' (i + SIGNATURE_SIZE) allBytes
        else group_from fuel' (i + SIGNATURE_SIZE) allBytes
      else []
  end.

(** The [signatures] array of parse-signatures.js; the index advances by
    256 each time, so there are no more iterations than bytes. *)
Definition parse_signatures (allBytes : list Byte.byte) : list (list Byte.byte) :=
  group_from (length allBytes) 0 allBytes.

(** The values of the [signatures] object of [extractSignatures], in the
    order of their index [i]. Both scripts give the entry of index [i] the
    same key, the date 48 hours times [i] after the start date, so the keys
    are left out. *)
Definition extractSignatures (allBytes : list Byte.byte) : list (list Byte.byte) :=
  let numSignatures := (length allBytes / SIGNATURE_SIZE)%nat in
  map (fun i =>
         let offset := (i * SIGNATURE_SIZE)%nat in
         slice offset (offset + SIGNATURE_SIZE) allBytes)
      (seq 0 numSignatures).

End Signatures.

(** ** A test double of the platform

    Concrete stand-ins for the library functions, on which the handlers can
    be evaluated: a renderer of values as JSON text and its inverse on a
    corpus of payloads, a simple envelope codec, and an encoder of the
    authentication sub-message that can be made to fail. *)

Module TestBench.

Import CastDevice.

Definition dquote : string := String (ascii_of_nat 34) EmptyString.

Definition quoted (s : string) : string := dquote +:+ s +:+ dquote.

Definition render_number (q : QArith_base.Q) : string :=
  if Pos.eqb (QArith_base.Qden q) 1 then pretty (QArith_base.Qnum q)
  else pretty (QArith_base.Qnum q) +:+ "/" +:+ pretty (QArith_base.Qden q).

(** JSON text of a value (strings are not escaped, a fraction is written as
    a quotient). *)
Fixpoint render (v : value) : string :=
  let fix items (l : list value) : list string :=
    match l with
    | [] => []
    | x :: rest => render x :: items rest
    end in
  let fix members (l : list (string * value)) : list string :=
    match l with
    | [] => []
    | (k, undefined) :: rest => members rest
    | (k, x) :: rest => (quoted k +:+ ":" +:+ render x) :: members rest
    end in
  match v with
  | undefined | null => "null"
  | JBool true => "true"
  | JBool false => "false"
  | JNum q => render_number q
  | JStr s => quoted s
  | JArr l => "[" +:+ String.concat "," (items l) +:+ "]"
  | JObj l => "{" +:+ String.concat "," (members l) +:+ "}"
  end.

Definition LAUNCH_payload : value :=
  JObj [("type", JStr "LAUNCH"); ("appId", JStr "CC1AD845"); ("requestId", JInt 1)].
Definition LOAD_payload : value :=
  JObj [("type", JStr "LOAD"); ("requestId", JInt 2);
        ("media", JObj [("contentId", JStr "http://x/a.mp3")])].
Definition LOAD_again_payload : value :=
  JObj [("type", JStr "LOAD"); ("requestId", JInt 7);
        ("media", JObj [("contentId", JStr "http://x/b.mp3");
                        ("contentType", JStr "audio/mpeg")]);
        ("autoplay", JBool false)].
Definition LOAD_empty_payload : value :=
  JObj [("type", JStr "LOAD"); ("requestId", JInt 8); ("media", JObj [])].
Definition PLAY_payload : value :=
  JObj [("type", JStr "PLAY"); ("requestId", JInt 3)].
Definition PAUSE_payload : value :=
  JObj [("type", JStr "PAUSE"); ("requestId", JInt 4)].
Definition SEEK_payload : value :=
  JObj [("type", JStr "SEEK"); ("requestId", JInt 5); ("currentTime", JInt 30)].
Definition STOP_payload : value :=
  JObj [("type", JStr "STOP"); ("requestId", JInt 6)].

Definition corpus : list value :=
  [LAUNCH_payload; LOAD_payload; LOAD_again_payload; LOAD_empty_payload;
   PLAY_payload; PAUSE_payload; SEEK_payload; STOP_payload].

(** [JSON.parse] on the texts of the corpus; any other text is a syntax
    error, and so is a Buffer. *)
Definition parse (d : Data) : completion value :=
  match d with
  | DString s =>
      match find (fun v => String.eqb (render v) s) corpus with
      | Some v => Normal v
      | None => Throw (SyntaxError "Unexpected token")
      end
  | DBuffer _ => Throw (SyntaxError "Unexpected token")
  end.

(** The envelope codec: a tag for the payload type, the three strings each
    closed by a zero byte, then the payload. *)
Definition encode (m : CastMessage) : bytes :=
  match payloadType m with STRING => x00 | BINARY => x01 end
  :: list_byte_of_string (sourceId m) ++ [x00]
  ++ list_byte_of_string (destinationId m) ++ [x00]
  ++ list_byte_of_string (namespace_ m) ++ [x00]
  ++ match payloadType m with
     | STRING => list_byte_of_string (default "" (payloadUtf8 m))
     | BINARY => default [] (payloadBinary m)
     end.

Fixpoint until_zero (b : bytes) : option (bytes * bytes) :=
  match b with
  | [] => None
  | x :: rest =>
      if Byte.eqb x x00 then Some ([], rest)
      else match until_zero rest with
           | Some (field, rest') => Some (x :: field, rest')
           | None => None
           end
  end.

Definition decode (b : bytes) : option CastMessage :=
  match b with
  | [] => None
  | tag :: rest =>
      '(src, r1) ← until_zero rest;
      '(dst, r2) ← until_zero r1;
      '(ns, r3) ← until_zero r2;
      let message (t : PayloadType) :=
        {| protocolVersion := CASTV2_1_0;
           sourceId := string_of_list_byte src;
           destinationId := string_of_list_byte dst;
           namespace_ := string_of_list_byte ns;
           payloadType := t;
           payloadUtf8 := match t with
                          | STRING => Some (string_of_list_byte r3)
                          | BINARY => None
                          end;
           payloadBinary := match t with
                            | STRING => None
                            | BINARY => Some r3
                            end |} in
      if Byte.eqb tag x00 then Some (message STRING)
      else if Byte.eqb tag x01 then Some (message BINARY)
      else None
  end.

(** The encoder of the authentication sub-message: the protobuf bytes of the
    error sub-message, and a tagged concatenation for a response. *)
Definition encode_auth (m : DeviceAuthMessage) : completion bytes :=
  match response m, error m with
  | Some r, _ =>
      Normal (x12 :: signature r ++ clientAuthCertificate r
                  ++ concat (intermediateCertificate r))
  | None, Some INTERNAL_ERROR => Normal [x1a; x02; x08; x00]
  | None, Some NO_TLS => Normal [x1a; x02; x08; x01]
  | None, None => Normal [x0a; x00]
  end.

Definition decode_auth (d : Data) : completion DeviceAuthMessage :=
  match d with
  | DBuffer _ => Normal {| challenge := Some tt; response := None; error := None |}
  | DString _ => Throw (Error "illegal buffer")
  end.

Definition bench (signatures : gmap string bytes)
    (encoder : DeviceAuthMessage -> completion bytes) : Platform :=
  {| JSON_parse := parse;
     JSON_stringify := render;
     cast_encode := encode;
     cast_decode := decode;
     auth_decode := decode_auth;
     auth_encode := encoder;
     SIGNATURES := signatures;
     current_date_key := "20260222";
     AUTH_CRT := [x30; x82];
     ICA := [x30; x83] |}.

(** No signature for the current date. *)
Definition unsigned : Platform := bench ∅ encode_auth.

(** A signature for the current date. *)
Definition signed : Platform := bench {[ "20260222" := [xde; xad; xbe; xef] ]} encode_auth.

Definition kitchen : Props :=
  {| speakerName := "Kitchen";
     speakerIp := "192.168.1.66";
     port := 8009;
     deviceId := "0123456789abcdef0123456789abcdef";
     friendlyName := "Kitchen (Cast-66)";
     _transportId := "transport-01234567" |}.

(** A started receiver to which nothing has happened yet. *)
Definition fresh_world : World :=
  {| device := started (new_CastDevice kitchen "uuid-0");
     emitted := [];
     console := [];
     timers := [];
     uuid_source := fun n => "uuid-" +:+ pretty (S n);
     uuid_used := 0 |}.

(** A message from the first client on a namespace with a payload of the
    corpus. *)
Definition from_client (ns : string) (payload : value) : MessageEvent :=
  {| clientId := "client-1";
     msg_sourceId := "sender-0";
     msg_destinationId := "receiver-0";
     namespace := ns;
     data := DString (render payload) |}.

(** A device-authentication challenge from the first client. *)
Definition challenge_message : MessageEvent :=
  {| clientId := "client-1";
     msg_sourceId := "sender-0";
     msg_destinationId := "receiver-0";
     namespace := CASTV2_NS_DEVICEAUTH;
     data := DBuffer [x0a; x00] |}.

(** Two envelopes as [send] builds them, and the bytes it writes for
    them. *)
Definition ping : CastMessage :=
  envelope "sender-0" "receiver-0" CASTV2_NS_HEARTBEAT (DString (render (JObj [("type", JStr "PING")]))).
Definition challenge_envelope : CastMessage :=
  envelope "sender-0" "receiver-0" CASTV2_NS_DEVICEAUTH (DBuffer [x0a; x00]).

Definition two_frames : list bytes :=
  [default [] (frame encode ping); default [] (frame encode challenge_envelope)].

(** The stream of the two frames cut inside the first header, inside the
    first body and inside the second body, so that one chunk spans the
    boundary between the frames. *)
Definition four_chunks : list bytes :=
  let stream := concat two_frames in
  [take 2 stream; take 30 (drop 2 stream); take 60 (drop 32 stream); drop 92 stream].

(** Payloads of the control messages, and a platform whose [JSON.parse]
    knows them as well. *)
Definition PING_payload : value := JObj [("type", JStr "PING")].

Definition CONNECT_payload : value := JObj [("type", JStr "CONNECT")].

Definition GET_STATUS_payload : value :=
  JObj [("type", JStr "GET_STATUS"); ("requestId", JInt 7)].

Definition SET_VOLUME_payload : value :=
  JObj [("type", JStr "SET_VOLUME"); ("requestId", JInt 8);
        ("volume", JObj [("level", JNum (QArith_base.Qmake 1 2));
                         ("muted", JBool false)])].

(** A value on which ToString throws: an object with an own [toString]
    property, as [JSON.parse] gives for the text [{"toString":1}]; and a
    [LOAD] and a [LAUNCH] that carry it where the handler builds a log
    line. *)
Definition unprintable : value := JObj [("toString", JInt 1)].

Definition LOAD_unprintable_payload : value :=
  JObj [("type", JStr "LOAD"); ("requestId", JInt 9);
        ("media", JObj [("contentId", JStr "http://x/c.mp3");
                        ("contentType", unprintable)])].

Definition LAUNCH_unprintable_payload : value :=
  JObj [("type", JStr "LAUNCH"); ("appId", unprintable); ("requestId", JInt 10)].

Definition control_corpus : list value :=
  corpus ++ [PING_payload; CONNECT_payload; GET_STATUS_payload; SET_VOLUME_payload;
             LOAD_unprintable_payload; LAUNCH_unprintable_payload].

Definition parse_controls (d : Data) : completion value :=
  match d with
  | DString s =>
      match find (fun v => String.eqb (render v) s) control_corpus with
      | Some v => Normal v
      | None => Throw (SyntaxError "Unexpected token")
      end
  | DBuffer _ => Throw (SyntaxError "Unexpected token")
  end.

Definition controls : Platform :=
  {| JSON_parse := parse_controls;
     JSON_stringify := render;
     cast_encode := encode;
     cast_decode := decode;
     auth_decode := decode_auth;
     auth_encode := encode_auth;
     SIGNATURES := ∅;
     current_date_key := "20260222";
     AUTH_CRT := [x30; x82];
     ICA := [x30; x83] |}.

(** The receiver with one client connected, and the same after that
    client loaded a stream. *)
Definition connected_world : World :=
  (process (H := controls) [Connect] fresh_world).2.

Definition loaded_world : World :=
  (process (H := controls)
     [Connect; Message (from_client CASTV2_NS_MEDIA LOAD_payload)] fresh_world).2.

(** A message on a namespace the receiver does not serve. *)
Definition stray_message : MessageEvent :=
  from_client "urn:x-cast:com.example.custom" PING_payload.

(** Bodies as they may arrive behind a length header: two that decode, an
    empty one and one that is no envelope; the stream of their frames cut
    inside the first header and inside the first body. *)
Definition mixed_bodies : list bytes :=
  [encode ping; []; [xff; x00]; encode challenge_envelope].

Definition mixed_frames : list bytes :=
  map (fun body => default [] (framed body)) mixed_bodies.

Definition mixed_chunks : list bytes :=
  let stream := concat mixed_frames in
  [take 3 stream; take 50 (drop 3 stream); drop 53 stream].

(** Two calls of [send], one with a string and one with a Buffer, and a
    server with one client. *)
Definition pong_out : Outgoing :=
  {| out_sourceId := "receiver-0"; out_destinationId := "sender-0";
     out_namespace := CASTV2_NS_HEARTBEAT;
     out_data := DString (render (JObj [("type", JStr "PONG")])) |}.

Definition auth_out : Outgoing :=
  {| out_sourceId := "receiver-0"; out_destinationId := "sender-0";
     out_namespace := CASTV2_NS_DEVICEAUTH;
     out_data := DBuffer [x1a; x02; x08; x00] |}.

Definition one_client : CastProtocolServer := (_onConnection listening_server).2.

(** What two calls of [getOrCreateDevice] draw from outside. *)
Definition first_draw : DeviceRegistry.Entropy :=
  {| DeviceRegistry.uuid := "1b4e28ba-2fa1-11d2-883f-0016d3cca427";
     DeviceRegistry.pems_private := "PRIVATE KEY 1";
     DeviceRegistry.pems_cert := "CERTIFICATE 1";
     DeviceRegistry.now := fun n => "2026-02-22T10:00:0" +:+ pretty n |}.

Definition second_draw : DeviceRegistry.Entropy :=
  {| DeviceRegistry.uuid := "6ba7b810-9dad-11d1-80b4-00c04fd430c8";
     DeviceRegistry.pems_private := "PRIVATE KEY 2";
     DeviceRegistry.pems_cert := "CERTIFICATE 2";
     DeviceRegistry.now := fun n => "2026-02-23T10:00:0" +:+ pretty n |}.

End TestBench.

(** * Properties *)

(** ** Framing *)

Section FramingFacts.
Local Open Scope N_scope.

Lemma octet_to_N (n : N) : n < 256 -> Byte.to_N (octet n) = n.
Proof.
  intros Hn. unfold octet.
  destruct (Byte.of_N n) as [b|] eqn:E.
  - now apply Byte.to_of_N.
  - apply Byte.of_N_None_iff in E. lia.
Qed.

Lemma writeUInt32BE_length (v : N) (header : bytes) :
  writeUInt32BE v = Some header -> length header = 4%nat.
Proof.
  unfold writeUInt32BE. destruct (v <? 4294967296); [|discriminate].
  now intros [= <-].
Qed.

(** Reading back a header that was written gives the number written,
    whatever follows the header. *)
Lemma readUInt32BE_writeUInt32BE (v : N) (header rest : bytes) :
  writeUInt32BE v = Some header -> readUInt32BE (header ++ rest) = Some v.
Proof.
  unfold writeUInt32BE. destruct (N.ltb_spec v 4294967296) as [Hv|]; [|discriminate].
  intros [= <-]. cbn [app readUInt32BE]. f_equal.
  assert (H1 : v / 16777216 < 256) by (apply N.Div0.div_lt_upper_bound; lia).
  assert (H2 : (v / 65536) mod 256 < 256) by (apply N.mod_lt; lia).
  assert (H3 : (v / 256) mod 256 < 256) by (apply N.mod_lt; lia).
  assert (H4 : v mod 256 < 256) by (apply N.mod_lt; lia).
  rewrite !octet_to_N by assumption.
  pose proof (N.div_mod v 256 ltac:(lia)) as E0.
  pose proof (N.div_mod (v / 256) 256 ltac:(lia)) as E1.
  pose proof (N.div_mod (v / 256 / 256) 256 ltac:(lia)) as E2.
  rewrite !N.Div0.div_div in E1, E2.
  change (256 * 256) with 65536 in *.
  rewrite N.Div0.div_div in E2.
  change (65536 * 256) with 16777216 in *.
  lia.
Qed.

End FramingFacts.

Section ReaderFacts.
Local Open Scope N_scope.

Variable encode : CastMessage -> bytes.
Variable decode : bytes -> option CastMessage.

Local Abbreviation iteration := (iteration decode).
Local Abbreviation loop := (loop decode).

Local Abbreviation run := (run decode).
Local Abbreviation settled := (settled decode).

Lemma read_body_continue_measure n buf ev st' :
  read_body decode n buf = Continue ev st' ->
  (2 * length (_buffer st') + 0 <= 2 * length buf)%nat
  /\ _expectedLength st' = None.
Proof.
  unfold read_body. destruct (blength buf <? n); [discriminate|].
  unfold slice_from.
  destruct (decode _); intros [= <- <-]; cbn; rewrite length_drop; split; auto; lia.
Qed.

Lemma iteration_continue_measure st ev st' :
  iteration st = Continue ev st' -> (measure st' < measure st)%nat.
Proof.
  unfold CastProtocol.iteration, measure.
  destruct (_expectedLength st) as [n|].
  - intros Hb. apply read_body_continue_measure in Hb as [Hlen ->]. lia.
  - destruct (N.ltb_spec (blength (_buffer st)) 4) as [|Hfour]; [discriminate|].
    destruct (readUInt32BE (_buffer st)) as [n|]; [|discriminate].
    intros Hb. apply read_body_continue_measure in Hb as [Hlen ->].
    unfold slice_from, blength in *. rewrite length_drop in Hlen. lia.
Qed.

(** Fuel above the measure is never used up. *)
Lemma loop_fuel (f1 f2 : nat) (st : PacketReader) :
  (measure st < f1)%nat -> (measure st < f2)%nat -> loop f1 st = loop f2 st.
Proof.
  revert f2 st. induction f1 as [|f1 IH]; intros f2 st H1 H2; [lia|].
  destruct f2 as [|f2]; [lia|]. cbn [CastProtocol.loop].
  destruct (iteration st) as [st'|ev st'] eqn:E; [reflexivity|].
  apply iteration_continue_measure in E.
  rewrite (IH f2 st') by lia. reflexivity.
Qed.

Lemma run_unfold (st : PacketReader) :
  run st =
  match iteration st with
  | Break st' => ([], st')
  | Continue ev st' => let '(evs, st'') := run st' in (ev :: evs, st'')
  end.
Proof.
  unfold CastProtocol.run at 1. cbn [CastProtocol.loop].
  destruct (iteration st) as [st'|ev st'] eqn:E; [reflexivity|].
  apply iteration_continue_measure in E.
  unfold CastProtocol.run. rewrite (loop_fuel (measure st) (S (measure st')) st') by lia.
  reflexivity.
Qed.

Lemma read_body_break_settled n buf st' :
  read_body decode n buf = Break st' ->
  st' = {| _buffer := buf; _expectedLength := Some n |}
  /\ read_body decode n buf = Break st'.
Proof.
  intros Hb. split; [|exact Hb]. revert Hb. unfold read_body.
  destruct (blength buf <? n); [now intros [= <-]|].
  destruct (decode _); discriminate.
Qed.

Lemma iteration_break_settled st st' :
  iteration st = Break st' -> settled st'.
Proof.
  unfold CastProtocol.settled, CastProtocol.iteration.
  destruct (_expectedLength st) as [n|] eqn:En.
  - intros Hb. apply read_body_break_settled in Hb as [-> Hb]. exact Hb.
  - destruct (blength (_buffer st) <? 4) eqn:Hfour.
    + intros [= <-]. now rewrite En, Hfour.
    + destruct (readUInt32BE (_buffer st)) as [n|] eqn:Er.
      * intros Hb. apply read_body_break_settled in Hb as [-> Hb]. exact Hb.
      * intros [= <-]. now rewrite En, Hfour, Er.
Qed.

(** The loop leaves the reader settled. *)
Lemma run_settled (st : PacketReader) : settled (run st).2.
Proof.
  remember (measure st) as k eqn:Hk.
  revert st Hk. induction k as [k IH] using lt_wf_ind. intros st ->.
  rewrite run_unfold.
  destruct (iteration st) as [st'|ev st'] eqn:E.
  - cbn. eapply iteration_break_settled, E.
  - pose proof (iteration_continue_measure _ _ _ E) as Hlt.
    specialize (IH _ Hlt st' eq_refl).
    destruct (run st') as [evs st'']. exact IH.
Qed.

Lemma read_body_continue_app n buf ev st' chunk :
  read_body decode n buf = Continue ev st' ->
  read_body decode n (buf ++ chunk) = Continue ev (append_chunk chunk st').
Proof.
  unfold read_body, blength, slice_to, slice_from.
  destruct (N.ltb_spec (N.of_nat (length buf)) n) as [|Hn]; [discriminate|].
  rewrite length_app.
  destruct (N.ltb_spec (N.of_nat (length buf + length chunk)) n); [lia|].
  rewrite take_app_le, drop_app_le by lia.
  destruct (decode _); intros [= <- <-]; reflexivity.
Qed.

(** A pass that continues does the same when more bytes follow. *)
Lemma iteration_continue_app st ev st' chunk :
  iteration st = Continue ev st' ->
  iteration (append_chunk chunk st) = Continue ev (append_chunk chunk st').
Proof.
  unfold CastProtocol.iteration. cbn [append_chunk _buffer _expectedLength].
  destruct (_expectedLength st) as [n|].
  - apply read_body_continue_app.
  - unfold blength. rewrite length_app.
    destruct (N.ltb_spec (N.of_nat (length (_buffer st))) 4) as [|Hfour]; [discriminate|].
    destruct (N.ltb_spec (N.of_nat (length (_buffer st) + length chunk)) 4); [lia|].
    destruct (_buffer st) as [|b0 [|b1 [|b2 [|b3 tl]]]]; cbn in Hfour; try lia.
    cbn [app readUInt32BE]. unfold slice_from. cbn [N.to_nat Pos.to_nat Pos.iter_op Nat.add drop].
    apply read_body_continue_app.
Qed.

Lemma read_body_break_app n buf st' chunk :
  read_body decode n buf = Break st' ->
  read_body decode n (buf ++ chunk) = iteration (append_chunk chunk st').
Proof.
  intros Hb. apply read_body_break_settled in Hb as [-> _]. reflexivity.
Qed.

(** A pass that breaks has kept everything the next chunk needs. *)
Lemma iteration_break_app st st' chunk :
  iteration st = Break st' ->
  iteration (append_chunk chunk st) = iteration (append_chunk chunk st').
Proof.
  unfold CastProtocol.iteration at 1.
  destruct (_expectedLength st) as [n|] eqn:En.
  - intros Hb. unfold CastProtocol.iteration at 1.
    cbn [append_chunk _buffer _expectedLength]. rewrite En.
    now apply read_body_break_app.
  - destruct (N.ltb_spec (blength (_buffer st)) 4) as [|Hfour]; [now intros [= <-]|].
    destruct (readUInt32BE (_buffer st)) as [n|] eqn:Er; [|now intros [= <-]].
    intros Hb. unfold CastProtocol.iteration at 1.
    cbn [append_chunk _buffer _expectedLength]. rewrite En.
    unfold blength in *. rewrite length_app.
    destruct (N.ltb_spec (N.of_nat (length (_buffer st) + length chunk)) 4); [lia|].
    destruct (_buffer st) as [|b0 [|b1 [|b2 [|b3 tl]]]]; cbn in Hfour; try lia.
    cbn [app readUInt32BE] in *. injection Er as <-.
    unfold slice_from in *. cbn [N.to_nat Pos.to_nat Pos.iter_op Nat.add drop] in *.
    now apply read_body_break_app.
Qed.

(** Running the loop on a buffer followed by a chunk is running it on the
    buffer, then on what it left followed by the chunk. *)
Lemma run_append_chunk chunk (st : PacketReader) :
  run (append_chunk chunk st) =
  (let '(evs1, st1) := run st in
   let '(evs2, st2) := run (append_chunk chunk st1) in
   (evs1 ++ evs2, st2)).
Proof.
  remember (measure st) as k eqn:Hk.
  revert st Hk. induction k as [k IH] using lt_wf_ind. intros st ->.
  rewrite (run_unfold st).
  destruct (iteration st) as [st'|ev st'] eqn:E.
  - rewrite (run_unfold (append_chunk chunk st)), (iteration_break_app _ _ chunk E),
      <- run_unfold.
    destruct (run (append_chunk chunk st')); reflexivity.
  - rewrite (run_unfold (append_chunk chunk st)), (iteration_continue_app _ _ _ chunk E).
    pose proof (iteration_continue_measure _ _ _ E) as Hlt.
    rewrite (IH _ Hlt st' eq_refl).
    destruct (run st') as [evs1 st1].
    destruct (run (append_chunk chunk st1)) as [evs2 st2]. reflexivity.
Qed.

Lemma append_chunk_app c1 c2 (st : PacketReader) :
  append_chunk (c1 ++ c2) st = append_chunk c2 (append_chunk c1 st).
Proof. unfold append_chunk. cbn. now rewrite app_assoc. Qed.

Lemma run_of_settled (st : PacketReader) : settled st -> run st = ([], st).
Proof. intros Hs. rewrite run_unfold, Hs. reflexivity. Qed.

(** Delivering chunks one by one is delivering their concatenation. *)
Lemma feed_concat (chunks : list bytes) (st : PacketReader) :
  settled st -> feed decode chunks st = _onData decode (concat chunks) st.
Proof.
  revert st. induction chunks as [|chunk rest IH]; intros st Hs.
  - cbn [feed concat]. unfold _onData.
    replace (append_chunk [] st) with st
      by (destruct st; unfold append_chunk; cbn; now rewrite app_nil_r).
    now rewrite run_of_settled.
  - cbn [feed concat]. unfold _onData at 2.
    rewrite append_chunk_app, run_append_chunk.
    unfold _onData at 1.
    pose proof (run_settled (append_chunk chunk st)) as Hs1.
    destruct (run (append_chunk chunk st)) as [evs1 st1].
    rewrite (IH st1 Hs1). reflexivity.
Qed.

(** One frame at the head of the buffer of an idle reader is decoded in one
    pass, and the pass leaves the rest of the buffer. *)
Lemma iteration_frame (m : CastMessage) (f rest : bytes) :
  frame encode m = Some f ->
  decode (encode m) = Some m ->
  iteration {| _buffer := f ++ rest; _expectedLength := None |}
  = Continue (OnMessage m) {| _buffer := rest; _expectedLength := None |}.
Proof.
  unfold frame. destruct (writeUInt32BE (blength (encode m))) as [header|] eqn:Ew;
    [|discriminate].
  intros [= <-] Hdec.
  pose proof (writeUInt32BE_length _ _ Ew) as Hlen.
  unfold CastProtocol.iteration. cbn [_buffer _expectedLength].
  rewrite <- app_assoc.
  rewrite (readUInt32BE_writeUInt32BE _ _ _ Ew).
  unfold blength at 1. rewrite length_app, Hlen.
  destruct (N.ltb_spec (N.of_nat (4 + length (encode m ++ rest))) 4); [lia|].
  unfold slice_from at 1. change (N.to_nat 4) with 4%nat.
  rewrite drop_app_length' by (symmetry; exact Hlen).
  unfold read_body, blength, slice_to, slice_from.
  rewrite length_app, Nat2N.id.
  destruct (N.ltb_spec (N.of_nat (length (encode m) + length rest))
              (N.of_nat (length (encode m)))); [lia|].
  rewrite take_app_length, drop_app_length, Hdec. reflexivity.
Qed.

(** The loop on a concatenation of frames delivers their messages in order
    and goes on with what follows them. *)
Lemma run_frames (msgs : list CastMessage) (frames : list bytes) (rest : bytes) :
  Forall (fun m => decode (encode m) = Some m) msgs ->
  Forall2 (fun m f => frame encode m = Some f) msgs frames ->
  run {| _buffer := concat frames ++ rest; _expectedLength := None |}
  = (let '(evs, st) := run {| _buffer := rest; _expectedLength := None |} in
     (map OnMessage msgs ++ evs, st)).
Proof.
  intros Hdec Hframes. induction Hframes as [|m f msgs frames Hf _ IH].
  - cbn [concat map app].
    now destruct (run {| _buffer := rest; _expectedLength := None |}).
  - apply Forall_cons in Hdec as [Hm Hdec]. specialize (IH Hdec).
    cbn [concat map]. rewrite <- app_assoc, run_unfold.
    rewrite (iteration_frame m f _ Hf Hm), IH.
    destruct (run {| _buffer := rest; _expectedLength := None |}) as [evs st].
    reflexivity.
Qed.

End ReaderFacts.

(** What [send] writes on the client's socket is the frame of the envelope
    built from its arguments. *)
Lemma send_writes_frame encode clientId sourceId destinationId namespace data srv srv' :
  send encode clientId sourceId destinationId namespace data srv = Written srv' ->
  exists client buf,
    _clients srv !! clientId = Some client
    /\ frame encode (envelope sourceId destinationId namespace data) = Some buf
    /\ _clients srv' = <[clientId := socket_write buf client]> (_clients srv).
Proof.
  unfold send. destruct (_clients srv !! clientId) as [client|]; [|discriminate].
  destruct (frame encode _) as [buf|]; [|discriminate].
  intros [= <-]. exists client, buf. auto.
Qed.

(** C1. Framing round trip: when each message of a sequence is encoded as
    the send path does (the four byte big-endian length, then the encoding,
    for messages the codec reads back), and the concatenation of the frames
    reaches a fresh [PacketReader] cut into chunks at arbitrary places, the
    reader hands over exactly the messages of the sequence, in order, and
    ends with an empty buffer. *)
Theorem framing_round_trip
    (encode : CastMessage -> bytes) (decode : bytes -> option CastMessage)
    (msgs : list CastMessage) (frames chunks : list bytes) :
  Forall (fun m => decode (encode m) = Some m) msgs ->
  Forall2 (fun m f => frame encode m = Some f) msgs frames ->
  concat chunks = concat frames ->
  feed decode chunks new_PacketReader = (map OnMessage msgs, new_PacketReader).
Proof.
  intros Hdec Hframes Hcut.
  assert (Hnew : settled decode new_PacketReader) by reflexivity.
  rewrite (feed_concat decode chunks _ Hnew), Hcut.
  unfold _onData, append_chunk, new_PacketReader. cbn [_buffer _expectedLength app].
  rewrite <- (app_nil_r (concat frames)).
  rewrite (run_frames encode decode msgs frames [] Hdec Hframes).
  change (run decode {| _buffer := []; _expectedLength := None |}) with
    (@nil ReaderEvent, new_PacketReader).
  cbv beta iota. now rewrite app_nil_r.
Qed.

Lemma framing_round_trip_witness :
  feed TestBench.decode TestBench.four_chunks new_PacketReader
  = (map OnMessage [TestBench.ping; TestBench.challenge_envelope], new_PacketReader).
Proof.
  apply (framing_round_trip TestBench.encode TestBench.decode
           [TestBench.ping; TestBench.challenge_envelope]
           TestBench.two_frames TestBench.four_chunks).
  - repeat constructor.
  - repeat constructor.
  - vm_compute. reflexivity.
Defined.

(** ** Device authentication *)

Import CastDevice.

(** Case analysis on the calls whose outcome the handler branches on. *)
Ltac auth_cases H :=
  repeat (cbn; rewrite ?H;
    match goal with
    | |- context [match auth_decode ?d with _ => _ end] => destruct (auth_decode d)
    | |- context [match SIGNATURES !! ?k with _ => _ end] => destruct (SIGNATURES !! k)
    | |- context [match auth_encode ?m with _ => _ end] => destruct (auth_encode m)
    | |- context [match frame ?e ?m with _ => _ end] => destruct (frame e m)
    | |- context [match _clients ?s !! ?c with _ => _ end] => destruct (_clients s !! c)
    | |- context [match ?s with Some _ => _ | None => _ end] => is_var s; destruct s
    end); cbn; auto.

Ltac unfold_monad :=
  unfold bind, try_catch, lift, gets, modify, ret, throw.

(** No exception leaves the handler, whatever the state of the receiver and
    whatever the decoder, the signature table and the encoder do. *)
Lemma _handleDeviceAuth_returns `{Platform} (w : World)
    (clientId sourceId : string) (data : Data) :
  (_handleDeviceAuth clientId sourceId data w).1 = Normal tt.
Proof.
  destruct w as [[p srv0 mdns sess rid sid app ms] em con tm us uu].
  unfold _handleDeviceAuth, send_auth_error, log_warn,
    CastAuth.handleAuthChallenge, server_send, log, send.
  unfold_monad. auth_cases I.
Qed.

(** What the handler does in every state of the receiver and for every
    outcome of the decoder, the signature table and the encoder. It returns
    normally and writes at most one frame: on the socket of the client the
    challenge came from, on the device-authentication namespace, from
    [receiver-0] to the sender. The frame carries the encoded response
    sub-message when the challenge decodes, the signature table has an entry
    for the current date and the response encodes and fits a frame; in every
    other case (decoding throws, no entry and the call of the missing
    [log.warn] throws, encoding the response throws) it carries the encoded
    error sub-message with [INTERNAL_ERROR]. Nothing else of the receiver
    changes. *)
Lemma device_auth_reply `{Platform} (w : World) (clientId sourceId : string)
    (data : Data) :
  let reply_with (payload : bytes) :=
    frame cast_encode
      (envelope "receiver-0" sourceId CASTV2_NS_DEVICEAUTH (DBuffer payload)) in
  let error_reply :=
    match auth_encode authError with
    | Normal encoded => reply_with encoded
    | Throw _ => None
    end in
  let reply :=
    match auth_decode data, SIGNATURES !! current_date_key with
    | Normal _, Some sig =>
        match auth_encode (CastAuth.auth_response sig) with
        | Normal encoded =>
            match reply_with encoded with
            | Some buf => Some buf
            | None => error_reply
            end
        | Throw _ => error_reply
        end
    | _, _ => error_reply
    end in
  let r := _handleDeviceAuth clientId sourceId data w in
  r.1 = Normal tt
  /\ emitted r.2 = emitted w
  /\ timers r.2 = timers w
  /\ device r.2 =
     match reply with
     | Some buf => after_write clientId buf (device w)
     | None => device w
     end.
Proof.
  destruct w as [[p srv0 mdns sess rid sid app ms] em con tm us uu].
  unfold _handleDeviceAuth, send_auth_error, log_warn,
    CastAuth.handleAuthChallenge, server_send, log, send, after_write.
  unfold_monad.
  destruct srv0 as [srv|];
    [destruct (_clients srv !! clientId) as [client|] eqn:Eclient|].
  - auth_cases Eclient.
  - auth_cases Eclient.
  - auth_cases I.
Qed.

(** On a day with a signature the client gets the frame of the encoded
    response; on a day without one, the frame of the encoded error. *)
Example device_auth_on_two_days :
  let connected P := (process (H := P) [Connect] TestBench.fresh_world).2 in
  let reply P :=
    written_to "client-1"
      (step (H := P) (Message TestBench.challenge_message) (connected P)).2 in
  reply TestBench.signed
  = [default [] (frame TestBench.encode
       (envelope "receiver-0" "sender-0" CASTV2_NS_DEVICEAUTH
          (DBuffer [x12; xde; xad; xbe; xef; x30; x82; x30; x83])))]
  /\ reply TestBench.unsigned
     = [default [] (frame TestBench.encode
          (envelope "receiver-0" "sender-0" CASTV2_NS_DEVICEAUTH
             (DBuffer [x1a; x02; x08; x00])))].
Proof. vm_compute. split; reflexivity. Qed.

(** C2. Device authentication always answers. A challenge comes from a
    client that is registered with the attached server; the encoder encodes
    the error sub-message [{ error: { errorType: 0 } }], a constant, and its
    frame fits the length header. Then, whatever the challenge bytes, the
    signature table and the encoder of the response do, the handler returns
    normally and writes exactly one frame on the socket of that client, on
    the device-authentication namespace, from [receiver-0] to the sender:
    the response sub-message when the challenge decodes, a signature covers
    the current date and the response encodes and fits a frame, and the
    error sub-message with [INTERNAL_ERROR] in every other case, an
    exception of the decoder or of the encoder included. Nothing else of the
    receiver changes, no event is emitted and no timer set. *)
Theorem device_auth_always_answers `{Platform} (w : World)
    (clientId sourceId : string) (data : Data)
    (srv : CastProtocolServer) (client : Client) (encoded_error error_frame : bytes) :
  _server (device w) = Some srv ->
  _clients srv !! clientId = Some client ->
  auth_encode authError = Normal encoded_error ->
  frame cast_encode
    (envelope "receiver-0" sourceId CASTV2_NS_DEVICEAUTH (DBuffer encoded_error))
  = Some error_frame ->
  let reply_with (payload : bytes) :=
    frame cast_encode
      (envelope "receiver-0" sourceId CASTV2_NS_DEVICEAUTH (DBuffer payload)) in
  let reply :=
    match auth_decode data, SIGNATURES !! current_date_key with
    | Normal _, Some sig =>
        match auth_encode (CastAuth.auth_response sig) with
        | Normal encoded => default error_frame (reply_with encoded)
        | Throw _ => error_frame
        end
    | _, _ => error_frame
    end in
  let r := _handleDeviceAuth clientId sourceId data w in
  r.1 = Normal tt
  /\ written_to clientId r.2 = written_to clientId w ++ [reply]
  /\ device r.2 = after_write clientId reply (device w)
  /\ emitted r.2 = emitted w
  /\ timers r.2 = timers w.
Proof.
  intros Hsrv Hclient Herror Hframe reply_with reply r.
  destruct (device_auth_reply w clientId sourceId data) as (Hret & Hem & Htm & Hdev).
  fold r in Hret, Hem, Htm, Hdev.
  rewrite Herror, Hframe in Hdev.
  assert (Hreply : device r.2 = after_write clientId reply (device w)).
  { rewrite Hdev. unfold reply, reply_with.
    destruct (auth_decode data) as [ch|e]; [|reflexivity].
    destruct (SIGNATURES !! current_date_key) as [sig|]; [|reflexivity].
    destruct (auth_encode (CastAuth.auth_response sig)) as [encoded|e]; [|reflexivity].
    destruct (frame cast_encode
                (envelope "receiver-0" sourceId CASTV2_NS_DEVICEAUTH (DBuffer encoded)))
      as [buf|]; reflexivity. }
  split; [exact Hret|]. split; [|split; [exact Hreply|split; assumption]].
  unfold written_to. rewrite Hreply. unfold after_write.
  rewrite Hsrv, Hclient. cbn. rewrite lookup_insert_eq. reflexivity.
Qed.

(** A challenge of the connected client on a day with a signature. *)
Lemma device_auth_always_answers_witness :
  let w := (process (H := TestBench.signed) [Connect] TestBench.fresh_world).2 in
  let r := _handleDeviceAuth (H := TestBench.signed)
             "client-1" "sender-0" (DBuffer [x0a; x00]) w in
  r.1 = Normal tt
  /\ written_to "client-1" r.2
     = [default [] (frame TestBench.encode
          (envelope "receiver-0" "sender-0" CASTV2_NS_DEVICEAUTH
             (DBuffer [x12; xde; xad; xbe; xef; x30; x82; x30; x83])))].
Proof.
  intros w r.
  pose (srv := default listening_server (_server (device w))).
  pose (client := default {| socket := {| written := []; destroyed := true |};
                             reader := new_PacketReader |}
                    (_clients srv !! "client-1")).
  destruct (device_auth_always_answers (H := TestBench.signed) w
              "client-1" "sender-0" (DBuffer [x0a; x00]) srv client
              [x1a; x02; x08; x00]
              (default [] (frame TestBench.encode
                 (envelope "receiver-0" "sender-0" CASTV2_NS_DEVICEAUTH
                    (DBuffer [x1a; x02; x08; x00]))))
              ltac:(vm_compute; reflexivity) ltac:(vm_compute; reflexivity)
              eq_refl ltac:(vm_compute; reflexivity))
    as (Hret & Hwritten & _).
  split; [exact Hret|].
  exact (eq_trans Hwritten ltac:(vm_compute; reflexivity)).
Defined.

(** ** Frame rules for computations *)

Section KeepsRules.
Context {S : Type} (R : S -> S -> Prop).
Hypothesis R_refl : forall s, R s s.
Hypothesis R_trans : forall s1 s2 s3, R s1 s2 -> R s2 s3 -> R s1 s3.

Lemma keeps_ret {A} (a : A) : keeps R (ret a).
Proof. intros s. apply R_refl. Qed.

Lemma keeps_throw {A} (e : exn) : keeps R (throw (A := A) e).
Proof. intros s. apply R_refl. Qed.

Lemma keeps_lift {A} (c : completion A) : keeps R (lift c).
Proof. intros s. apply R_refl. Qed.

Lemma keeps_gets {A} (f : S -> A) : keeps R (gets f).
Proof. intros s. apply R_refl. Qed.

Lemma keeps_modify (f : S -> S) : (forall s, R s (f s)) -> keeps R (modify f).
Proof. intros Hf s. apply Hf. Qed.

Lemma keeps_bind {A B} (m : M S A) (k : A -> M S B) :
  keeps R m -> (forall a, keeps R (k a)) -> keeps R (bind m k).
Proof.
  intros Hm Hk s. unfold bind. specialize (Hm s).
  destruct (m s) as [[a|e] s']; cbn in *.
  - eapply R_trans; [exact Hm | apply Hk].
  - exact Hm.
Qed.

Lemma keeps_try_catch {A} (body : M S A) (handler : exn -> M S A) :
  keeps R body -> (forall e, keeps R (handler e)) -> keeps R (try_catch body handler).
Proof.
  intros Hm Hk s. unfold try_catch. specialize (Hm s).
  destruct (body s) as [[a|e] s']; cbn in *.
  - exact Hm.
  - eapply R_trans; [exact Hm | apply Hk].
Qed.

End KeepsRules.

Section CommutesRules.
Context {S : Type} (f : S -> S).

Lemma commutes_ret {A} (a : A) : commutes f (ret a).
Proof. intros s. reflexivity. Qed.

Lemma commutes_throw {A} (e : exn) : commutes f (throw (A := A) e).
Proof. intros s. reflexivity. Qed.

Lemma commutes_lift {A} (c : completion A) : commutes f (lift c).
Proof. intros s. reflexivity. Qed.

Lemma commutes_gets {A} (g : S -> A) :
  (forall s, g (f s) = g s) -> commutes f (gets g).
Proof. intros Hg s. unfold gets. cbn. now rewrite Hg. Qed.

Lemma commutes_modify (g : S -> S) :
  (forall s, g (f s) = f (g s)) -> commutes f (modify g).
Proof. intros Hg s. unfold modify. cbn. now rewrite Hg. Qed.

Lemma commutes_bind {A B} (m : M S A) (k : A -> M S B) :
  commutes f m -> (forall a, commutes f (k a)) -> commutes f (bind m k).
Proof.
  intros Hm Hk s. unfold bind. rewrite (Hm s).
  destruct (m s) as [[a|e] s']; cbn.
  - apply Hk.
  - reflexivity.
Qed.

Lemma commutes_try_catch {A} (body : M S A) (handler : exn -> M S A) :
  commutes f body -> (forall e, commutes f (handler e)) ->
  commutes f (try_catch body handler).
Proof.
  intros Hm Hk s. unfold try_catch. rewrite (Hm s).
  destruct (body s) as [[a|e] s']; cbn.
  - reflexivity.
  - apply Hk.
Qed.

End CommutesRules.

(** Take a computation apart along its structure. *)
Ltac frame_structure keeps_leaf :=
  repeat first
    [ apply keeps_ret; [assumption]
    | apply keeps_throw; [assumption]
    | apply keeps_lift; [assumption]
    | apply keeps_gets; [assumption]
    | apply keeps_bind; [assumption | | intros ?]
    | apply keeps_try_catch; [assumption | | intros ?]
    | apply keeps_modify; keeps_leaf
    | match goal with
      | |- keeps _ (match ?x with _ => _ end) => destruct x
      | |- keeps _ (let '(_, _) := ?x in _) => destruct x
      end ].

(** ** What the handlers leave alone *)

Section DeviceKeeps.
Context `{Platform}.

(** A relation between receivers that every field update of the source
    respects, except the ones listed separately below. *)
Variable Rd : CastDevice -> CastDevice -> Prop.
Hypothesis Rd_refl : forall d, Rd d d.
Hypothesis Rd_trans : forall d1 d2 d3, Rd d1 d2 -> Rd d2 d3 -> Rd d1 d3.
Hypothesis Rd_server : forall x d, Rd d (set_server x d).
Hypothesis Rd_mdns : forall x d, Rd d (set_mdnsService x d).
Hypothesis Rd_sessions : forall x d, Rd d (set_sessions x d).
Hypothesis Rd_mediaStatus : forall x d, Rd d (set_mediaStatus x d).
Hypothesis Rd_counter :
  forall d, Rd d (set_mediaRequestId (js_increment (_mediaRequestId d)) d).
(** Respected by the relations that do not look at the application state. *)
Hypothesis Rd_sessionId : forall x d, Rd d (set_sessionId x d).
Hypothesis Rd_appRunning : forall x d, Rd d (set_appRunning x d).

Local Abbreviation R := (on_device Rd).

Lemma on_device_refl w : R w w.
Proof. apply Rd_refl. Qed.

Lemma on_device_trans w1 w2 w3 : R w1 w2 -> R w2 w3 -> R w1 w3.
Proof. apply Rd_trans. Qed.

Ltac keeps_leaf :=
  let w := fresh "w" in
  intros w; unfold on_device; cbn;
  solve [ apply Rd_refl | apply Rd_server | apply Rd_mdns | apply Rd_sessions
        | apply Rd_mediaStatus | apply Rd_counter ].

Ltac keeps_app_leaf :=
  let w := fresh "w" in
  intros w; unfold on_device; cbn;
  solve [ apply Rd_refl | apply Rd_server | apply Rd_mdns | apply Rd_sessions
        | apply Rd_mediaStatus | apply Rd_counter
        | apply Rd_sessionId | apply Rd_appRunning ].

Ltac frame leaf :=
  repeat first
    [ apply keeps_ret; [exact on_device_refl]
    | apply keeps_throw; [exact on_device_refl]
    | apply keeps_lift; [exact on_device_refl]
    | apply keeps_gets; [exact on_device_refl]
    | apply keeps_bind; [exact on_device_trans | | intros ?]
    | apply keeps_try_catch; [exact on_device_trans | | intros ?]
    | apply keeps_modify; leaf
    | match goal with
      | |- keeps _ (match ?x with _ => _ end) => destruct x
      | |- keeps _ (let '(_, _) := ?x in _) => destruct x
      end ].

Lemma _sendMediaStatus_keeps c s r ps : keeps R (_sendMediaStatus c s r ps).
Proof. unfold _sendMediaStatus. frame keeps_leaf. Qed.

Lemma _handleMediaLoad_keeps c s p : keeps R (_handleMediaLoad c s p).
Proof. unfold _handleMediaLoad. frame keeps_leaf. Qed.

(** The media handler touches neither the application state nor the
    session id. *)
Lemma _handleMedia_keeps c s d dt : keeps R (_handleMedia c s d dt).
Proof.
  unfold _handleMedia. frame keeps_leaf.
  all: first [apply _handleMediaLoad_keeps | apply _sendMediaStatus_keeps].
Qed.

Lemma _handleReceiver_keeps c s dt : keeps R (_handleReceiver c s dt).
Proof. unfold _handleReceiver. frame keeps_app_leaf. Qed.

Lemma _handleDeviceAuth_keeps c s dt : keeps R (_handleDeviceAuth c s dt).
Proof. unfold _handleDeviceAuth. frame keeps_leaf. Qed.

Lemma _onMessage_keeps msg : keeps R (_onMessage msg).
Proof.
  unfold _onMessage.
  repeat match goal with |- keeps _ (if ?b then _ else _) => destruct b end.
  - unfold _handleConnection. frame keeps_leaf.
  - unfold _handleHeartbeat. frame keeps_leaf.
  - apply _handleDeviceAuth_keeps.
  - apply _handleReceiver_keeps.
  - apply _handleMedia_keeps.
  - frame keeps_leaf.
Qed.

Lemma step_keeps i : keeps R (step i).
Proof.
  destruct i; cbn [step].
  - frame keeps_leaf.
  - frame keeps_leaf.
  - apply keeps_try_catch; [exact on_device_trans | apply _onMessage_keeps |].
    intros e. frame keeps_leaf.
  - unfold fire_timer, run_timer. frame keeps_leaf.
  - unfold stop_device. frame keeps_leaf.
Qed.

Lemma process_keeps inputs : keeps R (process inputs).
Proof.
  induction inputs as [|i rest IH]; cbn [process].
  - apply keeps_ret. exact on_device_refl.
  - apply keeps_bind; [exact on_device_trans | apply step_keeps | intros; exact IH].
Qed.

End DeviceKeeps.

(** ** Media loading *)

Ltac send_cases :=
  repeat (cbn;
    match goal with
    | |- context [match frame ?e ?m with _ => _ end] => destruct (frame e m)
    | |- context [match _clients ?s !! ?c with _ => _ end] => destruct (_clients s !! c)
    | |- context [match ?s with Some _ => _ | None => _ end] => is_var s; destruct s
    end); cbn.

(** A payload passes the guard of [_handleMediaLoad] exactly when it is an
    object whose [media] is an object with a truthy [contentId]. *)
Lemma load_guard_inv (payload : value) :
  load_guard payload = true ->
  exists fields mfields,
    payload = JObj fields
    /\ lookup_prop "media" fields = JObj mfields
    /\ truthy (lookup_prop "contentId" mfields) = true.
Proof.
  unfold load_guard.
  destruct payload as [| | | | |items|fields]; cbn; try discriminate.
  destruct (lookup_prop "media" fields) as [| |b|q|str|items|mfields] eqn:Em; cbn;
    rewrite ?andb_false_r; try discriminate.
  intros Hc. exists fields, mfields. auto.
Qed.

(** An accepted payload passes the guard, and the two values of the log
    line can be converted to text. *)
Lemma load_accepted_inv (payload : value) :
  load_accepted payload = true ->
  exists fields mfields,
    payload = JObj fields
    /\ lookup_prop "media" fields = JObj mfields
    /\ truthy (lookup_prop "contentId" mfields) = true
    /\ printable (lookup_prop "contentId" mfields) = true
    /\ printable (or_else (lookup_prop "contentType" mfields) (JStr "unknown")) = true.
Proof.
  unfold load_accepted. intros [Hguard Hprint]%andb_prop.
  destruct (load_guard_inv payload Hguard) as (fields & mfields & -> & Hm & Hc).
  cbn in Hprint. rewrite Hm in Hprint. cbn in Hprint.
  apply andb_prop in Hprint as [Hp1 Hp2].
  exists fields, mfields. auto.
Qed.

(** What an accepted [LOAD] does to the receiver and its listeners, whether
    or not the status reply can be sent. *)
Lemma _handleMediaLoad_accepted `{Platform} (w : World) (c s : string)
    (fields mfields : list (string * value)) :
  lookup_prop "media" fields = JObj mfields ->
  truthy (lookup_prop "contentId" mfields) = true ->
  printable (lookup_prop "contentId" mfields) = true ->
  printable (or_else (lookup_prop "contentType" mfields) (JStr "unknown")) = true ->
  let w' := (_handleMediaLoad c s (JObj fields) w).2 in
  let id := js_increment (_mediaRequestId (device w)) in
  _mediaRequestId (device w') = id
  /\ _mediaStatus (device w') = Some (loaded_status id fields mfields)
  /\ _appRunning (device w') = _appRunning (device w)
  /\ emitted w' = emitted w ++ [load (load_event (speakerIp (props (device w))) fields mfields)].
Proof.
  intros Hmedia Hcid Hp1 Hp2.
  destruct w as [[p srv0 mdns sess rid sid app ms] em con tm us uu].
  unfold _handleMediaLoad, _sendMediaStatus, server_send, send, log, emit, setTimeout,
    interpolate.
  unfold_monad. cbn.
  rewrite Hmedia. cbn. rewrite Hcid. cbn. rewrite Hp1, Hp2.
  send_cases; repeat split; reflexivity.
Qed.

(** A [LOAD] that passes the guard but whose log line cannot be built
    throws before anything is stored, emitted or sent. *)
Lemma _handleMediaLoad_unprintable `{Platform} (w : World) (c s : string)
    (payload : value) :
  load_guard payload = true ->
  load_accepted payload = false ->
  _handleMediaLoad c s payload w
  = (Throw (TypeError "Cannot convert object to primitive value"), w).
Proof.
  intros Hguard Hacc.
  destruct (load_guard_inv payload Hguard) as (fields & mfields & -> & Hm & Hc).
  unfold load_accepted in Hacc. rewrite Hguard in Hacc. cbn in Hacc.
  rewrite Hm in Hacc. cbn in Hacc.
  unfold _handleMediaLoad, interpolate. unfold_monad. cbn.
  rewrite Hm. cbn. rewrite Hc. cbn.
  destruct (printable (lookup_prop "contentId" mfields)); [|reflexivity].
  cbn in Hacc. rewrite Hacc. reflexivity.
Qed.

(** C5. Monotonic media session id: of two accepted [LOAD]s on one
    receiver, with any turns of the receiver between them (other messages,
    relaunches and stops included), the later one assigns a strictly greater
    [mediaSessionId], as long as the counter is below 2^53, the range in
    which a JavaScript number counts exactly. *)
Theorem mediaSessionId_strictly_increases `{Platform} (w0 : World)
    (c1 s1 : string) (p1 : value) (inputs : list Input)
    (c2 s2 : string) (p2 : value) :
  let w1 := (_handleMediaLoad c1 s1 p1 w0).2 in
  let w2 := (process inputs w1).2 in
  let w3 := (_handleMediaLoad c2 s2 p2 w2).2 in
  load_accepted p1 = true ->
  load_accepted p2 = true ->
  (_mediaRequestId (device w2) < 9007199254740992)%Z ->
  exists ms1 ms3,
    _mediaStatus (device w1) = Some ms1
    /\ _mediaStatus (device w3) = Some ms3
    /\ (mediaSessionId ms1 < mediaSessionId ms3)%Z.
Proof.
  intros w1 w2 w3 H1 H2 Hsafe.
  apply load_accepted_inv in H1 as (f1 & m1 & -> & Hm1 & Hc1 & Hp1 & Hq1).
  apply load_accepted_inv in H2 as (f2 & m2 & -> & Hm2 & Hc2 & Hp2 & Hq2).
  destruct (_handleMediaLoad_accepted w0 c1 s1 f1 m1 Hm1 Hc1 Hp1 Hq1) as (Hid1 & Hst1 & _).
  destruct (_handleMediaLoad_accepted w2 c2 s2 f2 m2 Hm2 Hc2 Hp2 Hq2) as (_ & Hst3 & _).
  fold w1 in Hid1, Hst1. fold w3 in Hst3.
  assert (Hmono : (_mediaRequestId (device w1) <= _mediaRequestId (device w2))%Z).
  { apply (process_keeps
             (fun d d' => (_mediaRequestId d <= _mediaRequestId d')%Z)); cbn;
      try (intros; lia).
    intros d. unfold js_increment. destruct (_ <? _)%Z; lia. }
  eexists _, _. split; [exact Hst1|]. split; [exact Hst3|]. cbn.
  rewrite <- Hid1.
  unfold js_increment at 1.
  destruct (Z.ltb_spec (_mediaRequestId (device w2)) 9007199254740992); lia.
Qed.

(** Two loads with a pause, a stop of the application and a relaunch
    between them: the ids are 1 and 2. *)
Lemma mediaSessionId_strictly_increases_witness :
  let w0 := (process (H := TestBench.unsigned) [Connect] TestBench.fresh_world).2 in
  let between :=
    [Message (TestBench.from_client CASTV2_NS_MEDIA TestBench.PAUSE_payload);
     Message (TestBench.from_client CASTV2_NS_RECEIVER TestBench.STOP_payload);
     Message (TestBench.from_client CASTV2_NS_RECEIVER TestBench.LAUNCH_payload)] in
  let w1 := (_handleMediaLoad (H := TestBench.unsigned)
               "client-1" "sender-0" TestBench.LOAD_payload w0).2 in
  let w2 := (process (H := TestBench.unsigned) between w1).2 in
  let w3 := (_handleMediaLoad (H := TestBench.unsigned)
               "client-1" "sender-0" TestBench.LOAD_again_payload w2).2 in
  exists ms1 ms3,
    _mediaStatus (device w1) = Some ms1
    /\ _mediaStatus (device w3) = Some ms3
    /\ (mediaSessionId ms1 < mediaSessionId ms3)%Z.
Proof.
  intros w0 between.
  apply (mediaSessionId_strictly_increases (H := TestBench.unsigned) w0
           "client-1" "sender-0" TestBench.LOAD_payload between
           "client-1" "sender-0" TestBench.LOAD_again_payload).
  - reflexivity.
  - reflexivity.
  - vm_compute. reflexivity.
Defined.

(** C9. Implicit autoplay default: for a [LOAD] whose payload carries a
    usable [media.contentId], every [load] event the handler emits has its
    [autoplay] flag [false] only when the payload's [autoplay] property is
    the boolean [false]; an absent property, [null], and every other value
    give [true]. The handler emits exactly one such event when the [LOAD]
    goes through, and nothing but [load] events. *)
Theorem load_autoplay_default `{Platform} (w : World) (c s : string)
    (payload : value) :
  load_guard payload = true ->
  exists (autoplay : value) (added : list Event),
    get payload "autoplay" = Normal autoplay
    /\ emitted (_handleMediaLoad c s payload w).2 = emitted w ++ added
    /\ (forall e : LoadEvent,
          load e ∈ added ->
          load_autoplay e = match autoplay with
                            | JBool false => false
                            | _ => true
                            end)
    /\ (load_accepted payload = true -> exists e : LoadEvent, added = [load e]).
Proof.
  intros Hguard.
  destruct (load_guard_inv payload Hguard) as (fields & mfields & Hpayload & Hm & Hc).
  exists (lookup_prop "autoplay" fields).
  destruct (load_accepted payload) eqn:Hacc.
  - apply load_accepted_inv in Hacc as (f & m & -> & Hm' & Hc' & Hp & Hq).
    destruct (_handleMediaLoad_accepted w c s f m Hm' Hc' Hp Hq) as (_ & _ & _ & Hev).
    exists [load (load_event (speakerIp (props (device w))) f m)].
    split; [injection Hpayload as <-; reflexivity|]. split; [exact Hev|]. split.
    + intros e [= ->]%list_elem_of_singleton. injection Hpayload as <-. reflexivity.
    + intros _. eexists. reflexivity.
  - exists []. split; [subst payload; reflexivity|].
    rewrite (_handleMediaLoad_unprintable w c s payload Hguard Hacc).
    split; [now rewrite app_nil_r|]. split; [|discriminate].
    intros e He. inversion He.
Qed.

(** A payload without an [autoplay] property: one event, and the flag is
    [true]. *)
Lemma load_autoplay_default_witness :
  exists e : LoadEvent,
    emitted (_handleMediaLoad (H := TestBench.unsigned) "client-1" "sender-0"
               TestBench.LOAD_payload TestBench.fresh_world).2
    = [load e]
    /\ load_autoplay e = true.
Proof.
  destruct (load_autoplay_default (H := TestBench.unsigned) TestBench.fresh_world
              "client-1" "sender-0" TestBench.LOAD_payload eq_refl)
    as (autoplay & added & Hget & Hemitted & Hflag & Haccepted).
  injection Hget as <-.
  destruct (Haccepted eq_refl) as [e ->].
  exists e. split; [exact Hemitted|].
  apply Hflag. apply list_elem_of_singleton. reflexivity.
Defined.

(** A frame that can be delivered is written on the client's socket. *)
Lemma server_send_delivered `{Platform} (w : World)
    (c src dst ns : string) (dt : Data) srv client buf :
  _server (device w) = Some srv ->
  _clients srv !! c = Some client ->
  frame cast_encode (envelope src dst ns dt) = Some buf ->
  server_send c src dst ns dt w = (Normal tt, with_device (after_write c buf) w).
Proof.
  intros Hsrv Hclient Hframe.
  destruct w as [[p srv0 mdns sess rid sid app ms] em con tm us uu].
  cbn in Hsrv. subst srv0.
  unfold server_send, send, after_write, with_device. unfold_monad. cbn.
  rewrite Hclient, Hframe. reflexivity.
Qed.

(** What [_sendMediaStatus] does to the receiver, whether or not the
    message can be sent. *)
Lemma _sendMediaStatus_state `{Platform} (w : World) (c s : string)
    (r : value) (ps : option PlayerState) :
  let w' := (_sendMediaStatus c s r ps w).2 in
  _mediaStatus (device w') = status_after ps (_mediaStatus (device w))
  /\ _appRunning (device w') = _appRunning (device w)
  /\ emitted w' = emitted w
  /\ timers w' = timers w.
Proof.
  destruct w as [[p srv0 mdns sess rid sid app ms] em con tm us uu].
  unfold _sendMediaStatus, server_send, send. unfold_monad.
  destruct ms as [ms|], ps as [ps|]; send_cases; repeat split; reflexivity.
Qed.

Lemma _sendMediaStatus_delivered `{Platform} (w : World) (c s : string)
    (r : value) (ps : option PlayerState) srv client buf :
  _server (device w) = Some srv ->
  _clients srv !! c = Some client ->
  media_status_frame (_transportId (props (device w))) s r
    (status_after ps (_mediaStatus (device w))) = Some buf ->
  _sendMediaStatus c s r ps w
  = (Normal tt,
     with_device (after_write c buf)
       (with_device (set_mediaStatus (status_after ps (_mediaStatus (device w)))) w)).
Proof.
  intros Hsrv Hclient Hframe.
  destruct w as [[p srv0 mdns sess rid sid app ms] em con tm us uu].
  cbn in Hsrv. subst srv0. unfold media_status_frame in Hframe. cbn in Hframe.
  unfold _sendMediaStatus. unfold_monad.
  destruct ms as [ms|], ps as [ps|]; cbn in Hframe; cbn -[server_send];
    (erewrite server_send_delivered; [reflexivity| reflexivity | exact Hclient | exact Hframe]).
Qed.

(** Case analysis on the framing of a reply, given what it is known to
    be. *)
Ltac frame_link H :=
  match goal with
  | |- context [match frame ?e ?m with _ => _ end] =>
      let E := fresh "E" in
      let Hb := fresh "Hb" in
      destruct (frame e m) eqn:E;
      first [pose proof (eq_trans (eq_sym E) H) as Hb | pose proof H as Hb];
      [injection Hb as -> | discriminate Hb]
  end.

(** C6, as amended. A [LOAD] whose payload lacks a usable
    [media.contentId] only logs a warning: no reply, no event, no timer, no
    change of the receiver. A [LOAD] that goes through (the payload has a
    usable [media.contentId], and [media.contentId] and [media.contentType]
    can be converted to the text of the log line, as strings can), from a
    registered client of an attached server, stores a new record in state
    [BUFFERING] under the next session id, emits the [load] event built from
    the payload, writes the status reply with that record on the client's
    socket, and sets a timer of 500 ms. When a timer of this kind fires, a
    record that is still there is put in state [PLAYING] whatever its state
    was, none is created when there is none, and a status with request id 0
    is pushed to the client if it is still registered. *)
Theorem load_behaviour `{Platform} (w : World) (c s : string)
    (fields : list (string * value)) :
  (load_guard (JObj fields) = false ->
   _handleMediaLoad c s (JObj fields) w
   = (Normal tt, (log Log.warning "LOAD missing media.contentId" w).2))
  /\ (forall mfields srv client buf,
        lookup_prop "media" fields = JObj mfields ->
        load_accepted (JObj fields) = true ->
        _server (device w) = Some srv ->
        _clients srv !! c = Some client ->
        let id := js_increment (_mediaRequestId (device w)) in
        let status := loaded_status id fields mfields in
        media_status_frame (_transportId (props (device w))) s
          (lookup_prop "requestId" fields) (Some status) = Some buf ->
        let '(r, w') := _handleMediaLoad c s (JObj fields) w in
        r = Normal tt
        /\ device w' = after_write c buf
                         (set_mediaStatus (Some status)
                            (set_mediaRequestId id (device w)))
        /\ emitted w'
           = emitted w ++ [load (load_event (speakerIp (props (device w))) fields mfields)]
        /\ timers w'
           = timers w ++ [{| delay := 500; timer_clientId := c; timer_sourceId := s |}])
  /\ (forall t : Timer,
        let after := status_after (Some PLAYING) (_mediaStatus (device w)) in
        let w' := (run_timer t w).2 in
        _mediaStatus (device w') = after
        /\ emitted w' = emitted w
        /\ timers w' = timers w
        /\ forall srv client buf,
             _server (device w) = Some srv ->
             _clients srv !! timer_clientId t = Some client ->
             media_status_frame (_transportId (props (device w))) (timer_sourceId t)
               (JInt 0) after = Some buf ->
             (run_timer t w).1 = Normal tt
             /\ device w' = after_write (timer_clientId t) buf
                              (set_mediaStatus after (device w))).
Proof.
  split; [|split].
  - destruct w as [[p srv0 mdns sess rid sid app ms] em con tm us uu].
    unfold load_guard, _handleMediaLoad, log. unfold_monad. cbn.
    destruct (lookup_prop "media" fields) as [| |b|q|str|items|mfields]; cbn;
      rewrite ?andb_false_r; try reflexivity;
      try (destruct (negb _); reflexivity).
    intros ->. reflexivity.
  - intros mfields srv client buf Hmedia Hacc Hsrv Hclient id status Hframe.
    apply load_accepted_inv in Hacc as (f & m & [= <-] & Hm & Hcid & Hp & Hq).
    rewrite Hmedia in Hm. injection Hm as <-.
    destruct w as [[p srv0 mdns sess rid sid app ms] em con tm us uu].
    cbn in Hsrv. subst srv0. unfold media_status_frame in Hframe. cbn in Hframe.
    unfold _handleMediaLoad, _sendMediaStatus, server_send, send, log, emit,
      setTimeout, after_write, interpolate.
    unfold_monad. cbn.
    rewrite Hmedia. cbn. rewrite Hcid. cbn. rewrite Hp, Hq. cbn.
    rewrite Hclient.
    frame_link Hframe. cbn. repeat split; reflexivity.
  - intros t after w'. subst w'. unfold run_timer.
    destruct (_sendMediaStatus_state w
                (timer_clientId t) (timer_sourceId t) (JInt 0) (Some PLAYING))
      as (Hst & _ & Hem & Htm).
    do 3 (split; [assumption|]).
    intros srv client buf Hsrv Hclient Hframe.
    rewrite (_sendMediaStatus_delivered _ _ _ _ _ srv client buf Hsrv Hclient Hframe).
    split; reflexivity.
Qed.

(** The amended statement on a receiver with one connected client: the
    [LOAD] of the corpus without an [autoplay] property sets the timer of
    500 ms. *)
Lemma load_behaviour_witness :
  let w := (process (H := TestBench.unsigned) [Connect] TestBench.fresh_world).2 in
  timers (_handleMediaLoad (H := TestBench.unsigned) "client-1" "sender-0"
            TestBench.LOAD_payload w).2
  = [{| delay := 500; timer_clientId := "client-1"; timer_sourceId := "sender-0" |}].
Proof.
  intros w.
  pose (fields := [("type", JStr "LOAD"); ("requestId", JInt 2);
                   ("media", JObj [("contentId", JStr "http://x/a.mp3")])]).
  pose (srv := default listening_server (_server (device w))).
  pose (client := default {| socket := {| written := []; destroyed := true |};
                             reader := new_PacketReader |}
                    (_clients srv !! "client-1")).
  pose (buf := default []
         (media_status_frame (H := TestBench.unsigned) "transport-01234567" "sender-0"
            (JInt 2)
            (Some (loaded_status 1 fields [("contentId", JStr "http://x/a.mp3")])))).
  destruct (load_behaviour (H := TestBench.unsigned) w "client-1" "sender-0" fields)
    as (_ & Haccepted & _).
  specialize (Haccepted [("contentId", JStr "http://x/a.mp3")] srv client buf
                eq_refl eq_refl ltac:(vm_compute; reflexivity)
                ltac:(vm_compute; reflexivity) ltac:(vm_compute; reflexivity)).
  change TestBench.LOAD_payload with (JObj fields).
  destruct (_handleMediaLoad "client-1" "sender-0" (JObj fields) w) as [r w'].
  destruct Haccepted as (_ & _ & _ & Htimers). exact Htimers.
Defined.

(** What the source does with a [LOAD] that has a usable [contentId] and
    a [contentType] without a text: building the log line throws, and the
    [catch] of [_handleMedia] drops the message. The turn ends normally with
    the warning of the [catch] as the last log line; no record, no event, no
    timer and no reply. *)
Example load_unprintable_is_dropped :
  let w := TestBench.connected_world in
  let r := step (H := TestBench.controls)
             (Message (TestBench.from_client CASTV2_NS_MEDIA
                         TestBench.LOAD_unprintable_payload)) w in
  TestBench.parse_controls
    (data (TestBench.from_client CASTV2_NS_MEDIA TestBench.LOAD_unprintable_payload))
  = Normal TestBench.LOAD_unprintable_payload
  /\ load_guard TestBench.LOAD_unprintable_payload = true
  /\ r.1 = Normal tt
  /\ device r.2 = device w
  /\ emitted r.2 = []
  /\ timers r.2 = []
  /\ written_to "client-1" r.2 = []
  /\ List.last (console r.2) {| Log.level := Log.trace; Log.component := ""; Log.text := "" |}
     = {| Log.level := Log.warning; Log.component := "CastDevice";
          Log.text := "Failed to parse media message: Cannot convert object to primitive value" |}.
Proof. vm_compute. repeat split; reflexivity. Qed.

(** C6, as stated, fails: a [LOAD] is accepted, the application is stopped
    on the receiver namespace before the 500 ms are over, and the timer
    fires. The timer was pending, it is gone, nothing was thrown, and the
    receiver has no media status: the state did not become [PLAYING]. *)
Lemma load_then_stop_never_plays :
  let loaded := process (H := TestBench.unsigned)
    [Connect;
     Message (TestBench.from_client CASTV2_NS_RECEIVER TestBench.LAUNCH_payload);
     Message (TestBench.from_client CASTV2_NS_MEDIA TestBench.LOAD_payload)]
    TestBench.fresh_world in
  let fired := process (H := TestBench.unsigned)
    [Message (TestBench.from_client CASTV2_NS_RECEIVER TestBench.STOP_payload);
     TimerFires 0]
    loaded.2 in
  timers loaded.2
  = [{| delay := 500; timer_clientId := "client-1"; timer_sourceId := "sender-0" |}]
  /\ fired.1 = Normal tt
  /\ timers fired.2 = []
  /\ _mediaStatus (device fired.2) = None
  /\ ~ (exists ms, _mediaStatus (device fired.2) = Some ms /\ playerState ms = PLAYING).
Proof.
  vm_compute. repeat split; try reflexivity.
  intros (ms & Hms & _). discriminate.
Qed.

(** ** Commands on the media and receiver namespaces *)

Lemma _onMessage_media `{Platform} (msg : MessageEvent) :
  namespace msg = CASTV2_NS_MEDIA ->
  _onMessage msg
  = _handleMedia (clientId msg) (msg_sourceId msg) (msg_destinationId msg) (data msg).
Proof. intros Hns. unfold _onMessage. rewrite Hns. reflexivity. Qed.

Lemma _onMessage_receiver `{Platform} (msg : MessageEvent) :
  namespace msg = CASTV2_NS_RECEIVER ->
  _onMessage msg = _handleReceiver (clientId msg) (msg_sourceId msg) (data msg).
Proof. intros Hns. unfold _onMessage. rewrite Hns. reflexivity. Qed.

(** [PLAY], [PAUSE], [STOP] and [SEEK] on the media namespace: the event is
    emitted, a record that is there takes the state of the command, and
    nothing else of the receiver changes. *)
Lemma _handleMedia_command `{Platform} (w : World) (c s d : string) (data : Data)
    (fields : list (string * value)) (type : string) (ev : Event) (st : PlayerState) :
  JSON_parse data = Normal (JObj fields) ->
  lookup_prop "type" fields = JStr type ->
  command_effect (speakerIp (props (device w))) fields type = Some (ev, st) ->
  let r := _handleMedia c s d data w in
  r.1 = Normal tt
  /\ emitted r.2 = emitted w ++ [ev]
  /\ _mediaStatus (device r.2) = status_after (Some st) (_mediaStatus (device w))
  /\ _appRunning (device r.2) = _appRunning (device w)
  /\ timers r.2 = timers w.
Proof.
  intros Hparse Htype Heffect.
  destruct w as [[p srv0 mdns sess rid sid app ms] em con tm us uu].
  unfold command_effect in Heffect. cbn in Heffect.
  unfold _handleMedia, _sendMediaStatus, server_send, send, log, emit.
  unfold_monad. cbn. rewrite Hparse. cbn. rewrite Htype.
  destruct (String.eqb_spec type "PLAY") as [->|_];
    [|destruct (String.eqb_spec type "PAUSE") as [->|_];
      [|destruct (String.eqb_spec type "STOP") as [->|_];
        [|destruct (String.eqb_spec type "SEEK") as [->|_]; [|discriminate]]]];
    injection Heffect as <- <-;
    destruct ms as [ms|]; send_cases; repeat split; reflexivity.
Qed.

(** [STOP] on the receiver namespace. *)
Lemma _handleReceiver_stop `{Platform} (w : World) (c s : string) (data : Data)
    (fields : list (string * value)) :
  JSON_parse data = Normal (JObj fields) ->
  lookup_prop "type" fields = JStr "STOP" ->
  let r := _handleReceiver c s data w in
  r.1 = Normal tt
  /\ _appRunning (device r.2) = false
  /\ _mediaStatus (device r.2) = None
  /\ emitted r.2 = emitted w ++ [stop (speakerIp (props (device w)))].
Proof.
  intros Hparse Htype.
  destruct w as [[p srv0 mdns sess rid sid app ms] em con tm us uu].
  unfold _handleReceiver, _handleStop, _sendReceiverStatus, server_send, send, log, emit.
  unfold_monad. cbn. rewrite Hparse. cbn. rewrite Htype.
  send_cases; repeat split; reflexivity.
Qed.

(** C3, as amended. A [STOP] on the receiver namespace leaves the receiver
    with no running application and no media status, from every state. A
    [STOP] on the media namespace leaves the application state as it was and
    keeps a media-status record that is there, in state [IDLE]. Both emit
    the [stop] event. *)
Theorem stop_by_namespace `{Platform} (w : World) (msg : MessageEvent)
    (fields : list (string * value)) :
  JSON_parse (data msg) = Normal (JObj fields) ->
  lookup_prop "type" fields = JStr "STOP" ->
  let w' := (_onMessage msg w).2 in
  (namespace msg = CASTV2_NS_RECEIVER ->
   _appRunning (device w') = false
   /\ _mediaStatus (device w') = None
   /\ emitted w' = emitted w ++ [stop (speakerIp (props (device w)))])
  /\ (namespace msg = CASTV2_NS_MEDIA ->
      _appRunning (device w') = _appRunning (device w)
      /\ _mediaStatus (device w') = status_after (Some IDLE) (_mediaStatus (device w))
      /\ emitted w' = emitted w ++ [stop (speakerIp (props (device w)))]).
Proof.
  intros Hparse Htype w'. subst w'. split; intros Hns.
  - rewrite (_onMessage_receiver msg Hns).
    destruct (_handleReceiver_stop w (clientId msg) (msg_sourceId msg) (data msg)
                fields Hparse Htype) as (_ & Happ & Hms & Hev).
    auto.
  - rewrite (_onMessage_media msg Hns).
    destruct (_handleMedia_command w (clientId msg) (msg_sourceId msg)
                (msg_destinationId msg) (data msg) fields "STOP"
                (stop (speakerIp (props (device w)))) IDLE Hparse Htype eq_refl)
      as (_ & Hev & Hms & Happ & _).
    auto.
Qed.

(** The amended statement at a [STOP] on the receiver namespace after a
    launch and a load. *)
Lemma stop_by_namespace_witness :
  let w := (process (H := TestBench.unsigned)
              [Connect;
               Message (TestBench.from_client CASTV2_NS_RECEIVER TestBench.LAUNCH_payload);
               Message (TestBench.from_client CASTV2_NS_MEDIA TestBench.LOAD_payload)]
              TestBench.fresh_world).2 in
  let w' := (_onMessage (H := TestBench.unsigned)
               (TestBench.from_client CASTV2_NS_RECEIVER TestBench.STOP_payload) w).2 in
  _appRunning (device w) = true
  /\ _appRunning (device w') = false
  /\ _mediaStatus (device w') = None.
Proof.
  intros w w'.
  destruct (stop_by_namespace (H := TestBench.unsigned) w
              (TestBench.from_client CASTV2_NS_RECEIVER TestBench.STOP_payload)
              [("type", JStr "STOP"); ("requestId", JInt 6)]
              ltac:(vm_compute; reflexivity) eq_refl) as (Hreceiver & _).
  destruct (Hreceiver eq_refl) as (Happ & Hms & _).
  split; [vm_compute; reflexivity|]. split; assumption.
Defined.

(** C3, as stated, fails for the media namespace: after a launch and a
    load, a media [STOP] leaves the application running and the media-status
    record in place. *)
Lemma media_stop_keeps_application :
  let w := (process (H := TestBench.unsigned)
              [Connect;
               Message (TestBench.from_client CASTV2_NS_RECEIVER TestBench.LAUNCH_payload);
               Message (TestBench.from_client CASTV2_NS_MEDIA TestBench.LOAD_payload)]
              TestBench.fresh_world).2 in
  let w' := (_onMessage (H := TestBench.unsigned)
               (TestBench.from_client CASTV2_NS_MEDIA TestBench.STOP_payload) w).2 in
  TestBench.parse (data (TestBench.from_client CASTV2_NS_MEDIA TestBench.STOP_payload))
  = Normal TestBench.STOP_payload
  /\ _appRunning (device w') = true
  /\ (exists ms, _mediaStatus (device w') = Some ms /\ playerState ms = IDLE)
  /\ ~ (_appRunning (device w') = false /\ _mediaStatus (device w') = None).
Proof.
  vm_compute. split; [reflexivity|]. split; [reflexivity|].
  split; [eexists; split; reflexivity|]. intros [? _]. discriminate.
Qed.

(** C4, as amended. A [SEEK] on the media namespace emits the [seek] event
    with the payload's [currentTime] and puts a media-status record that is
    there in state [PLAYING], whatever its state was; the other fields of
    the record, the application state and the timers stay as they were, and
    no record is created when there is none. *)
Theorem seek_forces_playing `{Platform} (w : World) (msg : MessageEvent)
    (fields : list (string * value)) :
  namespace msg = CASTV2_NS_MEDIA ->
  JSON_parse (data msg) = Normal (JObj fields) ->
  lookup_prop "type" fields = JStr "SEEK" ->
  let w' := (_onMessage msg w).2 in
  emitted w'
  = emitted w ++ [seek (speakerIp (props (device w))) (lookup_prop "currentTime" fields)]
  /\ _mediaStatus (device w')
     = match _mediaStatus (device w) with
       | Some ms => Some (set_playerState PLAYING ms)
       | None => None
       end
  /\ _appRunning (device w') = _appRunning (device w)
  /\ timers w' = timers w.
Proof.
  intros Hns Hparse Htype w'. subst w'.
  rewrite (_onMessage_media msg Hns).
  destruct (_handleMedia_command w (clientId msg) (msg_sourceId msg)
              (msg_destinationId msg) (data msg) fields "SEEK"
              (seek (speakerIp (props (device w))) (lookup_prop "currentTime" fields))
              PLAYING Hparse Htype eq_refl)
    as (_ & Hev & Hms & Happ & Htm).
  repeat split; try assumption.
  rewrite Hms. destruct (_mediaStatus (device w)); reflexivity.
Qed.

(** The amended statement at a [SEEK] that follows a [PAUSE]. *)
Lemma seek_forces_playing_witness :
  let w := (process (H := TestBench.unsigned)
              [Connect;
               Message (TestBench.from_client CASTV2_NS_RECEIVER TestBench.LAUNCH_payload);
               Message (TestBench.from_client CASTV2_NS_MEDIA TestBench.LOAD_payload);
               Message (TestBench.from_client CASTV2_NS_MEDIA TestBench.PAUSE_payload)]
              TestBench.fresh_world).2 in
  let w' := (_onMessage (H := TestBench.unsigned)
               (TestBench.from_client CASTV2_NS_MEDIA TestBench.SEEK_payload) w).2 in
  emitted w' = emitted w ++ [seek "192.168.1.66" (JInt 30)].
Proof.
  intros w w'.
  destruct (seek_forces_playing (H := TestBench.unsigned) w
              (TestBench.from_client CASTV2_NS_MEDIA TestBench.SEEK_payload)
              [("type", JStr "SEEK"); ("requestId", JInt 5); ("currentTime", JInt 30)]
              eq_refl ltac:(vm_compute; reflexivity) eq_refl) as (Hev & _).
  exact Hev.
Defined.

(** C4, as stated, fails: the record is [PAUSED] after a [PAUSE], and the
    [SEEK] that follows leaves it [PLAYING]. *)
Lemma seek_resumes_paused_record :
  let w := (process (H := TestBench.unsigned)
              [Connect;
               Message (TestBench.from_client CASTV2_NS_RECEIVER TestBench.LAUNCH_payload);
               Message (TestBench.from_client CASTV2_NS_MEDIA TestBench.LOAD_payload);
               Message (TestBench.from_client CASTV2_NS_MEDIA TestBench.PAUSE_payload)]
              TestBench.fresh_world).2 in
  let w' := (_onMessage (H := TestBench.unsigned)
               (TestBench.from_client CASTV2_NS_MEDIA TestBench.SEEK_payload) w).2 in
  exists ms ms',
    _mediaStatus (device w) = Some ms
    /\ playerState ms = PAUSED
    /\ _mediaStatus (device w') = Some ms'
    /\ playerState ms' = PLAYING
    /\ playerState ms' <> playerState ms.
Proof.
  vm_compute. eexists _, _. repeat split; try reflexivity. discriminate.
Qed.

(** ** The media namespace and the application state *)

Section MediaCommutes.
Context `{Platform}.
Variable b : bool.

Local Abbreviation flip := (with_device (set_appRunning b)).

Ltac commute :=
  repeat first
    [ apply commutes_ret
    | apply commutes_throw
    | apply commutes_lift
    | apply commutes_gets; intros ?; reflexivity
    | apply commutes_modify; intros ?; reflexivity
    | apply commutes_bind; [|intros ?]
    | apply commutes_try_catch; [|intros ?]
    | match goal with
      | |- commutes _ (match ?x with _ => _ end) => destruct x
      end ].

Lemma server_send_commutes c src dst ns dt :
  commutes flip (server_send c src dst ns dt).
Proof. unfold server_send. commute. Qed.

Lemma _sendMediaStatus_commutes c s r ps :
  commutes flip (_sendMediaStatus c s r ps).
Proof. unfold _sendMediaStatus. commute. Qed.

Lemma _handleMediaLoad_commutes c s p :
  commutes flip (_handleMediaLoad c s p).
Proof. unfold _handleMediaLoad. commute. Qed.

(** The media handler never reads [_appRunning]: setting the field before
    the handler runs or after it gives the same outcome and the same world. *)
Lemma _handleMedia_commutes c s d dt :
  commutes flip (_handleMedia c s d dt).
Proof. unfold _handleMedia. commute. Qed.

End MediaCommutes.

(** An accepted [LOAD] through [_handleMedia]. *)
Lemma _handleMedia_load `{Platform} (w : World) (c s d : string) (data : Data)
    (fields mfields : list (string * value)) :
  JSON_parse data = Normal (JObj fields) ->
  lookup_prop "type" fields = JStr "LOAD" ->
  lookup_prop "media" fields = JObj mfields ->
  load_accepted (JObj fields) = true ->
  let r := _handleMedia c s d data w in
  let id := js_increment (_mediaRequestId (device w)) in
  let status := loaded_status id fields mfields in
  r.1 = Normal tt
  /\ emitted r.2
     = emitted w ++ [load (load_event (speakerIp (props (device w))) fields mfields)]
  /\ _mediaStatus (device r.2) = Some status
  /\ forall srv client buf,
       _server (device w) = Some srv ->
       _clients srv !! c = Some client ->
       media_status_frame (_transportId (props (device w))) s
         (lookup_prop "requestId" fields) (Some status) = Some buf ->
       device r.2 = after_write c buf
                      (set_mediaStatus (Some status) (set_mediaRequestId id (device w))).
Proof.
  intros Hparse Htype Hmedia Hacc.
  apply load_accepted_inv in Hacc as (f & m & [= <-] & Hm & Hcid & Hp & Hq).
  rewrite Hmedia in Hm. injection Hm as <-.
  destruct w as [[p srv0 mdns sess rid sid app ms] em con tm us uu].
  unfold _handleMedia, _handleMediaLoad, _sendMediaStatus, server_send, send,
    log, emit, setTimeout, interpolate, after_write, media_status_frame.
  unfold_monad. cbn. rewrite Hparse. cbn. rewrite Htype. cbn.
  rewrite Hmedia. cbn. rewrite Hcid. cbn. rewrite Hp, Hq. cbn.
  split; [send_cases; reflexivity|].
  split; [send_cases; reflexivity|].
  split; [send_cases; reflexivity|].
  intros srv client buf [= ->] Hclient Hframe. cbn. rewrite Hclient.
  frame_link Hframe. reflexivity.
Qed.

(** The reply of [PLAY], [PAUSE], [STOP] and [SEEK] on the media
    namespace, when it can be delivered: the status with the record in the
    state of the command, on the socket of the client. Nothing else of the
    receiver changes. *)
Lemma _handleMedia_command_reply `{Platform} (w : World) (c s d : string)
    (data : Data) (fields : list (string * value)) (type : string) (ev : Event)
    (st : PlayerState) srv client buf :
  JSON_parse data = Normal (JObj fields) ->
  lookup_prop "type" fields = JStr type ->
  command_effect (speakerIp (props (device w))) fields type = Some (ev, st) ->
  _server (device w) = Some srv ->
  _clients srv !! c = Some client ->
  let after := status_after (Some st) (_mediaStatus (device w)) in
  media_status_frame (_transportId (props (device w))) s
    (lookup_prop "requestId" fields) after = Some buf ->
  device (_handleMedia c s d data w).2
  = after_write c buf (set_mediaStatus after (device w)).
Proof.
  intros Hparse Htype Heffect Hsrv Hclient after Hframe. subst after.
  destruct w as [[p srv0 mdns sess rid sid app ms] em con tm us uu].
  cbn in Hsrv. subst srv0.
  unfold command_effect in Heffect. cbn in Heffect.
  unfold media_status_frame in Hframe. cbn in Hframe.
  unfold _handleMedia, _sendMediaStatus, server_send, send, log, emit, interpolate,
    after_write.
  unfold_monad. cbn. rewrite Hparse. cbn. rewrite Htype.
  destruct (String.eqb_spec type "PLAY") as [->|_];
    [|destruct (String.eqb_spec type "PAUSE") as [->|_];
      [|destruct (String.eqb_spec type "STOP") as [->|_];
        [|destruct (String.eqb_spec type "SEEK") as [->|_]; [|discriminate]]]];
    injection Heffect as <- <-;
    destruct ms as [ms|]; cbn in Hframe; cbn; rewrite Hclient;
    frame_link Hframe; reflexivity.
Qed.

(** C10. Media-namespace messages are handled without an application-state
    precondition. Handling any media-namespace message in a world gives the
    same completion, and the same world up to the field itself, whatever
    [_appRunning] is set to beforehand, and it leaves [_appRunning]
    unchanged. Whatever [_appRunning] is, [PLAY], [PAUSE], [STOP] and
    [SEEK] emit their event, set the state of a record that is there, and
    reply to a registered client with the status in that state; and a
    [LOAD] that goes through emits its event, creates the record under the
    next session id, and replies with that record. *)
Theorem media_ignores_appRunning `{Platform} (w : World) (b : bool)
    (c s d : string) (data : Data) :
  let handle := _handleMedia c s d data in
  handle (with_device (set_appRunning b) w)
  = ((handle w).1, with_device (set_appRunning b) (handle w).2)
  /\ _appRunning (device (handle w).2) = _appRunning (device w)
  /\ (forall fields type ev st,
        JSON_parse data = Normal (JObj fields) ->
        lookup_prop "type" fields = JStr type ->
        command_effect (speakerIp (props (device w))) fields type = Some (ev, st) ->
        let after := status_after (Some st) (_mediaStatus (device w)) in
        emitted (handle w).2 = emitted w ++ [ev]
        /\ _mediaStatus (device (handle w).2) = after
        /\ forall srv client buf,
             _server (device w) = Some srv ->
             _clients srv !! c = Some client ->
             media_status_frame (_transportId (props (device w))) s
               (lookup_prop "requestId" fields) after = Some buf ->
             device (handle w).2 = after_write c buf (set_mediaStatus after (device w)))
  /\ (forall fields mfields,
        JSON_parse data = Normal (JObj fields) ->
        lookup_prop "type" fields = JStr "LOAD" ->
        lookup_prop "media" fields = JObj mfields ->
        load_accepted (JObj fields) = true ->
        let id := js_increment (_mediaRequestId (device w)) in
        let status := loaded_status id fields mfields in
        emitted (handle w).2
        = emitted w ++ [load (load_event (speakerIp (props (device w))) fields mfields)]
        /\ _mediaStatus (device (handle w).2) = Some status
        /\ forall srv client buf,
             _server (device w) = Some srv ->
             _clients srv !! c = Some client ->
             media_status_frame (_transportId (props (device w))) s
               (lookup_prop "requestId" fields) (Some status) = Some buf ->
             device (handle w).2
             = after_write c buf
                 (set_mediaStatus (Some status) (set_mediaRequestId id (device w)))).
Proof.
  intros handle. subst handle. split; [|split; [|split]].
  - apply _handleMedia_commutes.
  - apply (_handleMedia_keeps (fun d d' => _appRunning d' = _appRunning d));
      cbn; congruence.
  - intros fields type ev st Hparse Htype Heffect after.
    destruct (_handleMedia_command w c s d data fields type ev st Hparse Htype Heffect)
      as (_ & Hev & Hms & _).
    split; [exact Hev|]. split; [exact Hms|].
    intros srv client buf Hsrv Hclient Hframe.
    exact (_handleMedia_command_reply w c s d data fields type ev st srv client buf
             Hparse Htype Heffect Hsrv Hclient Hframe).
  - intros fields mfields Hparse Htype Hmedia Hacc id status.
    destruct (_handleMedia_load w c s d data fields mfields Hparse Htype Hmedia Hacc)
      as (_ & Hev & Hms & Hreply).
    auto.
Qed.

(** A [PLAY] of the connected client on a freshly started receiver, where
    no application runs: the [play] event is emitted and the status reply,
    with an empty status list, is the one frame on the client's socket. *)
Lemma media_ignores_appRunning_witness :
  let w := (process (H := TestBench.unsigned) [Connect] TestBench.fresh_world).2 in
  let w' := (_handleMedia (H := TestBench.unsigned) "client-1" "sender-0" "receiver-0"
               (DString (TestBench.render TestBench.PLAY_payload)) w).2 in
  let buf := default []
               (media_status_frame (H := TestBench.unsigned) "transport-01234567"
                  "sender-0" (JInt 3) None) in
  _appRunning (device w) = false
  /\ emitted w' = emitted w ++ [play "192.168.1.66"]
  /\ written_to "client-1" w' = [buf].
Proof.
  intros w w' buf.
  pose (srv := default listening_server (_server (device w))).
  pose (client := default {| socket := {| written := []; destroyed := true |};
                             reader := new_PacketReader |}
                    (_clients srv !! "client-1")).
  destruct (media_ignores_appRunning (H := TestBench.unsigned) w true
              "client-1" "sender-0" "receiver-0"
              (DString (TestBench.render TestBench.PLAY_payload)))
    as (_ & _ & Hcommand & _).
  destruct (Hcommand [("type", JStr "PLAY"); ("requestId", JInt 3)] "PLAY"
              (play "192.168.1.66") PLAYING
              ltac:(vm_compute; reflexivity) eq_refl eq_refl) as (Hev & _ & Hreply).
  split; [vm_compute; reflexivity|]. split; [exact Hev|].
  specialize (Hreply srv client buf ltac:(vm_compute; reflexivity)
                ltac:(vm_compute; reflexivity) ltac:(vm_compute; reflexivity)).
  unfold written_to.
  replace (device w') with
    (after_write "client-1" buf (set_mediaStatus None (device w)))
    by (symmetry; exact Hreply).
  vm_compute. reflexivity.
Defined.

(** ** The delayed status push after [stop()] *)

(** With the protocol server detached, the callback of the timer sets the
    state of a record that is there and then fails on [this._server.send]:
    a TypeError leaves the callback. *)
Lemma run_timer_without_server `{Platform} (w : World) (t : Timer) :
  _server (device w) = None ->
  run_timer t w
  = (Throw (TypeError "Cannot read properties of null (reading 'send')"),
     with_device (set_mediaStatus (status_after (Some PLAYING) (_mediaStatus (device w)))) w).
Proof.
  intros Hsrv.
  destruct w as [[p srv0 mdns sess rid sid app ms] em con tm us uu].
  cbn in Hsrv. subst srv0.
  unfold run_timer, _sendMediaStatus, server_send. unfold_monad.
  destruct ms; reflexivity.
Qed.

(** C8, on the code: a load, then [stop()] within the 500 ms, then the
    timer. [stop()] returns normally and detaches the server, the timer is
    still pending after it, and when it fires its callback ends with a
    TypeError that nothing catches. No message is written, but the claim
    that no error is raised does not hold. *)
Lemma timer_after_stop_throws :
  let loaded := process (H := TestBench.unsigned)
    [Connect;
     Message (TestBench.from_client CASTV2_NS_RECEIVER TestBench.LAUNCH_payload);
     Message (TestBench.from_client CASTV2_NS_MEDIA TestBench.LOAD_payload)]
    TestBench.fresh_world in
  let stopped := step (H := TestBench.unsigned) Stop loaded.2 in
  let fired := step (H := TestBench.unsigned) (TimerFires 0) stopped.2 in
  loaded.1 = Normal tt
  /\ stopped.1 = Normal tt
  /\ _server (device stopped.2) = None
  /\ timers stopped.2
     = [{| delay := 500; timer_clientId := "client-1"; timer_sourceId := "sender-0" |}]
  /\ fired.1 = Throw (TypeError "Cannot read properties of null (reading 'send')")
  /\ timers fired.2 = [].
Proof. vm_compute. repeat split; reflexivity. Qed.

(** ** The identity store *)

Import DeviceRegistry.

Lemma _save_registry (r : DeviceRegistry) : _registry (_save r) = _registry r.
Proof. unfold _save. destruct (writable r); reflexivity. Qed.

(** After a call the speaker has an entry, and the identity returned is the
    one of the entry. *)
Lemma getOrCreateDevice_returns (ip name : string) (e : Entropy) (r : DeviceRegistry) :
  exists entry,
    _registry (getOrCreateDevice ip name e r).2 !! ip = Some entry
    /\ (getOrCreateDevice ip name e r).1
       = Some {| identity_deviceId := deviceId entry;
                 identity_certificate := certificate entry |}.
Proof.
  unfold getOrCreateDevice. cbn [fst snd].
  destruct (_registry r !! ip) as [entry|];
    rewrite _save_registry; cbn [_registry set_registry DeviceRegistry.log];
    rewrite lookup_insert_eq; eexists; split; reflexivity.
Qed.

(** C7. Idempotent identity: for every speaker key and every registry, two
    successive calls of [getOrCreateDevice] return the same device id and
    the same certificate (key and cert), whatever the random sources and
    the clock give the second time; and the second call changes the registry
    only in the [lastSeen] field of that speaker's entry. *)
Theorem getOrCreateDevice_idempotent (ip name1 name2 : string) (e1 e2 : Entropy)
    (r : DeviceRegistry) :
  let first := getOrCreateDevice ip name1 e1 r in
  let second := getOrCreateDevice ip name2 e2 first.2 in
  (exists identity, first.1 = Some identity /\ second.1 = Some identity)
  /\ (exists entry,
        _registry first.2 !! ip = Some entry
        /\ _registry second.2
           = <[ip := {| deviceId := deviceId entry;
                        certificate := certificate entry;
                        createdAt := createdAt entry;
                        lastSeen := now e2 0 |}]> (_registry first.2)).
Proof.
  intros first second.
  destruct (getOrCreateDevice_returns ip name1 e1 r) as (entry & Hentry & Hid1).
  fold first in Hentry, Hid1.
  assert (Hsecond : second
            = getOrCreateDevice ip name2 e2 first.2) by reflexivity.
  unfold getOrCreateDevice in Hsecond at 1. rewrite Hentry in Hsecond.
  rewrite _save_registry in Hsecond. cbn [_registry set_registry] in Hsecond.
  rewrite lookup_insert_eq in Hsecond.
  split.
  - eexists. split; [exact Hid1|]. rewrite Hsecond. reflexivity.
  - exists entry. split; [exact Hentry|]. rewrite Hsecond. cbn [snd].
    now rewrite _save_registry.
Qed.

(** ** More on the reader: arbitrary bodies and arbitrary input *)

Section ReaderBodies.
Local Open Scope N_scope.

Variable decode : bytes -> option CastMessage.

Local Abbreviation iteration := (iteration decode).
Local Abbreviation run := (run decode).
Local Abbreviation settled := (settled decode).

Lemma framed_inv (body f : bytes) :
  framed body = Some f ->
  exists header,
    writeUInt32BE (blength body) = Some header /\ f = header ++ body.
Proof.
  unfold framed. destruct (writeUInt32BE (blength body)) as [header|]; [|discriminate].
  intros [= <-]. eauto.
Qed.

(** One framed body at the head of the buffer of an idle reader is taken
    off in one pass, whether or not it decodes. *)
Lemma iteration_framed (body f rest : bytes) :
  framed body = Some f ->
  iteration {| _buffer := f ++ rest; _expectedLength := None |}
  = Continue (deliver decode body) {| _buffer := rest; _expectedLength := None |}.
Proof.
  intros Hf. apply framed_inv in Hf as (header & Ew & ->).
  pose proof (writeUInt32BE_length _ _ Ew) as Hlen.
  unfold CastProtocol.iteration. cbn [_buffer _expectedLength].
  rewrite <- app_assoc.
  rewrite (readUInt32BE_writeUInt32BE _ _ _ Ew).
  unfold blength at 1. rewrite length_app, Hlen.
  destruct (N.ltb_spec (N.of_nat (4 + length (body ++ rest))) 4); [lia|].
  unfold slice_from at 1. change (N.to_nat 4) with 4%nat.
  rewrite drop_app_length' by (symmetry; exact Hlen).
  unfold read_body, blength, slice_to, slice_from, deliver.
  rewrite length_app, Nat2N.id.
  destruct (N.ltb_spec (N.of_nat (length body + length rest))
              (N.of_nat (length body))); [lia|].
  rewrite take_app_length, drop_app_length.
  destruct (decode body); reflexivity.
Qed.

Lemma run_framed (bodies : list bytes) (frames : list bytes) (rest : bytes) :
  Forall2 (fun body f => framed body = Some f) bodies frames ->
  run {| _buffer := concat frames ++ rest; _expectedLength := None |}
  = (let '(evs, st) := run {| _buffer := rest; _expectedLength := None |} in
     (map (deliver decode) bodies ++ evs, st)).
Proof.
  intros Hframes. induction Hframes as [|body f bodies frames Hf _ IH].
  - cbn [concat map app].
    now destruct (run {| _buffer := rest; _expectedLength := None |}).
  - cbn [concat map]. rewrite <- app_assoc, run_unfold.
    rewrite (iteration_framed body f _ Hf), IH.
    destruct (run {| _buffer := rest; _expectedLength := None |}) as [evs st].
    reflexivity.
Qed.

Lemma feed_settled (chunks : list bytes) (st : PacketReader) :
  settled st -> settled (feed decode chunks st).2.
Proof.
  revert st. induction chunks as [|chunk rest IH]; intros st Hs; [exact Hs|].
  cbn [feed]. unfold _onData.
  pose proof (run_settled decode (append_chunk chunk st)) as Hs1.
  destruct (CastProtocol.run decode (append_chunk chunk st)) as [evs1 st1].
  specialize (IH st1 Hs1).
  destruct (feed decode rest st1) as [evs2 st2]. exact IH.
Qed.

(** What a settled reader holds: fewer than the four bytes of a header, or
    a length and fewer bytes than it announces. *)
Lemma settled_bound (st : PacketReader) :
  settled st ->
  match _expectedLength st with
  | None => (length (_buffer st) < 4)%nat
  | Some n => blength (_buffer st) < n
  end.
Proof.
  unfold CastProtocol.settled, CastProtocol.iteration.
  destruct st as [buf [n|]]; cbn [_buffer _expectedLength].
  - unfold read_body. destruct (N.ltb_spec (blength buf) n); [auto|].
    destruct (decode _); discriminate.
  - unfold blength. destruct (N.ltb_spec (N.of_nat (length buf)) 4) as [|Hfour]; [lia|].
    destruct buf as [|b0 [|b1 [|b2 [|b3 tl]]]]; cbn in Hfour; try lia.
    cbn [readUInt32BE]. intros Hb.
    apply read_body_break_settled in Hb as [[=] _].
Qed.

End ReaderBodies.

(** X1. A body that does not decode costs that one message only: for any
    sequence of bodies, each behind a header with its length, cut into
    chunks at arbitrary places, the reader hands over, in order, the decoded
    message of each body that decodes and a warning for each that does not,
    and ends with an empty buffer. *)
Theorem reader_survives_bad_bodies (decode : bytes -> option CastMessage)
    (bodies frames chunks : list bytes) :
  Forall2 (fun body f => framed body = Some f) bodies frames ->
  concat chunks = concat frames ->
  feed decode chunks new_PacketReader
  = (map (deliver decode) bodies, new_PacketReader).
Proof.
  intros Hframes Hcut.
  assert (Hnew : settled decode new_PacketReader) by reflexivity.
  rewrite (feed_concat decode chunks _ Hnew), Hcut.
  unfold _onData, append_chunk, new_PacketReader. cbn [_buffer _expectedLength app].
  rewrite <- (app_nil_r (concat frames)).
  rewrite (run_framed decode bodies frames [] Hframes).
  change (run decode {| _buffer := []; _expectedLength := None |}) with
    (@nil ReaderEvent, new_PacketReader).
  cbv beta iota. now rewrite app_nil_r.
Qed.

(** Four bodies, the second empty and the third no envelope, in three chunks. *)
Lemma reader_survives_bad_bodies_witness :
  feed TestBench.decode TestBench.mixed_chunks new_PacketReader
  = ([OnMessage TestBench.ping; DecodeWarning; DecodeWarning;
      OnMessage TestBench.challenge_envelope], new_PacketReader).
Proof.
  apply (reader_survives_bad_bodies TestBench.decode TestBench.mixed_bodies
           TestBench.mixed_frames TestBench.mixed_chunks).
  - repeat constructor.
  - vm_compute. reflexivity.
Defined.

(** X2. Only the byte stream counts: two ways of cutting the same bytes
    into chunks, well-formed or not, make the reader hand over the same
    events and leave it in the same state. *)
Theorem reader_chunking_independent (decode : bytes -> option CastMessage)
    (chunks1 chunks2 : list bytes) :
  concat chunks1 = concat chunks2 ->
  feed decode chunks1 new_PacketReader = feed decode chunks2 new_PacketReader.
Proof.
  intros Hsame.
  assert (Hnew : settled decode new_PacketReader) by reflexivity.
  rewrite !(feed_concat decode _ _ Hnew). now rewrite Hsame.
Qed.

(** The stream of two frames, frame by frame and in four chunks. *)
Lemma reader_chunking_independent_witness :
  feed TestBench.decode TestBench.two_frames new_PacketReader
  = feed TestBench.decode TestBench.four_chunks new_PacketReader.
Proof.
  apply (reader_chunking_independent TestBench.decode).
  vm_compute. reflexivity.
Defined.

(** X3. The reader keeps only the unconsumed tail: after any chunks at
    all, it holds either no length and fewer than four bytes, or a length
    and fewer bytes than that length. *)
Theorem reader_buffer_bounded (decode : bytes -> option CastMessage)
    (chunks : list bytes) :
  let st := (feed decode chunks new_PacketReader).2 in
  match _expectedLength st with
  | None => (length (_buffer st) < 4)%nat
  | Some n => (blength (_buffer st) < n)%N
  end.
Proof.
  intros st. apply (settled_bound decode).
  apply feed_settled. reflexivity.
Qed.

(** X4. Nothing is handed over before a frame is complete: a proper prefix
    of a framed body produces no event, and the rest of the frame then
    produces exactly the one event of the body. *)
Theorem reader_silent_until_complete (decode : bytes -> option CastMessage)
    (body f : bytes) (k : nat) :
  framed body = Some f ->
  k < length f ->
  (_onData decode (take k f) new_PacketReader).1 = []
  /\ feed decode [take k f; drop k f] new_PacketReader
     = ([deliver decode body], new_PacketReader).
Proof.
  intros Hf Hk. split.
  - apply framed_inv in Hf as (header & Ew & ->).
    pose proof (writeUInt32BE_length _ _ Ew) as Hlen.
    unfold _onData, append_chunk, new_PacketReader. cbn [_buffer _expectedLength app].
    rewrite run_unfold. unfold iteration. cbn [_buffer _expectedLength].
    unfold blength at 1. rewrite length_take, length_app, Hlen in *.
    destruct (N.ltb_spec (N.of_nat (k `min` (4 + length body))) 4) as [|Hfour];
      [reflexivity|].
    assert (Hk4 : 4 <= k) by lia.
    replace (take k (header ++ body)) with (header ++ take (k - 4) body)
      by (rewrite take_app, Hlen, (take_ge header) by lia; reflexivity).
    rewrite (readUInt32BE_writeUInt32BE _ _ _ Ew).
    unfold slice_from. change (N.to_nat 4) with 4%nat.
    rewrite drop_app_length' by (symmetry; exact Hlen).
    unfold read_body, blength. rewrite length_take.
    destruct (N.ltb_spec (N.of_nat ((k - 4) `min` length body))
                (N.of_nat (length body))); [reflexivity | lia].
  - assert (Hnew : settled decode new_PacketReader) by reflexivity.
    rewrite (feed_concat decode _ _ Hnew). cbn [concat].
    rewrite app_nil_r, take_drop.
    unfold _onData, append_chunk, new_PacketReader. cbn [_buffer _expectedLength app].
    assert (E : f = concat [f] ++ []) by (cbn [concat]; now rewrite !app_nil_r).
    rewrite E.
    rewrite (run_framed decode [body] [f] []) by (repeat constructor; exact Hf).
    reflexivity.
Qed.

(** A heartbeat frame cut after forty bytes. *)
Lemma reader_silent_until_complete_witness :
  let f := default [] (framed (TestBench.encode TestBench.ping)) in
  (_onData TestBench.decode (take 40 f) new_PacketReader).1 = []
  /\ feed TestBench.decode [take 40 f; drop 40 f] new_PacketReader
     = ([OnMessage TestBench.ping], new_PacketReader).
Proof.
  intros f.
  apply (reader_silent_until_complete TestBench.decode
           (TestBench.encode TestBench.ping) f 40).
  - vm_compute. reflexivity.
  - vm_compute. lia.
Defined.

(** ** From [send] to the ['message'] event of a peer *)

Lemma message_event_envelope (peer : string) (o : Outgoing) :
  message_event peer (envelope_of o) = received_as peer o.
Proof. destruct o as [s d ns [text|buf]]; reflexivity. Qed.

(** The frames a run of [send]s leaves on the client's socket. *)
Lemma send_all_written encode c (outs : list Outgoing) srv srv' client :
  send_all encode c outs srv = Some srv' ->
  _clients srv !! c = Some client ->
  exists client' frames,
    _clients srv' !! c = Some client'
    /\ written (socket client') = written (socket client) ++ frames
    /\ reader client' = reader client
    /\ Forall2 (fun o f => frame encode (envelope_of o) = Some f) outs frames.
Proof.
  revert srv client. induction outs as [|o rest IH]; intros srv client Hall Hc.
  - injection Hall as <-. exists client, []. rewrite app_nil_r. auto.
  - cbn [send_all] in Hall.
    destruct (send encode c _ _ _ _ srv) as [srv1| |e] eqn:Esend; try discriminate.
    apply send_writes_frame in Esend as (client0 & buf & Hc0 & Hf & Hcl).
    rewrite Hc in Hc0. injection Hc0 as <-.
    assert (Hc1 : _clients srv1 !! c = Some (socket_write buf client))
      by (rewrite Hcl; apply lookup_insert_eq).
    destruct (IH srv1 _ Hall Hc1) as (client' & frames & Hc' & Hw & Hr & Hfs).
    exists client', (buf :: frames). split; [exact Hc'|]. split; [|split].
    + rewrite Hw. cbn. now rewrite <- app_assoc.
    + rewrite Hr. reflexivity.
    + constructor; assumption.
Qed.

(** X5. From [send] to the peer's ['message'] event: the frames that a run
    of [send]s writes on a client's socket, reaching a fresh reader of the
    same code in chunks cut anywhere, make that reader emit one ['message']
    event per call, in order, with the source id, destination id, namespace
    and payload (string or Buffer) that were passed to [send]. The codec is
    assumed to read back the envelopes sent. *)
Theorem send_reaches_peer_listener
    (encode : CastMessage -> bytes) (decode : bytes -> option CastMessage)
    (c : string) (outs : list Outgoing) (srv srv' : CastProtocolServer)
    (client : Client) :
  send_all encode c outs srv = Some srv' ->
  _clients srv !! c = Some client ->
  Forall (fun o => decode (encode (envelope_of o)) = Some (envelope_of o)) outs ->
  exists client' frames,
    _clients srv' !! c = Some client'
    /\ written (socket client') = written (socket client) ++ frames
    /\ forall (chunks : list bytes) (peer : string),
         concat chunks = concat frames ->
         (feed decode chunks new_PacketReader).2 = new_PacketReader
         /\ map (emitted_message peer) (feed decode chunks new_PacketReader).1
            = map (fun o => Some (received_as peer o)) outs.
Proof.
  intros Hall Hc Hdec.
  destruct (send_all_written encode c outs srv srv' client Hall Hc)
    as (client' & frames & Hc' & Hw & _ & Hframes).
  exists client', frames. split; [exact Hc'|]. split; [exact Hw|].
  intros chunks peer Hcut.
  assert (Hnew : settled decode new_PacketReader) by reflexivity.
  rewrite (feed_concat decode chunks _ Hnew), Hcut.
  unfold _onData, append_chunk, new_PacketReader. cbn [_buffer _expectedLength app].
  rewrite <- (app_nil_r (concat frames)).
  assert (Hdec' : Forall (fun m => decode (encode m) = Some m) (map envelope_of outs))
    by (rewrite Forall_map; exact Hdec).
  assert (Hframes' : Forall2 (fun m f => frame encode m = Some f)
                       (map envelope_of outs) frames)
    by (apply Forall2_fmap_l; exact Hframes).
  rewrite (run_frames encode decode _ frames [] Hdec' Hframes').
  change (run decode {| _buffer := []; _expectedLength := None |}) with
    (@nil ReaderEvent, new_PacketReader).
  cbv beta iota. cbn [fst snd]. split; [reflexivity|].
  rewrite app_nil_r, !map_map. apply map_ext. intros o. cbn.
  now rewrite message_event_envelope.
Qed.

(** A string payload and a Buffer payload sent to the only client and read
    back from one chunk. *)
Lemma send_reaches_peer_listener_witness :
  let outs := [TestBench.pong_out; TestBench.auth_out] in
  let srv' := default TestBench.one_client
                (send_all TestBench.encode "client-1" outs TestBench.one_client) in
  exists client' frames,
    _clients srv' !! "client-1" = Some client'
    /\ written (socket client') = frames
    /\ map (emitted_message "peer-1")
         (feed TestBench.decode [concat frames] new_PacketReader).1
       = [Some (received_as "peer-1" TestBench.pong_out);
          Some (received_as "peer-1" TestBench.auth_out)].
Proof.
  intros outs srv'.
  destruct (send_reaches_peer_listener TestBench.encode TestBench.decode "client-1"
              outs TestBench.one_client srv'
              {| socket := {| written := []; destroyed := false |};
                 reader := new_PacketReader |})
    as (client' & frames & Hclient & Hwritten & Hpeer).
  - vm_compute. reflexivity.
  - vm_compute. reflexivity.
  - repeat constructor.
  - exists client', frames. split; [exact Hclient|]. split; [exact Hwritten|].
    destruct (Hpeer [concat frames] "peer-1") as [_ Hevents].
    + cbn [concat]. now rewrite app_nil_r.
    + exact Hevents.
Defined.

(** ** Client ids *)

Lemma client_id_inj (k1 k2 : Z) :
  "client-" +:+ pretty k1 = "client-" +:+ pretty k2 -> k1 = k2.
Proof.
  intros Hid. apply (inj (String.app "client-")) in Hid.
  exact (inj pretty _ _ Hid).
Qed.

(** X6. Client ids are not reused while the counter counts. On a server
    whose registered ids all come from counter values already used (as on a
    fresh server) and whose counter is below 2^53, [_onConnection] returns
    an id that no registered client has, so it replaces no client, and the
    property holds again afterwards. Closing a socket, sending, and
    [close()] keep the property as well. At 2^53 the counter no longer
    moves, and every further connection gets the id made from 2^53. *)
Theorem client_ids_fresh (srv : CastProtocolServer) :
  ids_bounded srv ->
  ((_clientCounter srv < 9007199254740992)%Z ->
   let '(id, srv') := _onConnection srv in
   _clients srv !! id = None
   /\ is_Some (_clients srv' !! id)
   /\ (forall c, c <> id -> _clients srv' !! c = _clients srv !! c)
   /\ ids_bounded srv')
  /\ ((9007199254740992 <= _clientCounter srv)%Z ->
      let '(id, srv') := _onConnection srv in
      id = "client-" +:+ pretty (_clientCounter srv)
      /\ _clientCounter srv' = _clientCounter srv)
  /\ (forall c, ids_bounded (on_socket_close c srv))
  /\ ids_bounded (close srv)
  /\ (forall encode c s d ns dt srv',
        send encode c s d ns dt srv = Written srv' -> ids_bounded srv').
Proof.
  intros [Hpos Hb]. split; [|split; [|split; [|split]]].
  - intros Hsafe. unfold _onConnection, js_increment.
    destruct (Z.ltb_spec (_clientCounter srv) 9007199254740992) as [_|]; [|lia].
    cbn.
    set (id := "client-" +:+ pretty (_clientCounter srv + 1)%Z).
    split; [|split; [|split]].
    + destruct (_clients srv !! id) as [cl|] eqn:E; [|reflexivity].
      destruct (Hb id (mk_is_Some _ _ E)) as (k & Hk & Hle).
      apply client_id_inj in Hk. lia.
    + rewrite lookup_insert_eq. eauto.
    + intros c Hne. now rewrite lookup_insert_ne.
    + split; [cbn; lia|]. intros c. cbn. destruct (decide (c = id)) as [->|Hne].
      * intros _. exists (_clientCounter srv + 1)%Z. split; [reflexivity | lia].
      * rewrite lookup_insert_ne by congruence. intros Hc.
        destruct (Hb c Hc) as (k & Hk & Hle). exists k. split; [exact Hk | lia].
  - intros Hfull. unfold _onConnection, js_increment.
    destruct (Z.ltb_spec (_clientCounter srv) 9007199254740992); [lia|].
    split; reflexivity.
  - intros c. split; [exact Hpos|]. intros id. unfold on_socket_close. cbn.
    destruct (decide (c = id)) as [->|Hne].
    + rewrite lookup_delete_eq. intros [? [=]].
    + rewrite lookup_delete_ne by exact Hne. apply Hb.
  - split; [exact Hpos|]. intros id. cbn. rewrite lookup_empty. intros [? [=]].
  - intros encode c s d ns dt srv' Hsend.
    unfold send in Hsend.
    destruct (_clients srv !! c) as [client|] eqn:Hc; [|discriminate].
    destruct (frame encode _) as [buf|]; [|discriminate].
    injection Hsend as <-. split; [exact Hpos|]. intros id. cbn.
    destruct (decide (c = id)) as [->|Hne].
    + intros _. exact (Hb id (mk_is_Some _ _ Hc)).
    + rewrite lookup_insert_ne by exact Hne. apply Hb.
Qed.

(** The first connection on a listening server. *)
Lemma client_ids_fresh_witness :
  _clients listening_server !! "client-1" = None
  /\ is_Some (_clients TestBench.one_client !! "client-1")
  /\ ids_bounded TestBench.one_client.
Proof.
  assert (Hfresh : ids_bounded listening_server).
  { split; [vm_compute; discriminate|].
    intros id [client Hid]. vm_compute in Hid. discriminate Hid. }
  destruct (client_ids_fresh listening_server Hfresh) as (Hconnect & _).
  destruct (Hconnect ltac:(vm_compute; reflexivity)) as (Hnone & Hsome & _ & Hb).
  split; [exact Hnone|]. split; [exact Hsome | exact Hb].
Defined.

(** ** No message makes the receiver throw *)

Lemma try_catch_logged (body : M World unit) (lvl : Log.Level)
    (text : exn -> string) (w : World) :
  (try_catch body (fun err => CastDevice.log lvl (text err)) w).1 = Normal tt.
Proof. unfold try_catch. destruct (body w) as [[[]|e] w']; reflexivity. Qed.

(** X7. Errors stay inside the handlers: whatever the namespace, the
    payload and the state of the receiver (server attached or not, client
    known or not), [_onMessage] returns normally; so the [catch] of the
    reader's loop around it never runs, and a turn for a message is the
    handler alone. A message on a namespace that is not one of the five is
    logged and changes nothing. *)
Theorem _onMessage_never_throws `{Platform} (msg : MessageEvent) (w : World) :
  (_onMessage msg w).1 = Normal tt
  /\ step (Message msg) w = _onMessage msg w
  /\ (namespace msg <> CASTV2_NS_CONNECTION ->
      namespace msg <> CASTV2_NS_HEARTBEAT ->
      namespace msg <> CASTV2_NS_DEVICEAUTH ->
      namespace msg <> CASTV2_NS_RECEIVER ->
      namespace msg <> CASTV2_NS_MEDIA ->
      device (_onMessage msg w).2 = device w
      /\ emitted (_onMessage msg w).2 = emitted w
      /\ timers (_onMessage msg w).2 = timers w).
Proof.
  assert (Hnormal : (_onMessage msg w).1 = Normal tt).
  { unfold _onMessage.
    repeat match goal with |- context [if ?b then _ else _] => destruct b end.
    - apply try_catch_logged.
    - apply try_catch_logged.
    - apply _handleDeviceAuth_returns.
    - apply try_catch_logged.
    - apply try_catch_logged.
    - reflexivity. }
  split; [exact Hnormal|]. split.
  - cbn [step]. unfold try_catch.
    destruct (_onMessage msg w) as [[[]|e] w']; [reflexivity | discriminate].
  - intros H1 H2 H3 H4 H5. unfold _onMessage.
    repeat match goal with
           | |- context [String.eqb ?a ?b] =>
               destruct (String.eqb_spec a b); [congruence|]
           end.
    repeat split; reflexivity.
Qed.

(** A message on a namespace of another application. *)
Lemma _onMessage_never_throws_witness :
  let r := _onMessage (H := TestBench.unsigned) TestBench.stray_message
             TestBench.fresh_world in
  r.1 = Normal tt
  /\ device r.2 = device TestBench.fresh_world
  /\ emitted r.2 = []
  /\ timers r.2 = [].
Proof.
  intros r.
  destruct (_onMessage_never_throws (H := TestBench.unsigned) TestBench.stray_message
              TestBench.fresh_world) as (Hreturns & _ & Hstray).
  split; [exact Hreturns|].
  apply Hstray; discriminate.
Defined.

(** ** Heartbeat and connection namespaces *)

(** X8. Heartbeat: a [PING] from a registered client of an attached server
    is answered by one frame on the heartbeat namespace, from [receiver-0]
    to the sender, carrying the serialised [PONG]; nothing else changes. A
    heartbeat message of any other type changes nothing at all and is not
    logged. *)
Theorem heartbeat_ping_pong `{Platform} (w : World) (c s : string) (data : Data)
    (payload type : value) :
  JSON_parse data = Normal payload ->
  get payload "type" = Normal type ->
  (is_string type "PING" = true ->
   forall srv client buf,
     _server (device w) = Some srv ->
     _clients srv !! c = Some client ->
     frame cast_encode
       (envelope "receiver-0" s CASTV2_NS_HEARTBEAT
          (DString (JSON_stringify (JObj [("type", JStr "PONG")])))) = Some buf ->
     _handleHeartbeat c s data w = (Normal tt, with_device (after_write c buf) w))
  /\ (is_string type "PING" = false ->
      _handleHeartbeat c s data w = (Normal tt, w)).
Proof.
  intros Hparse Htype. split.
  - intros Hping srv client buf Hsrv Hclient Hframe.
    unfold _handleHeartbeat. unfold_monad. rewrite Hparse, Htype, Hping.
    erewrite server_send_delivered by eassumption. reflexivity.
  - intros Hother. unfold _handleHeartbeat. unfold_monad.
    rewrite Hparse, Htype, Hother. reflexivity.
Qed.

(** A [PING] of the connected client. *)
Lemma heartbeat_ping_pong_witness :
  let w := TestBench.connected_world in
  let srv := default listening_server (CastDevice._server (device w)) in
  let client := default {| socket := {| written := []; destroyed := true |};
                           reader := new_PacketReader |}
                  (_clients srv !! "client-1") in
  let buf := default []
               (frame TestBench.encode
                  (envelope "receiver-0" "sender-0" CASTV2_NS_HEARTBEAT
                     (DString (TestBench.render (JObj [("type", JStr "PONG")]))))) in
  _handleHeartbeat (H := TestBench.controls) "client-1" "sender-0"
    (DString (TestBench.render TestBench.PING_payload)) w
  = (Normal tt, with_device (after_write "client-1" buf) w).
Proof.
  intros w srv client buf.
  destruct (heartbeat_ping_pong (H := TestBench.controls) w "client-1" "sender-0"
              (DString (TestBench.render TestBench.PING_payload))
              TestBench.PING_payload (JStr "PING")
              ltac:(vm_compute; reflexivity) eq_refl) as [Hping _].
  apply (Hping eq_refl srv client buf); vm_compute; reflexivity.
Defined.

(** X9. Connection namespace: a [CONNECT] records the sender id in the
    session of the client it came from, keeping the [connected] flag; when
    the client has no session none is created. No reply is sent: the server,
    the application and media state, the events and the timers are as
    before. *)
Theorem connect_binds_sender `{Platform} (w : World) (c s : string) (data : Data)
    (payload : value) :
  JSON_parse data = Normal payload ->
  get payload "type" = Normal (JStr "CONNECT") ->
  let r := _handleConnection c s data w in
  r.1 = Normal tt
  /\ device r.2
     = match _sessions (device w) !! c with
       | Some session =>
           set_sessions (<[c := {| connected := connected session;
                                   senderId := Some s |}]> (_sessions (device w)))
             (device w)
       | None => device w
       end
  /\ emitted r.2 = emitted w
  /\ timers r.2 = timers w.
Proof.
  intros Hparse Htype.
  destruct w as [[p srv0 mdns sess rid sid app ms] em con tm us uu].
  unfold _handleConnection, CastDevice.log. unfold_monad. cbn.
  rewrite Hparse. cbn. rewrite Htype. cbn.
  destruct (sess !! c); repeat split; reflexivity.
Qed.

(** A [CONNECT] of the connected client. *)
Lemma connect_binds_sender_witness :
  let r := _handleConnection (H := TestBench.controls) "client-1" "sender-0"
             (DString (TestBench.render TestBench.CONNECT_payload))
             TestBench.connected_world in
  r.1 = Normal tt
  /\ _sessions (device r.2) !! "client-1"
     = Some {| connected := true; senderId := Some "sender-0" |}.
Proof.
  intros r.
  destruct (connect_binds_sender (H := TestBench.controls) TestBench.connected_world
              "client-1" "sender-0"
              (DString (TestBench.render TestBench.CONNECT_payload))
              TestBench.CONNECT_payload
              ltac:(vm_compute; reflexivity) eq_refl) as (Hreturns & Hdevice & _).
  split; [exact Hreturns|].
  fold r in Hdevice. rewrite Hdevice. vm_compute. reflexivity.
Defined.

(** ** Launch, status queries, volume *)

(** X10. [LAUNCH] accepts any application id that has a text: whatever
    such [appId] is (absent included) and whatever ran before, the
    application is marked running, the media status is cleared, the session
    id becomes the next value of [uuidv4()], and a registered client gets
    the receiver status of that state as reply. The counter behind the media
    session ids is not reset, and no event is emitted. An [appId] that
    cannot be converted to the text of the log line makes the handler throw
    before anything changes: the [catch] of [_handleReceiver] logs it and
    the [LAUNCH] is dropped. *)
Theorem launch_accepts_printable_app `{Platform} (w : World) (c s : string)
    (data : Data) (fields : list (string * value)) :
  JSON_parse data = Normal (JObj fields) ->
  lookup_prop "type" fields = JStr "LAUNCH" ->
  let r := _handleReceiver c s data w in
  (printable (lookup_prop "appId" fields) = true ->
   let launched :=
     set_mediaStatus None
       (set_sessionId (uuid_source w (uuid_used w))
          (set_appRunning true (device w))) in
   r.1 = Normal tt
   /\ _appRunning (device r.2) = true
   /\ _mediaStatus (device r.2) = None
   /\ _sessionId (device r.2) = uuid_source w (uuid_used w)
   /\ uuid_used r.2 = S (uuid_used w)
   /\ _mediaRequestId (device r.2) = _mediaRequestId (device w)
   /\ emitted r.2 = emitted w
   /\ timers r.2 = timers w
   /\ forall srv client buf,
        _server (device w) = Some srv ->
        _clients srv !! c = Some client ->
        frame cast_encode
          (envelope "receiver-0" s CASTV2_NS_RECEIVER
             (DString (JSON_stringify
                (receiver_status launched (lookup_prop "requestId" fields)))))
        = Some buf ->
        device r.2 = after_write c buf launched)
  /\ (printable (lookup_prop "appId" fields) = false ->
      r.1 = Normal tt
      /\ device r.2 = device w
      /\ uuid_used r.2 = uuid_used w
      /\ emitted r.2 = emitted w
      /\ timers r.2 = timers w).
Proof.
  intros Hparse Htype.
  destruct w as [[p srv0 mdns sess rid sid app ms] em con tm us uu].
  unfold _handleReceiver, _handleLaunch, _sendReceiverStatus, server_send, send,
    CastDevice.log, uuidv4, interpolate, after_write.
  unfold_monad. cbn. rewrite Hparse. cbn. rewrite Htype. cbn.
  split; intros Hprint; rewrite Hprint; cbn.
  - do 8 (split; [send_cases; reflexivity|]).
    intros srv client buf [= ->] Hclient Hframe. rewrite Hclient.
    frame_link Hframe. reflexivity.
  - repeat split; reflexivity.
Qed.

(** A [LAUNCH] after a stream was loaded: the record is gone, the counter
    stays at one. *)
Lemma launch_accepts_printable_app_witness :
  let r := _handleReceiver (H := TestBench.controls) "client-1" "sender-0"
             (DString (TestBench.render TestBench.LAUNCH_payload))
             TestBench.loaded_world in
  _appRunning (device r.2) = true
  /\ _mediaStatus (device r.2) = None
  /\ _sessionId (device r.2) = "uuid-1"
  /\ _mediaRequestId (device r.2) = 1%Z.
Proof.
  intros r.
  destruct (launch_accepts_printable_app (H := TestBench.controls)
              TestBench.loaded_world "client-1" "sender-0"
              (DString (TestBench.render TestBench.LAUNCH_payload))
              [("type", JStr "LAUNCH"); ("appId", JStr "CC1AD845"); ("requestId", JInt 1)]
              ltac:(vm_compute; reflexivity) eq_refl)
    as (Hlaunch & _).
  destruct (Hlaunch eq_refl) as (_ & Happ & Hms & Hsid & _ & Hrid & _).
  repeat split; assumption.
Defined.

(** A [LAUNCH] whose [appId] has no text, after a stream was loaded:
    nothing is launched and the record stays. *)
Example launch_unprintable_is_dropped :
  let w := TestBench.loaded_world in
  let r := step (H := TestBench.controls)
             (Message (TestBench.from_client CASTV2_NS_RECEIVER
                         TestBench.LAUNCH_unprintable_payload)) w in
  TestBench.parse_controls
    (data (TestBench.from_client CASTV2_NS_RECEIVER TestBench.LAUNCH_unprintable_payload))
  = Normal TestBench.LAUNCH_unprintable_payload
  /\ r.1 = Normal tt
  /\ device r.2 = device w
  /\ _appRunning (device r.2) = false
  /\ List.last (CastDevice.console r.2)
       {| Log.level := Log.trace; Log.component := ""; Log.text := "" |}
     = {| Log.level := Log.warning; Log.component := "CastDevice";
          Log.text := "Failed to parse receiver message: Cannot convert object to primitive value" |}.
Proof. vm_compute. repeat split; reflexivity. Qed.

(** X11. The two media messages that ask without commanding: [GET_STATUS]
    and [SET_VOLUME] on the media namespace leave the media-status record
    exactly as it is (state included), create none, and touch neither the
    application state, the session counter nor the timers; [GET_STATUS]
    emits no event. The reply, when it can be delivered, carries the record
    as it was, or an empty status list when there is none. *)
Theorem media_queries_read_only `{Platform} (w : World) (c s d : string)
    (data : Data) (fields : list (string * value)) (type : string) :
  JSON_parse data = Normal (JObj fields) ->
  lookup_prop "type" fields = JStr type ->
  type = "GET_STATUS" \/ type = "SET_VOLUME" ->
  let r := _handleMedia c s d data w in
  r.1 = Normal tt
  /\ _mediaStatus (device r.2) = _mediaStatus (device w)
  /\ _appRunning (device r.2) = _appRunning (device w)
  /\ _mediaRequestId (device r.2) = _mediaRequestId (device w)
  /\ timers r.2 = timers w
  /\ (type = "GET_STATUS" -> emitted r.2 = emitted w)
  /\ (forall srv client buf,
        _server (device w) = Some srv ->
        _clients srv !! c = Some client ->
        media_status_frame (_transportId (props (device w))) s
          (lookup_prop "requestId" fields) (_mediaStatus (device w)) = Some buf ->
        device r.2 = after_write c buf (device w)).
Proof.
  intros Hparse Htype Hkind.
  destruct w as [[p srv0 mdns sess rid sid app ms] em con tm us uu].
  assert (Hstate :
    let r := _handleMedia c s d data
               {| device := {| props := p; _server := srv0; _mdnsService := mdns;
                               _sessions := sess; _mediaRequestId := rid;
                               _sessionId := sid; _appRunning := app;
                               _mediaStatus := ms |};
                  emitted := em; CastDevice.console := con; timers := tm;
                  uuid_source := us; uuid_used := uu |} in
    r.1 = Normal tt
    /\ _mediaStatus (device r.2) = ms
    /\ _appRunning (device r.2) = app
    /\ _mediaRequestId (device r.2) = rid
    /\ timers r.2 = tm
    /\ (type = "GET_STATUS" -> emitted r.2 = em)).
  { unfold _handleMedia, _sendMediaStatus, emit_volume, server_send, send,
      CastDevice.log, emit.
    unfold_monad. cbn. rewrite Hparse. cbn. rewrite Htype.
    destruct Hkind as [-> | ->]; cbn.
    - destruct ms as [[id st md ct sc vol]|]; send_cases;
        repeat split; try reflexivity.
    - destruct (lookup_prop "volume" fields) as [| |bv|q|str|items|vfields]; cbn;
        try match goal with
          | |- context [if ?b then _ else _] =>
              match type of b with bool => destruct b end
          end;
        destruct ms as [[id st md ct sc vol]|];
        send_cases; repeat split;
        first [reflexivity | congruence | intros [=]]. }
  destruct Hstate as (H1 & H2 & H3 & H4 & H5 & H6).
  do 6 (split; [assumption|]).
  intros srv client buf Hsrv Hclient Hframe.
  cbn in Hsrv. subst srv0.
  unfold media_status_frame in Hframe. cbn in Hframe.
  unfold after_write. cbn. rewrite Hclient.
  unfold _handleMedia, _sendMediaStatus, emit_volume, server_send, send,
    CastDevice.log, emit.
  unfold_monad. cbn. rewrite Hparse. cbn. rewrite Htype.
  destruct Hkind as [-> | ->]; cbn.
  - destruct ms as [[id st md ct sc vol]|]; cbn; rewrite Hclient;
      frame_link Hframe; reflexivity.
  - destruct (lookup_prop "volume" fields) as [| |bv|q|str|items|vfields]; cbn;
      try match goal with
          | |- context [if ?b then _ else _] =>
              match type of b with bool => destruct b end
          end;
      destruct ms as [[id st md ct sc vol]|];
      cbn; rewrite Hclient;
      frame_link Hframe; reflexivity.
Qed.

(** A [GET_STATUS] after a stream was loaded. *)
Lemma media_queries_read_only_witness :
  let w := TestBench.loaded_world in
  let r := _handleMedia (H := TestBench.controls) "client-1" "sender-0" "receiver-0"
             (DString (TestBench.render TestBench.GET_STATUS_payload)) w in
  r.1 = Normal tt
  /\ _mediaStatus (device r.2) = _mediaStatus (device w)
  /\ emitted r.2 = emitted w
  /\ timers r.2 = timers w.
Proof.
  intros w r.
  destruct (media_queries_read_only (H := TestBench.controls) w
              "client-1" "sender-0" "receiver-0"
              (DString (TestBench.render TestBench.GET_STATUS_payload))
              [("type", JStr "GET_STATUS"); ("requestId", JInt 7)] "GET_STATUS"
              ltac:(vm_compute; reflexivity) eq_refl (or_introl eq_refl))
    as (Hreturns & Hms & _ & _ & Htimers & Hemitted & _).
  split; [exact Hreturns|]. split; [exact Hms|].
  split; [exact (Hemitted eq_refl) | exact Htimers].
Defined.

(** X12. [SET_VOLUME], on the receiver and on the media namespace alike,
    emits the [volume] event exactly when the payload has a truthy [volume]:
    with the [level] and [muted] of a volume object as they are (absent ones
    as [undefined]), with both [undefined] for a truthy volume that is not
    an object, and not at all for an absent, [null], zero, empty or [false]
    volume. The application and media state are not touched. *)
Theorem volume_event_needs_volume `{Platform} (w : World) (c s d : string)
    (data : Data) (fields : list (string * value)) :
  JSON_parse data = Normal (JObj fields) ->
  lookup_prop "type" fields = JStr "SET_VOLUME" ->
  let ip := speakerIp (props (device w)) in
  let expected :=
    match lookup_prop "volume" fields with
    | JObj vfields =>
        [volume_event ip (lookup_prop "level" vfields) (lookup_prop "muted" vfields)]
    | v => if truthy v then [volume_event ip undefined undefined] else []
    end in
  let on_receiver := (_handleReceiver c s data w).2 in
  let on_media := (_handleMedia c s d data w).2 in
  emitted on_receiver = emitted w ++ expected
  /\ emitted on_media = emitted w ++ expected
  /\ _appRunning (device on_receiver) = _appRunning (device w)
  /\ _mediaStatus (device on_receiver) = _mediaStatus (device w)
  /\ _appRunning (device on_media) = _appRunning (device w)
  /\ _mediaStatus (device on_media) = _mediaStatus (device w).
Proof.
  intros Hparse Htype.
  destruct w as [[p srv0 mdns sess rid sid app ms] em con tm us uu].
  unfold _handleReceiver, _handleSetVolume, _sendReceiverStatus,
    _handleMedia, _sendMediaStatus, emit_volume, server_send, send,
    CastDevice.log, emit.
  unfold_monad. cbn. rewrite Hparse. cbn. rewrite Htype. cbn.
  destruct (lookup_prop "volume" fields) as [| |bv|q|str|items|vfields]; cbn;
    repeat match goal with
           | |- context [if ?b then _ else _] =>
               match type of b with bool => destruct b end
           end;
    destruct ms as [[id st md ct sc vol]|];
    send_cases; rewrite ?app_nil_r; repeat split; reflexivity.
Qed.

(** A [SET_VOLUME] with level one half, on both namespaces. *)
Lemma volume_event_needs_volume_witness :
  let w := TestBench.connected_world in
  let data := DString (TestBench.render TestBench.SET_VOLUME_payload) in
  let event := volume_event "192.168.1.66" (JNum (QArith_base.Qmake 1 2)) (JBool false) in
  emitted (_handleReceiver (H := TestBench.controls) "client-1" "sender-0" data w).2
  = [event]
  /\ emitted (_handleMedia (H := TestBench.controls) "client-1" "sender-0" "receiver-0"
               data w).2
     = [event].
Proof.
  intros w data event.
  destruct (volume_event_needs_volume (H := TestBench.controls) w
              "client-1" "sender-0" "receiver-0" data
              [("type", JStr "SET_VOLUME"); ("requestId", JInt 8);
               ("volume", JObj [("level", JNum (QArith_base.Qmake 1 2));
                                ("muted", JBool false)])]
              ltac:(vm_compute; reflexivity) eq_refl)
    as (Hreceiver & Hmedia & _).
  split; [exact Hreceiver | exact Hmedia].
Defined.

(** ** Stopping, disconnecting and pending timers *)

(** X13. [stop()] can be called again: it returns normally, detaches the
    protocol server and the mDNS service, and a second call changes nothing
    but the log. It leaves the sessions, the application and media state,
    the session counter and the pending timers as they are, and emits
    nothing. *)
Theorem stop_device_idempotent `{Platform} (w : World) :
  let once := stop_device w in
  let twice := stop_device once.2 in
  once.1 = Normal tt
  /\ twice.1 = Normal tt
  /\ device twice.2 = device once.2
  /\ _server (device once.2) = None
  /\ _mdnsService (device once.2) = false
  /\ _sessions (device once.2) = _sessions (device w)
  /\ _appRunning (device once.2) = _appRunning (device w)
  /\ _mediaStatus (device once.2) = _mediaStatus (device w)
  /\ _mediaRequestId (device once.2) = _mediaRequestId (device w)
  /\ timers once.2 = timers w
  /\ emitted once.2 = emitted w.
Proof.
  destruct w as [[p srv0 mdns sess rid sid app ms] em con tm us uu].
  unfold stop_device, CastDevice.log. unfold_monad. cbn.
  destruct mdns, srv0; cbn; repeat split; reflexivity.
Qed.

(** X14. A delayed status push for a connection that has closed in the
    meantime is dropped without harm: after the socket of the client closed,
    the callback of its timer returns normally, writes on no socket, and
    only puts a record that is there in state [PLAYING]. *)
Theorem push_after_disconnect_is_dropped `{Platform} (w : World) (t : Timer)
    (srv : CastProtocolServer) :
  _server (device w) = Some srv ->
  let closed := (step (Disconnect (timer_clientId t)) w).2 in
  let r := run_timer t closed in
  r.1 = Normal tt
  /\ device r.2
     = set_mediaStatus (status_after (Some PLAYING) (_mediaStatus (device w)))
         (device closed)
  /\ _server (device r.2) = Some (on_socket_close (timer_clientId t) srv)
  /\ emitted r.2 = emitted w
  /\ timers r.2 = timers w.
Proof.
  intros Hsrv.
  destruct w as [[p srv0 mdns sess rid sid app ms] em con tm us uu].
  cbn in Hsrv. subst srv0.
  unfold run_timer, _sendMediaStatus, server_send, send.
  cbn [step]. unfold _onDisconnect, CastDevice.log. unfold_monad. cbn.
  destruct ms as [[id st md ct sc vol]|]; cbn;
    rewrite ?lookup_delete_eq; repeat split; reflexivity.
Qed.

(** The push that a [LOAD] scheduled, run after its client has gone. *)
Lemma push_after_disconnect_is_dropped_witness :
  let w := TestBench.loaded_world in
  let t := {| delay := 500; timer_clientId := "client-1"; timer_sourceId := "sender-0" |} in
  let closed := (step (H := TestBench.controls) (Disconnect "client-1") w).2 in
  let r := run_timer (H := TestBench.controls) t closed in
  timers w = [t]
  /\ r.1 = Normal tt
  /\ option_map playerState (_mediaStatus (device r.2)) = Some PLAYING
  /\ emitted r.2 = emitted w.
Proof.
  intros w t closed r.
  destruct (push_after_disconnect_is_dropped (H := TestBench.controls) w t
              (default listening_server (CastDevice._server (device w)))
              ltac:(vm_compute; reflexivity))
    as (Hreturns & Hdevice & _ & Hemitted & _).
  split; [vm_compute; reflexivity|]. split; [exact Hreturns|].
  split; [|exact Hemitted].
  exact (eq_trans
           (f_equal (fun d => option_map playerState (_mediaStatus d)) Hdevice)
           ltac:(vm_compute; reflexivity)).
Defined.

(** The socket of a client that [stop()] destroyed closes afterwards: the
    server is gone from the receiver, the ['disconnect'] event still arrives,
    and the session of the client is deleted. *)
Example close_event_after_stop :
  let stopped := (process (H := TestBench.unsigned) [Connect; Stop]
                    TestBench.fresh_world).2 in
  let r := step (H := TestBench.unsigned) (Disconnect "client-1") stopped in
  _server (device stopped) = None
  /\ is_Some (_sessions (device stopped) !! "client-1")
  /\ r.1 = Normal tt
  /\ _sessions (device r.2) !! "client-1" = None.
Proof. vm_compute. repeat split; try reflexivity. eexists. reflexivity. Qed.

(** ** What every turn keeps *)

(** Symbolic execution of a handler: case analysis on whatever the next
    branch of the computation looks at. *)
Ltac exec_step :=
  match goal with
  | |- context [match JSON_parse ?d with _ => _ end] => destruct (JSON_parse d)
  | |- context [match auth_decode ?d with _ => _ end] => destruct (auth_decode d)
  | |- context [match auth_encode ?m with _ => _ end] => destruct (auth_encode m)
  | |- context [match SIGNATURES !! ?k with _ => _ end] => destruct (SIGNATURES !! k)
  | |- context [match get ?v ?k with _ => _ end] =>
      first [is_var v; destruct v | destruct v eqn:?]
  | |- context [match interpolate ?v with _ => _ end] => destruct (interpolate v)
  | |- context [if is_string ?v ?k then _ else _] => destruct (is_string v k)
  | |- context [if negb (truthy ?v) then _ else _] => destruct (truthy v)
  | |- context [if truthy ?v then _ else _] => destruct (truthy v)
  | |- context [match frame ?e ?m with _ => _ end] => destruct (frame e m)
  | |- context [match _clients ?s !! ?c with _ => _ end] =>
      let E := fresh "Eclient" in destruct (_clients s !! c) eqn:E
  | |- context [match ?m !! ?c with _ => _ end] =>
      let E := fresh "Elookup" in destruct (m !! c) eqn:E
  | |- context [match ?s with Some _ => _ | None => _ end] => is_var s; destruct s
  | |- context [if ?b then _ else _] => destruct b
  end.

Ltac exec := repeat (cbn -[dom]; exec_step);
             cbn -[dom].


Ltac consistent_goal :=
  unfold consistent in *;
  repeat match goal with s : option CastProtocolServer |- _ => destruct s end;
  match goal with
  | Hc : _ /\ _ |- _ /\ _ =>
      let Hid := fresh "Hid" in
      let Hdom := fresh "Hdom" in
      destruct Hc as [Hid Hdom]; split;
      [ unfold id_is_counter in *; cbn in *;
        first [ exact Hid
              | solve [intros ? [=]]
              | intros ? [= <-]; cbn; first [reflexivity | exact (Hid _ eq_refl)] ]
      | unfold sessions_match_clients in *; cbn in *;
        first [ exact Hdom
              | solve [intros ? [=]]
              | intros ? [= <-]; cbn;
                specialize (Hdom _ eq_refl);
                repeat (rewrite dom_insert_lookup_L by (eexists; eassumption));
                rewrite ?dom_insert_L, ?dom_delete_L;
                first [ exact Hdom | congruence ] ] ]
  end.


Lemma stays_consistent_refl w : stays_consistent w w.
Proof. intros Hc. exact Hc. Qed.

Lemma stays_consistent_trans w1 w2 w3 :
  stays_consistent w1 w2 -> stays_consistent w2 w3 -> stays_consistent w1 w3.
Proof. unfold stays_consistent. auto. Qed.

Local Abbreviation steady := (keeps stays_consistent).

Ltac open_world :=
  intros w Hc; destruct w as [[p srv0 mdns sess rid sid app ms] em con tm us uu].

Ltac steady_structure known :=
  repeat first
    [ known
    | apply keeps_ret; [exact stays_consistent_refl]
    | apply keeps_throw; [exact stays_consistent_refl]
    | apply keeps_lift; [exact stays_consistent_refl]
    | apply keeps_gets; [exact stays_consistent_refl]
    | apply keeps_bind; [exact stays_consistent_trans | | intros ?]
    | apply keeps_try_catch; [exact stays_consistent_trans | | intros ?]
    | match goal with
      | |- keeps _ (match ?x with _ => _ end) => destruct x
      | |- keeps _ (let '(_, _) := ?x in _) => destruct x
      end ].

Lemma _handleConnection_steady `{Platform} c s d : steady (_handleConnection c s d).
Proof.
  open_world. unfold _handleConnection, CastDevice.log. unfold_monad.
  exec; consistent_goal.
Qed.

Lemma _handleHeartbeat_steady `{Platform} c s d : steady (_handleHeartbeat c s d).
Proof.
  open_world. unfold _handleHeartbeat, server_send, send, CastDevice.log. unfold_monad.
  exec; consistent_goal.
Qed.

Lemma _handleDeviceAuth_steady `{Platform} c s d : steady (_handleDeviceAuth c s d).
Proof.
  open_world.
  unfold _handleDeviceAuth, send_auth_error, log_warn,
    CastAuth.handleAuthChallenge, server_send, CastDevice.log, send.
  unfold_monad.
  exec; consistent_goal.
Qed.

Lemma _handleReceiver_steady `{Platform} c s d : steady (_handleReceiver c s d).
Proof.
  open_world.
  unfold _handleReceiver, _handleLaunch, _handleStop, _handleSetVolume, emit_volume,
    _sendReceiverStatus, server_send, CastDevice.log, send, emit, uuidv4.
  unfold_monad.
  exec; consistent_goal.
Qed.

Lemma _sendMediaStatus_steady `{Platform} c s r ps : steady (_sendMediaStatus c s r ps).
Proof.
  open_world.
  unfold _sendMediaStatus, server_send, send. unfold_monad.
  exec; consistent_goal.
Qed.

Lemma _handleMediaLoad_steady `{Platform} c s pl : steady (_handleMediaLoad c s pl).
Proof.
  open_world.
  unfold _handleMediaLoad, _sendMediaStatus, server_send, CastDevice.log, send, emit, setTimeout.
  unfold_monad.
  exec; consistent_goal.
Qed.

Lemma emit_steady `{Platform} e : steady (emit e).
Proof. open_world. exact Hc. Qed.

Lemma log_steady `{Platform} l t : steady (CastDevice.log l t).
Proof. open_world. exact Hc. Qed.

Lemma _handleMedia_steady `{Platform} c s dst d : steady (_handleMedia c s dst d).
Proof.
  unfold _handleMedia.
  steady_structure
    ltac:(first [ apply _handleMediaLoad_steady | apply _sendMediaStatus_steady
                | apply emit_steady | apply log_steady ]).
Qed.

Lemma _onMessage_steady `{Platform} msg : steady (_onMessage msg).
Proof.
  unfold _onMessage.
  repeat match goal with |- keeps _ (if ?b then _ else _) => destruct b end.
  - apply _handleConnection_steady.
  - apply _handleHeartbeat_steady.
  - apply _handleDeviceAuth_steady.
  - apply _handleReceiver_steady.
  - apply _handleMedia_steady.
  - apply log_steady.
Qed.

Lemma step_steady `{Platform} (i : Input) : steady (step i).
Proof.
  destruct i as [|c|msg|k|]; cbn [step].
  - open_world. unfold _onConnect, _onConnection, CastDevice.log. unfold_monad.
    exec; consistent_goal.
  - open_world. unfold _onDisconnect, on_socket_close, CastDevice.log. unfold_monad.
    exec; consistent_goal.
  - apply keeps_try_catch; [exact stays_consistent_trans | apply _onMessage_steady |].
    intros e. open_world. exact Hc.
  - unfold fire_timer, run_timer.
    steady_structure ltac:(apply _sendMediaStatus_steady).
    open_world. exact Hc.
  - open_world. unfold stop_device, close, CastDevice.log. unfold_monad.
    exec; consistent_goal.
Qed.

Lemma process_steady `{Platform} inputs : steady (process inputs).
Proof.
  induction inputs as [|i rest IH]; cbn [process].
  - apply keeps_ret. exact stays_consistent_refl.
  - apply keeps_bind; [exact stays_consistent_trans | apply step_steady | intros; exact IH].
Qed.

(** A receiver that has just been started is consistent. *)
Lemma started_consistent (p : Props) (sessionId : string) :
  consistent (started (new_CastDevice p sessionId)).
Proof.
  split.
  - intros ms [=].
  - intros srv [= <-]. cbn. now rewrite !dom_empty_L.
Qed.

(** X15. The media-status record always carries the media session id
    handed out last: in a receiver where this holds and whose sessions are
    those of the registered clients (a freshly started receiver is one),
    it holds again after any sequence of connections, disconnections,
    messages, timer callbacks and calls of [stop()], whatever the messages
    contain and however a turn ends. *)
Theorem record_carries_latest_id `{Platform} (inputs : list Input) (w : World) :
  consistent (device w) ->
  id_is_counter (device (process inputs w).2).
Proof. intros Hc. exact (proj1 (process_steady inputs w Hc)). Qed.

(** Two loads, the push of the first, and a disconnection. *)
Lemma record_carries_latest_id_witness :
  let inputs := [Connect;
                 Message (TestBench.from_client CASTV2_NS_MEDIA TestBench.LOAD_payload);
                 TimerFires 0;
                 Message (TestBench.from_client CASTV2_NS_MEDIA TestBench.LOAD_again_payload);
                 Disconnect "client-1"] in
  let d := device (process (H := TestBench.unsigned) inputs TestBench.fresh_world).2 in
  id_is_counter d /\ option_map mediaSessionId (_mediaStatus d) = Some 2%Z.
Proof.
  intros inputs d. split.
  - apply (record_carries_latest_id (H := TestBench.unsigned) inputs TestBench.fresh_world).
    exact (started_consistent TestBench.kitchen "uuid-0").
  - vm_compute. reflexivity.
Defined.

(** X16. Sessions follow connections: under the same condition, after any
    sequence of turns and while the protocol server is attached, the clients
    with a session are exactly the clients registered with the server; no
    message creates a session and none removes one. *)
Theorem sessions_follow_connections `{Platform} (inputs : list Input) (w : World) :
  consistent (device w) ->
  sessions_match_clients (device (process inputs w).2).
Proof. intros Hc. exact (proj2 (process_steady inputs w Hc)). Qed.

(** Two connections, a load, and the first client leaving. *)
Lemma sessions_follow_connections_witness :
  let inputs := [Connect; Connect;
                 Message (TestBench.from_client CASTV2_NS_MEDIA TestBench.LOAD_payload);
                 Disconnect "client-1"] in
  let d := device (process (H := TestBench.unsigned) inputs TestBench.fresh_world).2 in
  sessions_match_clients d /\ is_Some (_sessions d !! "client-2").
Proof.
  intros inputs d. split.
  - apply (sessions_follow_connections (H := TestBench.unsigned) inputs
             TestBench.fresh_world).
    exact (started_consistent TestBench.kitchen "uuid-0").
  - vm_compute. eexists. reflexivity.
Defined.

(** ** The identity store across restarts and removals *)

(** What [_save] leaves in the file. *)
Lemma _save_file (r : DeviceRegistry) :
  file (_save r) = if writable r then Stored (_registry r) else file r.
Proof. unfold _save. destruct (writable r); reflexivity. Qed.

(** The registry, the identity and the file after a call, in terms of the
    registry before it. *)
Lemma getOrCreateDevice_registry ip name e r :
  _registry (getOrCreateDevice ip name e r).2
  = <[ip := match _registry r !! ip with
            | None => {| deviceId := remove_dashes (uuid e);
                         certificate := {| key := pems_private e; cert := pems_cert e |};
                         createdAt := now e 0; lastSeen := now e 1 |}
            | Some entry => {| deviceId := deviceId entry;
                               certificate := certificate entry;
                               createdAt := createdAt entry; lastSeen := now e 0 |}
            end]> (_registry r).
Proof.
  unfold getOrCreateDevice. cbn [snd].
  destruct (_registry r !! ip); rewrite _save_registry; reflexivity.
Qed.

Lemma getOrCreateDevice_identity ip name e r :
  (getOrCreateDevice ip name e r).1
  = Some match _registry r !! ip with
         | None => created e
         | Some entry => {| identity_deviceId := deviceId entry;
                            identity_certificate := certificate entry |}
         end.
Proof.
  unfold getOrCreateDevice. cbn [fst].
  destruct (_registry r !! ip); rewrite _save_registry; cbn;
    rewrite lookup_insert_eq; reflexivity.
Qed.

Lemma getOrCreateDevice_file ip name e r :
  file (getOrCreateDevice ip name e r).2
  = if writable r then Stored (_registry (getOrCreateDevice ip name e r).2) else file r.
Proof.
  rewrite getOrCreateDevice_registry.
  unfold getOrCreateDevice. cbn [snd].
  destruct (_registry r !! ip); rewrite _save_file; cbn; reflexivity.
Qed.

(** X17. An identity survives a restart: when the registry file can be
    written, the identity returned for a speaker is returned again by a
    registry constructed afterwards from the file, whatever that registry
    draws as UUID, key pair and time. *)
Theorem identity_survives_restart (ip name name' : string) (e e' : Entropy)
    (r : DeviceRegistry) (writable' : bool) :
  writable r = true ->
  let first := getOrCreateDevice ip name e r in
  let restarted := new_DeviceRegistry (file first.2) writable' in
  (getOrCreateDevice ip name' e' restarted).1 = first.1.
Proof.
  intros Hw first restarted.
  unfold restarted, first.
  rewrite !getOrCreateDevice_identity, getOrCreateDevice_file, Hw.
  cbn [new_DeviceRegistry _registry _load].
  rewrite getOrCreateDevice_registry, lookup_insert_eq.
  destruct (_registry r !! ip); reflexivity.
Qed.

(** X18. A failing write is not reported to the caller: when the file
    cannot be written, a new speaker still gets an identity, the file stays
    as it was, and a registry constructed afterwards gives the speaker a
    different identity, made from what it draws then. *)
Theorem identity_lost_without_store (ip name name' : string) (e e' : Entropy)
    (r : DeviceRegistry) (writable' : bool) :
  writable r = false ->
  _registry r !! ip = None ->
  _load (file r) !! ip = None ->
  let first := getOrCreateDevice ip name e r in
  let restarted := new_DeviceRegistry (file first.2) writable' in
  first.1 = Some (created e)
  /\ file first.2 = file r
  /\ (getOrCreateDevice ip name' e' restarted).1 = Some (created e').
Proof.
  intros Hw Hnew Hfile first restarted.
  unfold restarted, first.
  rewrite !getOrCreateDevice_identity, getOrCreateDevice_file, Hw, Hnew.
  cbn [new_DeviceRegistry _registry]. rewrite Hfile. auto.
Qed.

(** X19. [removeDevice] forgets the speaker and nothing else: the next
    [getOrCreateDevice] for it creates an identity from what that call
    draws, whether or not the speaker was known; the registered speakers are
    the former ones without it, and the entries of the others are
    untouched. *)
Theorem removeDevice_forgets (ip name : string) (e : Entropy) (r : DeviceRegistry) :
  (getOrCreateDevice ip name e (removeDevice ip r)).1 = Some (created e)
  /\ getAllDevices (removeDevice ip r) = getAllDevices r ∖ {[ip]}
  /\ (forall ip', ip' <> ip ->
        _registry (removeDevice ip r) !! ip' = _registry r !! ip').
Proof.
  assert (Hreg : _registry (removeDevice ip r) = delete ip (_registry r)).
  { unfold removeDevice. destruct (_registry r !! ip) eqn:E.
    - cbn. now rewrite _save_registry.
    - symmetry. now apply delete_id. }
  rewrite getOrCreateDevice_identity. unfold getAllDevices. rewrite Hreg.
  rewrite lookup_delete_eq, dom_delete_L. split; [reflexivity|]. split; [reflexivity|].
  intros ip' Hne. now rewrite lookup_delete_ne.
Qed.

(** X20. Speakers do not interfere: the identity returned for a speaker
    does not depend on whether an identity was asked for another speaker
    before. *)
Theorem speakers_independent (ip ip' name name' : string) (e e' : Entropy)
    (r : DeviceRegistry) :
  ip <> ip' ->
  (getOrCreateDevice ip' name' e' (getOrCreateDevice ip name e r).2).1
  = (getOrCreateDevice ip' name' e' r).1.
Proof.
  intros Hne. rewrite !getOrCreateDevice_identity, getOrCreateDevice_registry.
  now rewrite lookup_insert_ne.
Qed.

(** X21. [clear()] forgets every speaker: none is registered afterwards,
    every later [getOrCreateDevice] creates an identity, and when the file
    can be written a registry constructed from it afterwards is empty as
    well. *)
Theorem clear_forgets_everyone (r : DeviceRegistry) :
  getAllDevices (clear r) = ∅
  /\ (forall ip name e, (getOrCreateDevice ip name e (clear r)).1 = Some (created e))
  /\ (writable r = true ->
      forall writable', getAllDevices (new_DeviceRegistry (file (clear r)) writable') = ∅).
Proof.
  assert (Hreg : _registry (clear r) = ∅).
  { unfold clear. cbn. now rewrite _save_registry. }
  unfold getAllDevices. rewrite Hreg. split; [apply dom_empty_L|]. split.
  - intros ip name e. rewrite getOrCreateDevice_identity, Hreg, lookup_empty. reflexivity.
  - intros Hw wr. unfold clear. cbn. rewrite _save_file. cbn. rewrite Hw. cbn.
    apply dom_empty_L.
Qed.

(** A first start on a missing file, then a restart. *)
Lemma identity_survives_restart_witness :
  let r := new_DeviceRegistry Missing true in
  let first := getOrCreateDevice "192.168.1.66" "Kitchen" TestBench.first_draw r in
  let restarted := new_DeviceRegistry (file first.2) true in
  (getOrCreateDevice "192.168.1.66" "Kitchen" TestBench.second_draw restarted).1
  = Some (created TestBench.first_draw).
Proof.
  intros r first restarted.
  exact (eq_trans
           (identity_survives_restart "192.168.1.66" "Kitchen" "Kitchen"
              TestBench.first_draw TestBench.second_draw r true eq_refl)
           ltac:(vm_compute; reflexivity)).
Defined.

(** The same on a file that cannot be written. *)
Lemma identity_lost_without_store_witness :
  let r := new_DeviceRegistry Missing false in
  let first := getOrCreateDevice "192.168.1.66" "Kitchen" TestBench.first_draw r in
  let restarted := new_DeviceRegistry (file first.2) true in
  first.1 = Some (created TestBench.first_draw)
  /\ (getOrCreateDevice "192.168.1.66" "Kitchen" TestBench.second_draw restarted).1
     = Some (created TestBench.second_draw).
Proof.
  intros r first restarted.
  destruct (identity_lost_without_store "192.168.1.66" "Kitchen" "Kitchen"
              TestBench.first_draw TestBench.second_draw r true
              eq_refl ltac:(vm_compute; reflexivity) ltac:(vm_compute; reflexivity))
    as (Hfirst & _ & Hsecond).
  split; [exact Hfirst | exact Hsecond].
Defined.

(** Two speakers, the first removed. *)
Lemma removeDevice_forgets_witness :
  let r := (getOrCreateDevice "192.168.1.67" "Desk" TestBench.second_draw
              (getOrCreateDevice "192.168.1.66" "Kitchen" TestBench.first_draw
                 (new_DeviceRegistry Missing true)).2).2 in
  _registry (removeDevice "192.168.1.66" r) !! "192.168.1.67"
  = _registry r !! "192.168.1.67".
Proof.
  intros r.
  destruct (removeDevice_forgets "192.168.1.66" "Kitchen" TestBench.first_draw r)
    as (_ & _ & Hothers).
  apply Hothers. discriminate.
Defined.

(** A second speaker after a first one. *)
Lemma speakers_independent_witness :
  (getOrCreateDevice "192.168.1.67" "Desk" TestBench.second_draw
     (getOrCreateDevice "192.168.1.66" "Kitchen" TestBench.first_draw
        (new_DeviceRegistry Missing true)).2).1
  = Some (created TestBench.second_draw).
Proof.
  exact (eq_trans
           (speakers_independent "192.168.1.66" "192.168.1.67" "Kitchen" "Desk"
              TestBench.first_draw TestBench.second_draw
              (new_DeviceRegistry Missing true) ltac:(discriminate))
           ltac:(vm_compute; reflexivity)).
Defined.

(** A registry with one speaker, cleared, then a restart. *)
Lemma clear_forgets_everyone_witness :
  let r := (getOrCreateDevice "192.168.1.66" "Kitchen" TestBench.first_draw
              (new_DeviceRegistry Missing true)).2 in
  getAllDevices (new_DeviceRegistry (file (clear r)) true) = ∅.
Proof.
  intros r.
  destruct (clear_forgets_everyone r) as (_ & _ & Hfile).
  apply Hfile. vm_compute. reflexivity.
Defined.

(** ** XML escaping *)

Import Bridge.

Lemma string_app_cons (x : ascii) (a b : string) :
  String x a +:+ b = String x (a +:+ b).
Proof. reflexivity. Qed.

Lemma string_app_assoc (a b c : string) : (a +:+ b) +:+ c = a +:+ (b +:+ c).
Proof.
  induction a as [|x a IH]; [reflexivity|].
  now rewrite !string_app_cons, IH.
Qed.

Lemma replace_all_app c by_ s t :
  replace_all c by_ (s +:+ t) = replace_all c by_ s +:+ replace_all c by_ t.
Proof.
  induction s as [|x s IH]; [reflexivity|].
  rewrite string_app_cons. cbn [replace_all].
  destruct (Ascii.eqb x c); rewrite IH; [|reflexivity].
  now rewrite string_app_assoc.
Qed.

Lemma _escapeXml_app s t : _escapeXml (s +:+ t) = _escapeXml s +:+ _escapeXml t.
Proof. unfold _escapeXml. now rewrite !replace_all_app. Qed.

Lemma _escapeXml_char (c : ascii) :
  _escapeXml (String c "")
  = if Ascii.eqb c "&" then "&amp;"
    else if Ascii.eqb c "<" then "&lt;"
    else if Ascii.eqb c ">" then "&gt;"
    else if Ascii.eqb c quot then "&quot;"
    else if Ascii.eqb c "'" then "&apos;"
    else String c "".
Proof.
  unfold _escapeXml. cbn [replace_all].
  destruct (Ascii.eqb_spec c "&") as [->|?]; [reflexivity|].
  cbn [replace_all].
  destruct (Ascii.eqb_spec c "<") as [->|?]; [reflexivity|].
  cbn [replace_all].
  destruct (Ascii.eqb_spec c ">") as [->|?]; [reflexivity|].
  cbn [replace_all].
  destruct (Ascii.eqb_spec c quot) as [->|?]; [reflexivity|].
  cbn [replace_all].
  destruct (Ascii.eqb_spec c "'") as [->|?]; reflexivity.
Qed.

Lemma _escapeXml_cons (c : ascii) (s : string) :
  _escapeXml (String c s) = _escapeXml (String c "") +:+ _escapeXml s.
Proof. now rewrite <- _escapeXml_app. Qed.

(** X22. The five replacements act on each character on its own: escaping
    a concatenation is concatenating the escapes, and a character becomes
    its entity if it is one of the five and stays as it is otherwise.
    Because the ampersand is replaced first, the ampersands of the entities
    are not escaped again. *)
Theorem _escapeXml_per_character (c : ascii) (s t : string) :
  _escapeXml (s +:+ t) = _escapeXml s +:+ _escapeXml t
  /\ _escapeXml (String c s)
     = (if Ascii.eqb c "&" then "&amp;"
        else if Ascii.eqb c "<" then "&lt;"
        else if Ascii.eqb c ">" then "&gt;"
        else if Ascii.eqb c quot then "&quot;"
        else if Ascii.eqb c "'" then "&apos;"
        else String c "") +:+ _escapeXml s.
Proof.
  split; [apply _escapeXml_app|].
  now rewrite _escapeXml_cons, _escapeXml_char.
Qed.

(** X23. Escaped text cannot close or open a tag or an attribute value:
    it contains no [<], no [>] and no quote of either kind. *)
Theorem _escapeXml_leaves_no_markup (s : string) :
  Forall (fun c => c ∉ markup) (list_ascii_of_string (_escapeXml s)).
Proof.
  induction s as [|c s IH]; [constructor|].
  rewrite _escapeXml_cons, _escapeXml_char.
  assert (Happ : forall a b, list_ascii_of_string (a +:+ b)
                             = list_ascii_of_string a ++ list_ascii_of_string b).
  { intros a b. induction a as [|x a IHa]; [reflexivity|].
    rewrite string_app_cons. cbn. now rewrite IHa. }
  rewrite Happ. apply Forall_app. split; [|exact IH].
  unfold markup.
  destruct (Ascii.eqb_spec c "&"); [|destruct (Ascii.eqb_spec c "<");
    [|destruct (Ascii.eqb_spec c ">"); [|destruct (Ascii.eqb_spec c quot);
    [|destruct (Ascii.eqb_spec c "'")]]]];
    cbn; repeat first [apply List.Forall_cons | apply List.Forall_nil];
    rewrite !not_elem_of_cons; repeat split;
    solve [discriminate | assumption | apply not_elem_of_nil].
Qed.


(** Case analysis on a character: one of the five, or none of them. *)
Ltac special c :=
  destruct (Ascii.eqb_spec c "&") as [->|?];
    [|destruct (Ascii.eqb_spec c "<") as [->|?];
    [|destruct (Ascii.eqb_spec c ">") as [->|?];
    [|destruct (Ascii.eqb_spec c quot) as [->|?];
    [|destruct (Ascii.eqb_spec c "'") as [->|?]]]]].

(** X24. Escaping loses nothing: two strings with the same escaped text
    are the same string. *)
Theorem _escapeXml_injective (s t : string) :
  _escapeXml s = _escapeXml t -> s = t.
Proof.
  revert t. induction s as [|c s IH]; intros [|c' t].
  - reflexivity.
  - rewrite _escapeXml_cons, _escapeXml_char.
    special c'; intros Heq; cbv [String.append] in Heq; discriminate Heq.
  - rewrite _escapeXml_cons, _escapeXml_char.
    special c; intros Heq; cbv [String.append] in Heq; discriminate Heq.
  - rewrite (_escapeXml_cons c s), (_escapeXml_cons c' t), !_escapeXml_char.
    special c; special c'; intros Heq; cbv [String.append] in Heq;
      try discriminate Heq;
      try (injection Heq as Heq; f_equal; apply IH; exact Heq);
      try (injection Heq as Hc Heq; congruence).
    injection Heq as -> Heq. f_equal. apply IH. exact Heq.
Qed.

(** A title with an ampersand and angle brackets. *)
Lemma _escapeXml_injective_witness :
  "Tom & Jerry <live>" = "Tom & Jerry <live>".
Proof.
  apply (_escapeXml_injective "Tom & Jerry <live>" "Tom & Jerry <live>").
  vm_compute. reflexivity.
Defined.

(** ** Grouping the signature bytes *)

Import Signatures.

Lemma slice_length {A} (i : nat) (l : list A) :
  length (slice i (i + SIGNATURE_SIZE) l) = SIGNATURE_SIZE `min` (length l - i).
Proof.
  unfold slice. rewrite length_take, length_drop.
  replace (i + SIGNATURE_SIZE - i) with SIGNATURE_SIZE by lia. reflexivity.
Qed.

(** The loop from the [k]-th chunk on, with fuel for the chunks that are
    left. *)
Lemma group_from_spec (b : list Byte.byte) (fuel k : nat) :
  length b / SIGNATURE_SIZE - k <= fuel ->
  group_from fuel (k * SIGNATURE_SIZE) b
  = map (fun i => slice (i * SIGNATURE_SIZE) (i * SIGNATURE_SIZE + SIGNATURE_SIZE) b)
        (seq k (length b / SIGNATURE_SIZE - k)).
Proof.
  unfold SIGNATURE_SIZE.
  pose proof (Nat.div_mod_eq (length b) 256) as Hdm.
  pose proof (Nat.mod_upper_bound (length b) 256 ltac:(lia)) as Hmod.
  revert k. induction fuel as [|fuel IH]; intros k Hfuel.
  - replace (length b / 256 - k) with 0 by lia. reflexivity.
  - cbn [group_from].
    destruct (Nat.ltb_spec (k * 256) (length b)) as [Hin|Hout].
    + rewrite slice_length. unfold SIGNATURE_SIZE.
      destruct (Nat.eqb_spec (256 `min` (length b - k * 256)) 256) as [Hfull|Hshort].
      * assert (Hk : k < length b / 256) by lia.
        replace (length b / 256 - k) with (S (length b / 256 - S k)) by lia.
        cbn [seq map]. f_equal.
        replace (k * 256 + 256) with (S k * 256) by lia.
        apply IH; lia.
      * assert (Hk : k = length b / 256) by lia.
        replace (length b / 256 - k) with 0 by lia. cbn [seq map].
        replace (k * 256 + 256) with (S k * 256) by lia.
        destruct fuel as [|fuel']; [reflexivity|].
        cbn [group_from].
        destruct (Nat.ltb_spec (S k * 256) (length b)); [lia | reflexivity].
    + replace (length b / 256 - k) with 0 by lia. reflexivity.
Qed.

Lemma concat_slices {A} (l : list A) (n k : nat) :
  (k + n) * SIGNATURE_SIZE <= length l ->
  concat (map (fun i => slice (i * SIGNATURE_SIZE) (i * SIGNATURE_SIZE + SIGNATURE_SIZE) l)
              (seq k n))
  = take (n * SIGNATURE_SIZE) (drop (k * SIGNATURE_SIZE) l).
Proof.
  unfold SIGNATURE_SIZE. revert k. induction n as [|n IH]; intros k Hlen.
  - reflexivity.
  - cbn [seq map concat]. rewrite IH by lia.
    unfold slice. replace (k * 256 + 256 - k * 256) with 256 by lia.
    replace (S n * 256) with (256 + n * 256) by lia.
    rewrite <- take_take_drop. do 2 f_equal.
    rewrite drop_drop. f_equal. lia.
Qed.

(** X25. The two scripts group the same bytes into the same signatures:
    the loop of parse-signatures.js, which skips an incomplete chunk at the
    end, and the counted loop of [extractSignatures], which never reaches
    it, give the same list; it has one entry for each full 256 bytes, every
    entry has 256 bytes, and together they are the input without its
    incomplete tail. *)
Theorem signature_scripts_agree (allBytes : list Byte.byte) :
  parse_signatures allBytes = extractSignatures allBytes
  /\ length (parse_signatures allBytes) = length allBytes / SIGNATURE_SIZE
  /\ Forall (fun sig => length sig = SIGNATURE_SIZE) (parse_signatures allBytes)
  /\ concat (parse_signatures allBytes)
     = take (length allBytes / SIGNATURE_SIZE * SIGNATURE_SIZE) allBytes.
Proof.
  assert (Hagree : parse_signatures allBytes = extractSignatures allBytes).
  { unfold parse_signatures, extractSignatures.
    change 0 with (0 * SIGNATURE_SIZE) at 1.
    rewrite (group_from_spec allBytes (length allBytes) 0).
    - now rewrite Nat.sub_0_r.
    - unfold SIGNATURE_SIZE.
      assert (length allBytes / 256 <= length allBytes)
        by (apply Nat.Div0.div_le_upper_bound; lia).
      lia. }
  pose proof (Nat.Div0.mul_div_le (length allBytes) SIGNATURE_SIZE) as Hle.
  split; [exact Hagree|]. rewrite Hagree. unfold extractSignatures.
  split; [|split].
  - now rewrite length_map, length_seq.
  - apply Forall_map, Forall_forall. intros i Hi%elem_of_seq. cbn.
    rewrite slice_length. unfold SIGNATURE_SIZE in *.
    assert (S i * 256 <= length allBytes / 256 * 256) by (apply Nat.mul_le_mono_r; lia).
    lia.
  - rewrite (concat_slices allBytes _ 0) by (unfold SIGNATURE_SIZE in *; lia).
    reflexivity.
Qed.
